(** * Store-Rating-Platform: a shallow embedding of the server

    The development follows the three server-side sources of the repository:

    - [shared/schema.ts]  the three tables and the zod schemas that guard the
      HTTP boundary (module [Schema]);
    - [server/storage.ts] the [DatabaseStorage] class (module [Storage]);
    - [server/routes.ts]  the Express handlers and the two middlewares
      (module [Routes]).

    Of the client, the schema of the registration form
    ([client/src/lib/validation.ts]) and the star widget
    ([client/src/components/star-rating.tsx]) are embedded as well (module
    [Client]).

    Modelling conventions.

    - A JavaScript number is modelled by the rational it denotes ([Qc]); a
      JSON body can carry neither NaN nor an infinity.  The SQL average is the
      exact fraction sum/count; [parseFloat] takes it to the nearest binary64
      number and [toFixed] rounds the exact value of that number. The digits
      PostgreSQL cuts from the text of the average, beyond the sixteenth, are
      not part of the model.
    - A string is the sequence of its characters, one [ascii] for each: text
      with a character above 255 is not covered.
    - A JavaScript object used as a record of fields is a [gmap string json].
    - A table is the list of its rows in insertion order; the constraints the
      schema declares (serial keys, foreign keys, unique keys, varchar
      lengths, the integer and decimal(3,2) column types) are checked by the
      statements that write, and a violated constraint raises [DbError]
      leaving the table as it was.  The sequence of the serial key is left as
      it was as well, whereas PostgreSQL has drawn the key of a row before it
      refuses the row for a unique or a foreign key: after such a refusal the
      keys of the model are behind those of PostgreSQL, and what is stated
      about a refusal is stated about the rows of the tables.
    - [async] functions run to completion one after the other: the model is
      sequential.
    - bcrypt, zod's e-mail pattern and the collation of [ORDER BY] are
      parameters, collected in the class [Externals]. *)

From Stdlib Require Import ZArith QArith Qcanon String Ascii List Lia.
From stdpp Require Import base option list gmap strings fin_maps numbers pretty sorting.
Import ListNotations.

#[local] Set Warnings "-register-all".

(** [map] over lists is stdpp's [fmap], so that its lemmas apply. *)
#[local] Abbreviation map := (fmap (M := list)) (only parsing).
#[local] Open Scope string_scope.
#[local] Open Scope list_scope.
#[local] Open Scope Z_scope.

(** ** JavaScript values *)

Module Js.

(** A value that [JSON.parse] can produce. *)
Inductive json :=
| JNull
| JBool (b : bool)
| JNum (q : Qc)
| JStr (s : string)
| JArr (l : list json)
| JObj (m : gmap string json).

(** What [qs] puts in [req.query]: strings, arrays and nested objects. *)
Inductive qs :=
| QStr (s : string)
| QArr (l : list qs)
| QObj (m : gmap string qs).

(** A JavaScript number: the rational it denotes, or NaN. *)
Inductive number :=
| Num (q : Qc)
| NaN.

Definition num (z : Z) : Qc := Q2Qc (inject_Z z).

Coercion Num : Qc >-> number.
Coercion num : Z >-> Qc.

Definition optnum (z : option Z) : json :=
  match z with Some n => JNum (num n) | None => JNull end.

Definition optstr (s : option string) : json :=
  match s with Some x => JStr x | None => JNull end.

(** [Number.isInteger]. *)
Definition isInteger (q : Qc) : bool := Pos.eqb (Qden q) 1.

(** The property access [body[k]]; [None] is [undefined]. *)
Definition field (k : string) (v : json) : option json :=
  match v with
  | JObj m => m !! k
  | _ => None
  end.

Fixpoint index_from (i : nat) (l : list json) : gmap string json :=
  match l with
  | [] => ∅
  | x :: l' => <[pretty i := x]> (index_from (S i) l')
  end.

(** The own enumerable properties copied by an object spread [{...v}]. *)
Definition spread (v : json) : gmap string json :=
  match v with
  | JObj m => m
  | JArr l => index_from 0 l
  | JStr s => index_from 0 (map (fun c => JStr (String c EmptyString)) (list_ascii_of_string s))
  | _ => ∅
  end.

Definition join (sep : string) (l : list string) : string :=
  match l with
  | [] => ""
  | x :: l' => fold_left (fun acc y => acc +:+ sep +:+ y) l' x
  end.

(** [String(v)] for a query value, as a template literal computes it. *)
Fixpoint toString (v : qs) : string :=
  match v with
  | QStr s => s
  | QArr l => join "," (map toString l)
  | QObj _ => "[object Object]"
  end.

(** Truthiness of [req.query.x]. *)
Definition truthy (v : option qs) : bool :=
  match v with
  | None => false
  | Some (QStr "") => false
  | Some _ => true
  end.

(** [x || d] on numbers: zero is falsy. *)
Definition or_ (x d : Z) : Z := if x =? 0 then d else x.

Definition digit (z : Z) : ascii := ascii_of_nat (48 + Z.to_nat z).

(** The integer nearest to [n / d], the even one on a tie. *)
Definition round_half_even (n d : Z) : Z :=
  let f := n / d in
  let r := n mod d in
  if 2 * r <? d then f
  else if d <? 2 * r then f + 1
  else if Z.even f then f else f + 1.

(** [parseFloat] on the decimal text of a rational: the binary64 number
    nearest to it, with a significand of 53 bits. Every non-zero average of
    32-bit integers is in the normal range of binary64, so subnormal
    numbers and overflow are left out. *)
Definition parseFloat (q : Q) : Q :=
  let n := Z.abs (Qnum q) in
  let d := Zpos (Qden q) in
  if n =? 0 then 0%Q
  else
    let e0 := Z.log2 n - Z.log2 d in
    let e := if n * 2 ^ Z.max 0 (- e0) <? d * 2 ^ Z.max 0 e0 then e0 - 1 else e0 in
    let s := 52 - e in
    let m := round_half_even (n * 2 ^ Z.max 0 s) (d * 2 ^ Z.max 0 (- s)) in
    Qmake (Z.sgn (Qnum q) * m * 2 ^ Z.max 0 (- s)) (Z.to_pos (2 ^ Z.max 0 s)).

(** The integer nearest to [10^2 * |q|], the larger one on a tie:
    the [n] of [Number.prototype.toFixed]. *)
Definition hundredths (q : Q) : Z :=
  (2 * 100 * Z.abs (Qnum q) + Zpos (Qden q)) / (2 * Zpos (Qden q)).

(** [q.toFixed(2)] for a number below 10^21. *)
Definition toFixed2 (q : Q) : string :=
  let n := hundredths q in
  (if Qnum q <? 0 then "-" else "") +:+
  pretty (n / 100) +:+ "." +:+
  String (digit (n / 10 mod 10)) (String (digit (n mod 10)) EmptyString).

(** [parseInt(s)] on a route parameter, without a radix: white space is
    skipped, a sign is read, then [0x] or [0X] announces hexadecimal
    digits; the longest run of digits of the radix is the value, and the
    result is NaN when there is none. *)
Definition is_digit (c : ascii) : bool :=
  let n := nat_of_ascii c in (48 <=? n)%nat && (n <=? 57)%nat.

(** The white space and line terminators of JavaScript among the
    characters below 256. *)
Definition is_space (c : ascii) : bool :=
  let n := nat_of_ascii c in
  (n =? 32)%nat || ((9 <=? n)%nat && (n <=? 13)%nat) || (n =? 160)%nat.

Fixpoint skip_spaces (l : list ascii) : list ascii :=
  match l with
  | c :: l' => if is_space c then skip_spaces l' else l
  | [] => []
  end.

Fixpoint digits_value (acc : Z) (l : list ascii) : Z :=
  match l with
  | c :: l' =>
      if is_digit c then digits_value (10 * acc + (Z.of_nat (nat_of_ascii c) - 48)) l'
      else acc
  | [] => acc
  end.

Definition decimal_int (sign : Z) (l : list ascii) : number :=
  match l with
  | c :: _ => if is_digit c then Num (num (sign * digits_value 0 l)) else NaN
  | [] => NaN
  end.

Definition hex_digit (c : ascii) : option Z :=
  let n := Z.of_nat (nat_of_ascii c) in
  if (48 <=? n) && (n <=? 57) then Some (n - 48)
  else if (65 <=? n) && (n <=? 70) then Some (n - 55)
  else if (97 <=? n) && (n <=? 102) then Some (n - 87)
  else None.

Fixpoint hex_value (acc : Z) (l : list ascii) : Z :=
  match l with
  | c :: l' =>
      match hex_digit c with
      | Some d => hex_value (16 * acc + d) l'
      | None => acc
      end
  | [] => acc
  end.

Definition hex_int (sign : Z) (l : list ascii) : number :=
  match l with
  | c :: _ =>
      match hex_digit c with
      | Some _ => Num (num (sign * hex_value 0 l))
      | None => NaN
      end
  | [] => NaN
  end.

(** What follows [0x] or [0X], when the text starts with one of them. *)
Definition hex_prefix (l : list ascii) : option (list ascii) :=
  match l with
  | z :: x :: l' =>
      if Ascii.eqb z "0" && (Ascii.eqb x "x" || Ascii.eqb x "X") then Some l' else None
  | _ => None
  end.

Definition unsigned_int (sign : Z) (l : list ascii) : number :=
  match hex_prefix l with
  | Some l' => hex_int sign l'
  | None => decimal_int sign l
  end.

Definition parseInt (s : string) : number :=
  match skip_spaces (list_ascii_of_string s) with
  | "-"%char :: l => unsigned_int (-1) l
  | "+"%char :: l => unsigned_int 1 l
  | l => unsigned_int 1 l
  end.

End Js.

Export Js.

(** ** Parameters: the libraries the server calls *)

Class Externals := {
  (** [bcrypt.hash(plain, 10)]; the first argument is the salt drawn for
      the call. *)
  bcrypt_hash : string -> string -> string;
  (** [bcrypt.compare(plain, hash)]. *)
  bcrypt_compare : string -> string -> bool;
  (** The pattern behind zod's [z.string().email()]. *)
  isEmail : string -> bool;
  (** The collation that [ORDER BY name] uses, a total order. *)
  collate_leb : string -> string -> bool;
  collate_total : forall a b, collate_leb a b = true \/ collate_leb b a = true
}.

(** What a request brings from outside the program: the clock that
    [defaultNow()] reads, the salt bcrypt draws and whether the session
    store manages to destroy a session. *)
Record Env := mkEnv { now : Z; salt : string; destroyed : bool }.

(** ** shared/schema.ts *)

Module Schema.

(** *** Rows ([$inferSelect]) *)

Module User.
Record t := mk {
  id : Z;
  name : string;
  email : string;
  password : string;
  address : option string;
  role : string;
  createdAt : option Z;
  updatedAt : option Z
}.
End User.

Module Store.
Record t := mk {
  id : Z;
  name : string;
  email : string;
  address : string;
  ownerId : Z;
  averageRating : option string;
  totalRatings : option Z;
  createdAt : option Z;
  updatedAt : option Z
}.
End Store.

Module Rating.
Record t := mk {
  id : Z;
  userId : Z;
  storeId : Z;
  rating : Z;
  review : option string;
  createdAt : option Z;
  updatedAt : option Z
}.
End Rating.

(** *** The zod combinators the schemas are built from

    A parse yields either the messages of the [ZodError], in the order zod
    collects them, or the parsed value. *)

Definition parsed (A : Type) : Type := list string + A.

Definition issues {A} (r : parsed A) : list string :=
  match r with inl l => l | inr _ => [] end.

Definition typeName (v : json) : string :=
  match v with
  | JNull => "null"
  | JBool _ => "boolean"
  | JNum _ => "number"
  | JStr _ => "string"
  | JArr _ => "array"
  | JObj _ => "object"
  end.

Definition invalid_type (expected : string) (v : option json) : string :=
  match v with
  | None => "Required"
  | Some j => "Expected " +:+ expected +:+ ", received " +:+ typeName j
  end.

(** A refinement with its message; the test tells when the value passes. *)
Definition check (A : Type) : Type := (A -> bool) * string.

Definition failed {A} (cs : list (check A)) (x : A) : list string :=
  omap (fun c : check A => if c.1 x then None else Some c.2) cs.

Definition refine {A} (cs : list (check A)) (x : A) : parsed A :=
  match failed cs x with
  | [] => inr x
  | l => inl l
  end.

Definition zString (cs : list (check string)) (v : option json) : parsed string :=
  match v with
  | Some (JStr s) => refine cs s
  | _ => inl [invalid_type "string" v]
  end.

Definition zNumber (cs : list (check Qc)) (v : option json) : parsed Qc :=
  match v with
  | Some (JNum q) => refine cs q
  | _ => inl [invalid_type "number" v]
  end.

Definition zOptional {A} (p : option json -> parsed A) (v : option json)
  : parsed (option A) :=
  match v with
  | None => inr None
  | Some _ => match p v with inl l => inl l | inr x => inr (Some x) end
  end.

Definition zDefault {A} (p : option json -> parsed A) (d : A) (v : option json)
  : parsed A :=
  match v with
  | None => inr d
  | Some _ => p v
  end.

Definition quoted (l : list string) : string :=
  join " | " (map (fun s => "'" +:+ s +:+ "'") l).

Definition zEnum (values : list string) (v : option json) : parsed string :=
  match v with
  | Some (JStr s) =>
      if bool_decide (s ∈ values) then inr s
      else inl ["Invalid enum value. Expected " +:+ quoted values +:+
                ", received '" +:+ s +:+ "'"]
  | _ => inl [invalid_type (quoted values) v]
  end.

Definition minLen (n : nat) (msg : string) : check string :=
  (fun s => (n <=? String.length s)%nat, msg).
Definition maxLen (n : nat) (msg : string) : check string :=
  (fun s => (String.length s <=? n)%nat, msg).
Definition email_ `{Externals} (msg : string) : check string := (isEmail, msg).
Definition minNum (n : Z) (msg : string) : check Qc :=
  (fun q => bool_decide (num n ≤ q)%Qc, msg).
Definition maxNum (n : Z) (msg : string) : check Qc :=
  (fun q => bool_decide (q ≤ num n)%Qc, msg).
Definition int_ (msg : string) : check Qc := (isInteger, msg).

(** The password pattern: two look-aheads anchored at the start, one for
    a capital letter A-Z and one for a character of the class [symbols]
    (the double quote is its code 34). Both scan with a dot, which stops
    at a line terminator. *)
Definition is_line_terminator (c : ascii) : bool :=
  let n := nat_of_ascii c in (n =? 10)%nat || (n =? 13)%nat.

Fixpoint first_line (l : list ascii) : list ascii :=
  match l with
  | c :: l' => if is_line_terminator c then [] else c :: first_line l'
  | [] => []
  end.

Definition is_upper (c : ascii) : bool :=
  let n := nat_of_ascii c in (65 <=? n)%nat && (n <=? 90)%nat.

Definition symbols : list ascii :=
  list_ascii_of_string "!@#$%^&*(),.?:{}|<>" ++ [ascii_of_nat 34].

Definition is_symbol (c : ascii) : bool := bool_decide (c ∈ symbols).

Definition password_pattern (s : string) : bool :=
  let l := first_line (list_ascii_of_string s) in
  existsb is_upper l && existsb is_symbol l.

Definition passwordString : option json -> parsed string :=
  zString [ minLen 8 "Password must be at least 8 characters";
            maxLen 16 "Password must not exceed 16 characters";
            (password_pattern,
             "Password must contain at least one uppercase letter and one special character") ].

(** The schema drizzle-zod derives for a NOT NULL [integer] column that has
    no override: a number, within the 32-bit range, and whole. *)
Definition integerColumn : option json -> parsed Qc :=
  zNumber [ minNum (-2147483648) "Number must be greater than or equal to -2147483648";
            maxNum 2147483647 "Number must be less than or equal to 2147483647";
            int_ "Expected integer, received float" ].

(** [z.object(...).parse]: a value that is not an object is one issue;
    otherwise every field is parsed, in the order of the shape, and the
    issues are collected in that order. Keys outside the shape are dropped. *)
Definition not_object (v : json) : option string :=
  match v with
  | JObj _ => None
  | _ => Some (invalid_type "object" (Some v))
  end.

(** *** insertUserSchema *)

Module InsertUser.
Record t := mk {
  name : string;
  email : string;
  password : string;
  address : option string;
  role : string
}.
End InsertUser.

Definition roles : list string := ["admin"; "user"; "store_owner"].

Definition insertUserSchema `{Externals} (v : json) : parsed InsertUser.t :=
  match not_object v with
  | Some m => inl [m]
  | None =>
      let name := zString [ minLen 20 "Name must be at least 20 characters";
                            maxLen 60 "Name must not exceed 60 characters" ]
                          (field "name" v) in
      let email := zString [ email_ "Invalid email format" ] (field "email" v) in
      let password := passwordString (field "password" v) in
      let address := zOptional (zString [ maxLen 400 "Address must not exceed 400 characters" ])
                               (field "address" v) in
      let role := zDefault (zEnum roles) "user" (field "role" v) in
      match name, email, password, address, role with
      | inr n, inr e, inr p, inr a, inr r => inr (InsertUser.mk n e p a r)
      | _, _, _, _, _ =>
          inl (issues name ++ issues email ++ issues password ++ issues address ++ issues role)
      end
  end.

(** *** insertStoreSchema *)

Module InsertStore.
Record t := mk {
  name : string;
  email : string;
  address : string;
  ownerId : Qc
}.
End InsertStore.

Definition insertStoreSchema `{Externals} (v : json) : parsed InsertStore.t :=
  match not_object v with
  | Some m => inl [m]
  | None =>
      let name := zString [ minLen 1 "Store name is required";
                            maxLen 255 "Store name must not exceed 255 characters" ]
                          (field "name" v) in
      let email := zString [ email_ "Invalid email format" ] (field "email" v) in
      let address := zString [ minLen 1 "Address is required";
                               maxLen 400 "Address must not exceed 400 characters" ]
                             (field "address" v) in
      let ownerId := integerColumn (field "ownerId" v) in
      match name, email, address, ownerId with
      | inr n, inr e, inr a, inr o => inr (InsertStore.mk n e a o)
      | _, _, _, _ => inl (issues name ++ issues email ++ issues address ++ issues ownerId)
      end
  end.

(** *** insertRatingSchema *)

Module InsertRating.
Record t := mk {
  userId : Qc;
  storeId : Qc;
  rating : Qc;
  review : option string
}.
End InsertRating.

Definition insertRatingSchema (v : json) : parsed InsertRating.t :=
  match not_object v with
  | Some m => inl [m]
  | None =>
      let userId := integerColumn (field "userId" v) in
      let storeId := integerColumn (field "storeId" v) in
      let rating := zNumber [ minNum 1 "Rating must be at least 1";
                              maxNum 5 "Rating must not exceed 5" ]
                            (field "rating" v) in
      let review := zOptional (zString [ maxLen 1000 "Review must not exceed 1000 characters" ])
                              (field "review" v) in
      match userId, storeId, rating, review with
      | inr u, inr s, inr r, inr w => inr (InsertRating.mk u s r w)
      | _, _, _, _ => inl (issues userId ++ issues storeId ++ issues rating ++ issues review)
      end
  end.

(** *** loginSchema and changePasswordSchema *)

Module LoginCredentials.
Record t := mk { email : string; password : string }.
End LoginCredentials.

Definition loginSchema `{Externals} (v : json) : parsed LoginCredentials.t :=
  match not_object v with
  | Some m => inl [m]
  | None =>
      let email := zString [ email_ "Invalid email format" ] (field "email" v) in
      let password := zString [ minLen 1 "Password is required" ] (field "password" v) in
      match email, password with
      | inr e, inr p => inr (LoginCredentials.mk e p)
      | _, _ => inl (issues email ++ issues password)
      end
  end.

Module ChangePasswordData.
Record t := mk { currentPassword : string; newPassword : string }.
End ChangePasswordData.

Definition changePasswordSchema (v : json) : parsed ChangePasswordData.t :=
  match not_object v with
  | Some m => inl [m]
  | None =>
      let currentPassword := zString [ minLen 1 "Current password is required" ]
                                     (field "currentPassword" v) in
      let newPassword := passwordString (field "newPassword" v) in
      match currentPassword, newPassword with
      | inr c, inr n => inr (ChangePasswordData.mk c n)
      | _, _ => inl (issues currentPassword ++ issues newPassword)
      end
  end.

End Schema.

Export Schema.

(** ** The exceptions a handler can catch *)

Inductive exn :=
| ZodError (errors : list string)
| DbError (detail : string).

(** ** The database behind [db] *)

Module Pg.

Record Db := mkDb {
  users : list User.t;
  stores : list Store.t;
  ratings : list Rating.t;
  users_id_seq : Z;
  stores_id_seq : Z;
  ratings_id_seq : Z
}.

Definition empty : Db := mkDb [] [] [] 1 1 1.

(** A computation over the database that may throw. The database a throw
    leaves behind is kept: [createRating] has no transaction around its two
    statements. *)
Definition M (A : Type) : Type := Db -> (exn + A) * Db.

Definition ret {A} (x : A) : M A := fun db => (inr x, db).

Definition bind {A B} (m : M A) (k : A -> M B) : M B :=
  fun db =>
    match m db with
    | (inr x, db') => k x db'
    | (inl e, db') => (inl e, db')
    end.

Definition throw {A} (e : exn) : M A := fun db => (inl e, db).

Definition query {A} (f : Db -> A) : M A := fun db => (inr (f db), db).

Definition lift {A} (r : exn + A) : M A := fun db => (r, db).

(** A statement: it either fails, leaving the database as it was, or
    commits a new one. *)
Definition statement {A} (f : Db -> exn + (A * Db)) : M A :=
  fun db =>
    match f db with
    | inr (x, db') => (inr x, db')
    | inl e => (inl e, db)
    end.

(** A number bound to an [integer] column or compared with one. *)
Definition int4 (n : number) : exn + Z :=
  match n with
  | Num q =>
      if isInteger q then
        if (-2147483648 <=? Qnum q) && (Qnum q <=? 2147483647) then inr (Qnum q)
        else inl (DbError "value out of range for type integer")
      else inl (DbError "invalid input syntax for type integer")
  | NaN => inl (DbError "invalid input syntax for type integer")
  end.

(** A string stored in a [varchar(n)] column: excess spaces are cut,
    any other excess is an error. *)
Definition varchar (n : nat) (s : string) : exn + string :=
  if (String.length s <=? n)%nat then inr s
  else if forallb (fun c => (nat_of_ascii c =? 32)%nat)
                  (list_ascii_of_string (substring n (String.length s - n) s))
       then inr (substring 0 n s)
       else inl (DbError "value too long for type character varying").

(** What the [decimal(3,2)] column keeps of the text [toFixed2 q]. The
    text has the scale of the column already, so it is read back as it
    was written, except that PostgreSQL has no negative zero; a value
    that rounds to 10 or more does not fit the precision. *)
Definition decimal_3_2 (q : Q) : exn + string :=
  if 1000 <=? hundredths q then inl (DbError "numeric field overflow")
  else inr (if hundredths q =? 0 then "0.00" else toFixed2 q).

(** [LIKE]: [%] matches any run of characters, [_] any one character and
    a backslash takes the next character literally. A pattern that ends in
    a lone backslash is an error in PostgreSQL; no pattern of the form
    [%q%] does. *)
Fixpoint like_chars (p s : list ascii) : bool :=
  match p with
  | [] => match s with [] => true | _ => false end
  | "%"%char :: p' =>
      (fix any (s : list ascii) : bool :=
         like_chars p' s || match s with [] => false | _ :: s' => any s' end) s
  | "_"%char :: p' =>
      match s with [] => false | _ :: s' => like_chars p' s' end
  | "\"%char :: c :: p' =>
      match s with
      | [] => false
      | c' :: s' => bool_decide (c = c') && like_chars p' s'
      end
  | c :: p' =>
      match s with
      | [] => false
      | c' :: s' => bool_decide (c = c') && like_chars p' s'
      end
  end.

Definition like (column pattern : string) : bool :=
  like_chars (list_ascii_of_string pattern) (list_ascii_of_string column).

(** [ORDER BY]: a stable insertion sort by the given order. *)
Section OrderBy.
Context {A : Type} (le : A -> A -> bool).

Fixpoint insert_sorted (x : A) (l : list A) : list A :=
  match l with
  | [] => [x]
  | y :: l' => if le x y then x :: l else y :: insert_sorted x l'
  end.

Fixpoint orderBy (l : list A) : list A :=
  match l with
  | [] => []
  | x :: l' => insert_sorted x (orderBy l')
  end.
End OrderBy.

(** [desc(createdAt)]: the later first, NULL before everything. *)
Definition desc_time (a b : option Z) : bool :=
  match a, b with
  | None, _ => true
  | Some _, None => false
  | Some x, Some y => y <=? x
  end.

End Pg.

Export Pg.

Notation "'do' x <- m ; k" := (bind m (fun x => k))
  (at level 10, x name, m at level 100, k at level 200, only parsing).

(** ** server/storage.ts *)

Module Storage.
Section DatabaseStorage.
Context `{Externals}.

(** *** User operations *)

Definition getUser (id : number) : M (option User.t) :=
  do id <- lift (int4 id);
  query (fun db => head (filter (fun u => User.id u = id) (users db))).

Definition getUserByEmail (email : string) : M (option User.t) :=
  query (fun db => head (filter (fun u => User.email u = email) (users db))).

(** [insert(users).values(...).returning()]. *)
Definition insert_user (env : Env) (name email password : string)
    (address : option string) (role : string) (db : Db) : exn + (User.t * Db) :=
  if bool_decide (email ∈ map User.email (users db))
  then inl (DbError "duplicate key value violates unique constraint users_email_unique")
  else
    let user := User.mk (users_id_seq db) name email password address role
                        (Some (now env)) (Some (now env)) in
    inr (user, mkDb (users db ++ [user]) (stores db) (ratings db)
                    (users_id_seq db + 1) (stores_id_seq db) (ratings_id_seq db)).

Definition createUser (env : Env) (userData : InsertUser.t) : M User.t :=
  let hashedPassword := bcrypt_hash (salt env) (InsertUser.password userData) in
  do name <- lift (varchar 60 (InsertUser.name userData));
  do email <- lift (varchar 255 (InsertUser.email userData));
  do password <- lift (varchar 255 hashedPassword);
  do role <- lift (varchar 20 (InsertUser.role userData));
  statement (insert_user env name email password (InsertUser.address userData) role).

(** [update(users).set({ password }).where(eq(users.id, id))] on one row. *)
Definition set_password (id : Z) (password : string) (u : User.t) : User.t :=
  if bool_decide (User.id u = id)
  then User.mk (User.id u) (User.name u) (User.email u) password
               (User.address u) (User.role u) (User.createdAt u) (User.updatedAt u)
  else u.

Definition updateUserPassword (id : number) (hashedPassword : string) : M unit :=
  do id <- lift (int4 id);
  do password <- lift (varchar 255 hashedPassword);
  statement (fun db =>
    inr (tt, mkDb (map (set_password id password) (users db)) (stores db) (ratings db)
                  (users_id_seq db) (stores_id_seq db) (ratings_id_seq db))).

Definition getAllUsers : M (list User.t) :=
  query (fun db => orderBy (fun a b => collate_leb (User.name a) (User.name b)) (users db)).

(** *** Store operations *)

Definition by_name (a b : Store.t) : bool := collate_leb (Store.name a) (Store.name b).

(** [insert(stores).values(storeData).returning()]: the aggregate columns
    take their defaults. *)
Definition insert_store (env : Env) (name email address : string) (ownerId : Z)
    (db : Db) : exn + (Store.t * Db) :=
  if bool_decide (email ∈ map Store.email (stores db))
  then inl (DbError "duplicate key value violates unique constraint stores_email_unique")
  else if negb (bool_decide (ownerId ∈ map User.id (users db)))
  then inl (DbError "violates foreign key constraint stores_owner_id_users_id_fk")
  else
    let store := Store.mk (stores_id_seq db) name email address ownerId
                          (Some "0.00") (Some 0) (Some (now env)) (Some (now env)) in
    inr (store, mkDb (users db) (stores db ++ [store]) (ratings db)
                     (users_id_seq db) (stores_id_seq db + 1) (ratings_id_seq db)).

Definition createStore (env : Env) (storeData : InsertStore.t) : M Store.t :=
  do name <- lift (varchar 255 (InsertStore.name storeData));
  do email <- lift (varchar 255 (InsertStore.email storeData));
  do ownerId <- lift (int4 (InsertStore.ownerId storeData));
  statement (insert_store env name email (InsertStore.address storeData) ownerId).

Definition getAllStores : M (list Store.t) :=
  query (fun db => orderBy by_name (stores db)).

Definition getStoreById (id : number) : M (option Store.t) :=
  do id <- lift (int4 id);
  query (fun db => head (filter (fun s => Store.id s = id) (stores db))).

Definition getStoresByOwner (ownerId : number) : M (list Store.t) :=
  do ownerId <- lift (int4 ownerId);
  query (fun db => filter (fun s => Store.ownerId s = ownerId) (stores db)).

Definition searchStores (query_ : string) : M (list Store.t) :=
  let pattern := "%" +:+ query_ +:+ "%" in
  query (fun db =>
    orderBy by_name
      (filter (fun s => like (Store.name s) pattern || like (Store.address s) pattern)
              (stores db))).

(** The rows of [ratings] that belong to a store. *)
Definition ratings_of (storeId : Z) (db : Db) : list Rating.t :=
  filter (fun r => Rating.storeId r = storeId) (ratings db).

(** [avg(ratings.rating)]: NULL over no row, else the exact mean. *)
Definition avg (values : list Z) : option Q :=
  match values with
  | [] => None
  | _ => Some (Qmake (foldr Z.add 0 values) (Pos.of_nat (length values)))
  end.

(** [count(ratings.id)]. *)
Definition count {A} (rows : list A) : Z := Z.of_nat (length rows).

(** [update(stores).set({ averageRating, totalRatings })
    .where(eq(stores.id, storeId))] on one row. *)
Definition set_aggregate (storeId : Z) (averageRating : string) (totalRatings : Z)
    (s : Store.t) : Store.t :=
  if bool_decide (Store.id s = storeId)
  then Store.mk (Store.id s) (Store.name s) (Store.email s) (Store.address s)
                (Store.ownerId s) (Some averageRating) (Some totalRatings)
                (Store.createdAt s) (Store.updatedAt s)
  else s.

Definition update_aggregate (storeId : Z) (averageRating : string) (totalRatings : Z)
    (db : Db) : Db :=
  mkDb (users db)
       (map (set_aggregate storeId averageRating totalRatings) (stores db))
       (ratings db)
       (users_id_seq db) (stores_id_seq db) (ratings_id_seq db).

Definition updateStoreRating (storeId : number) : M unit :=
  do storeId <- lift (int4 storeId);
  do result <- query (fun db =>
                  let rows := ratings_of storeId db in
                  (avg (map Rating.rating rows), count rows));
  let '(avgRating, totalRatings) := result in
  do averageRating <- lift (match avgRating with
                            | Some q => decimal_3_2 (parseFloat q)
                            | None => inr "0.00"
                            end);
  let totalRatings := or_ totalRatings 0 in
  statement (fun db => inr (tt, update_aggregate storeId averageRating totalRatings db)).

(** *** Rating operations *)

(** The unique key [userStoreUnique]. *)
Definition key (r : Rating.t) : Z * Z := (Rating.userId r, Rating.storeId r).

(** [insert(ratings).values(ratingData).returning()]. *)
Definition insert_rating (env : Env) (userId storeId value : Z)
    (review : option string) (db : Db) : exn + (Rating.t * Db) :=
  if bool_decide ((userId, storeId) ∈ map key (ratings db))
  then inl (DbError "duplicate key value violates unique constraint ratings_user_id_store_id_unique")
  else if negb (bool_decide (userId ∈ map User.id (users db)))
  then inl (DbError "violates foreign key constraint ratings_user_id_users_id_fk")
  else if negb (bool_decide (storeId ∈ map Store.id (stores db)))
  then inl (DbError "violates foreign key constraint ratings_store_id_stores_id_fk")
  else
    let rating := Rating.mk (ratings_id_seq db) userId storeId value review
                            (Some (now env)) (Some (now env)) in
    inr (rating, mkDb (users db) (stores db) (ratings db ++ [rating])
                      (users_id_seq db) (stores_id_seq db) (ratings_id_seq db + 1)).

Definition createRating (env : Env) (ratingData : InsertRating.t) : M Rating.t :=
  do rating <-
    (do userId <- lift (int4 (InsertRating.userId ratingData));
     do storeId <- lift (int4 (InsertRating.storeId ratingData));
     do value <- lift (int4 (InsertRating.rating ratingData));
     statement (insert_rating env userId storeId value (InsertRating.review ratingData)));
  do _ <- updateStoreRating (InsertRating.storeId ratingData);
  ret rating.

(** [.set(ratingData)] on one row of the [where]: the columns of the
    keys that [ratingData] has are written; a review that is absent
    leaves the column alone. *)
Definition set_rating (whereUser whereStore : Z)
    (userId storeId value : Z) (review : option string)
    (r : Rating.t) : Rating.t :=
  if bool_decide (key r = (whereUser, whereStore))
  then Rating.mk (Rating.id r) userId storeId value
                 (match review with Some w => Some w | None => Rating.review r end)
                 (Rating.createdAt r) (Rating.updatedAt r)
  else r.

(** [update(ratings).set(ratingData).where(...).returning()]. The unique
    key and the foreign keys are checked for a row whose key columns
    change. *)
Definition update_rating (whereUser whereStore : Z)
    (userId storeId value : Z) (review : option string)
    (db : Db) : exn + (option Rating.t * Db) :=
  let hit (r : Rating.t) : Prop := key r = (whereUser, whereStore) in
  let set := set_rating whereUser whereStore userId storeId value review in
  let rows := map set (ratings db) in
  if bool_decide (filter hit (ratings db) = []) then inr (None, db)
  else if negb (bool_decide ((userId, storeId) = (whereUser, whereStore))
                || bool_decide (NoDup (map key rows)))
  then inl (DbError "duplicate key value violates unique constraint ratings_user_id_store_id_unique")
  else if negb (bool_decide (userId = whereUser)
                || bool_decide (userId ∈ map User.id (users db)))
  then inl (DbError "violates foreign key constraint ratings_user_id_users_id_fk")
  else if negb (bool_decide (storeId = whereStore)
                || bool_decide (storeId ∈ map Store.id (stores db)))
  then inl (DbError "violates foreign key constraint ratings_store_id_stores_id_fk")
  else
    inr (head (map set (filter hit (ratings db))),
         mkDb (users db) (stores db) rows
              (users_id_seq db) (stores_id_seq db) (ratings_id_seq db)).

Definition updateRating (userId storeId : number) (ratingData : InsertRating.t)
  : M (option Rating.t) :=
  do rating <-
    (do whereUser <- lift (int4 userId);
     do whereStore <- lift (int4 storeId);
     do newUser <- lift (int4 (InsertRating.userId ratingData));
     do newStore <- lift (int4 (InsertRating.storeId ratingData));
     do value <- lift (int4 (InsertRating.rating ratingData));
     statement (update_rating whereUser whereStore newUser newStore value
                              (InsertRating.review ratingData)));
  do _ <- updateStoreRating storeId;
  ret rating.

Definition getRatingByUserAndStore (userId storeId : number) : M (option Rating.t) :=
  do userId <- lift (int4 userId);
  do storeId <- lift (int4 storeId);
  query (fun db =>
    head (filter (fun r => key r = (userId, storeId)) (ratings db))).

Definition by_createdAt_desc (a b : Rating.t) : bool :=
  desc_time (Rating.createdAt a) (Rating.createdAt b).

Definition getRatingsByStore (storeId : number) : M (list Rating.t) :=
  do storeId <- lift (int4 storeId);
  query (fun db => orderBy by_createdAt_desc (ratings_of storeId db)).

Definition getRatingsByUser (userId : number) : M (list Rating.t) :=
  do userId <- lift (int4 userId);
  query (fun db =>
    orderBy by_createdAt_desc
      (filter (fun r => Rating.userId r = userId) (ratings db))).

(** *** Stats operations *)

Record Statistics := mkStatistics {
  totalUsers : Z;
  totalStores : Z;
  totalRatings : Z
}.

Definition getStatistics : M Statistics :=
  query (fun db => mkStatistics (count (users db)) (count (stores db)) (count (ratings db))).

End DatabaseStorage.
End Storage.

(** ** server/routes.ts *)

Module Routes.

Import Storage.

(** The snapshot that login leaves in the session. *)
Module SessionUser.
Record t := mk { id : Z; name : string; email : string; role : string }.
End SessionUser.

Record SessionData := mkSession {
  userId : option Z;
  user : option SessionUser.t
}.

Definition anonymous : SessionData := mkSession None None.

Record Response := mkResponse { status : Z; body : json }.

(** What a handler leaves behind: the response, the session and the
    database. *)
Record Outcome := mkOutcome {
  response : Response;
  session : SessionData;
  database : Db
}.

Inductive Request :=
| PostAuthRegister (body : json)
| PostAuthLogin (body : json)
| PostAuthLogout
| GetAuthMe
| PostAuthChangePassword (body : json)
| GetStores (query : gmap string qs)
| PostStores (body : json)
| GetStoresOwner (ownerId : string)
| PostRatings (body : json)
| GetRatingsStore (storeId : string)
| GetUsers
| PostUsers (body : json)
| GetStatistics.

(** *** What [res.json] writes for a row. A timestamp is written as the
    number of the instant. *)

Definition user_json (u : User.t) : gmap string json :=
  list_to_map
    [ ("id", JNum (User.id u)); ("name", JStr (User.name u));
      ("email", JStr (User.email u)); ("password", JStr (User.password u));
      ("address", optstr (User.address u)); ("role", JStr (User.role u));
      ("createdAt", optnum (User.createdAt u));
      ("updatedAt", optnum (User.updatedAt u)) ].

Definition store_json (s : Store.t) : gmap string json :=
  list_to_map
    [ ("id", JNum (Store.id s)); ("name", JStr (Store.name s));
      ("email", JStr (Store.email s)); ("address", JStr (Store.address s));
      ("ownerId", JNum (Store.ownerId s));
      ("averageRating", optstr (Store.averageRating s));
      ("totalRatings", optnum (Store.totalRatings s));
      ("createdAt", optnum (Store.createdAt s));
      ("updatedAt", optnum (Store.updatedAt s)) ].

Definition rating_json (r : Rating.t) : gmap string json :=
  list_to_map
    [ ("id", JNum (Rating.id r)); ("userId", JNum (Rating.userId r));
      ("storeId", JNum (Rating.storeId r)); ("rating", JNum (Rating.rating r));
      ("review", optstr (Rating.review r));
      ("createdAt", optnum (Rating.createdAt r));
      ("updatedAt", optnum (Rating.updatedAt r)) ].

Definition statistics_json (s : Statistics) : gmap string json :=
  list_to_map
    [ ("totalUsers", JNum (totalUsers s)); ("totalStores", JNum (totalStores s));
      ("totalRatings", JNum (totalRatings s)) ].

(** [const { password, ...userWithoutPassword } = user]. *)
Definition userWithoutPassword (u : User.t) : gmap string json :=
  delete "password" (user_json u).

Definition json_ (v : json) : Response := mkResponse 200 v.

Definition message (code : Z) (text : string) : Response :=
  mkResponse code (JObj {[ "message" := JStr text ]}).

Definition parse {A} (r : parsed A) : M A :=
  match r with
  | inl errors => throw (ZodError errors)
  | inr x => ret x
  end.

(** [try { ... } catch (error) { ... }] around a handler body: a
    [ZodError] answers 400 with its first message, anything else 500
    with the message of the handler. The session is written only by a
    body that completes. *)
Definition try_catch (failure : string) (session : SessionData)
    (body : M (Response * SessionData)) (db : Db) : Outcome :=
  match body db with
  | (inr (res, session'), db') => mkOutcome res session' db'
  | (inl (ZodError (first :: _)), db') => mkOutcome (message 400 first) session db'
  | (inl _, db') => mkOutcome (message 500 failure) session db'
  end.

(** The same without the [ZodError] branch. *)
Definition try_catch_all (failure : string) (session : SessionData)
    (body : M (Response * SessionData)) (db : Db) : Outcome :=
  match body db with
  | (inr (res, session'), db') => mkOutcome res session' db'
  | (inl _, db') => mkOutcome (message 500 failure) session db'
  end.

(** *** Middleware *)

Definition Handler : Type := SessionData -> Db -> Outcome.

(** [!req.session.userId]: no id, or the id 0. *)
Definition requireAuth (next : Handler) : Handler :=
  fun session db =>
    match userId session with
    | Some id =>
        if id =? 0 then mkOutcome (message 401 "Unauthorized") session db
        else next session db
    | None => mkOutcome (message 401 "Unauthorized") session db
    end.

Definition is_admin (session : SessionData) : bool :=
  match user session with
  | Some u => bool_decide (SessionUser.role u = "admin")
  | None => false
  end.

Definition requireAdmin (next : Handler) : Handler :=
  fun session db =>
    if is_admin session then next session db
    else mkOutcome (message 403 "Forbidden") session db.

(** [req.session.userId] past [requireAuth]. *)
Definition session_userId (session : SessionData) : Z :=
  default 0 (userId session).

Fixpoint mapM {A B} (f : A -> M B) (l : list A) : M (list B) :=
  match l with
  | [] => ret []
  | x :: l' => do y <- f x; do ys <- mapM f l'; ret (y :: ys)
  end.

Section Handlers.
Context `{Externals}.

(** *** Auth endpoints *)

Definition register (body : json) (env : Env) : Handler :=
  fun session =>
    try_catch "Registration failed" session
      (do userData <- parse (insertUserSchema body);
       do existingUser <- getUserByEmail (InsertUser.email userData);
       match existingUser with
       | Some _ => ret (message 400 "User already exists", session)
       | None =>
           do user <- createUser env userData;
           ret (json_ (JObj {[ "user" := JObj (userWithoutPassword user) ]}), session)
       end).

Definition login (body : json) : Handler :=
  fun session =>
    try_catch "Login failed" session
      (do credentials <- parse (loginSchema body);
       do user <- getUserByEmail (LoginCredentials.email credentials);
       match user with
       | None => ret (message 401 "Invalid credentials", session)
       | Some user =>
           if negb (bcrypt_compare (LoginCredentials.password credentials)
                                   (User.password user))
           then ret (message 401 "Invalid credentials", session)
           else
             let session' :=
               mkSession (Some (User.id user))
                         (Some (SessionUser.mk (User.id user) (User.name user)
                                               (User.email user) (User.role user))) in
             ret (json_ (JObj {[ "user" := JObj (userWithoutPassword user) ]}), session')
       end).

(** [req.session.destroy]: the session store decides whether it fails;
    [destroyed] is its answer. *)
Definition logout (destroyed : bool) : Handler :=
  fun session db =>
    if destroyed
    then mkOutcome (json_ (JObj {[ "message" := JStr "Logged out successfully" ]}))
                   anonymous db
    else mkOutcome (message 500 "Logout failed") session db.

Definition me : Handler :=
  requireAuth (fun session =>
    try_catch_all "Failed to fetch user" session
      (do user <- getUser (session_userId session);
       match user with
       | None => ret (message 404 "User not found", session)
       | Some user =>
           ret (json_ (JObj {[ "user" := JObj (userWithoutPassword user) ]}), session)
       end)).

Definition changePassword (body : json) (env : Env) : Handler :=
  requireAuth (fun session =>
    try_catch "Failed to change password" session
      (do data <- parse (changePasswordSchema body);
       do user <- getUser (session_userId session);
       match user with
       | None => ret (message 404 "User not found", session)
       | Some user =>
           if negb (bcrypt_compare (ChangePasswordData.currentPassword data)
                                   (User.password user))
           then ret (message 401 "Current password is incorrect", session)
           else
             let hashedNewPassword :=
               bcrypt_hash (salt env) (ChangePasswordData.newPassword data) in
             do _ <- updateUserPassword (User.id user) hashedNewPassword;
             ret (json_ (JObj {[ "message" := JStr "Password updated successfully" ]}),
                  session)
       end)).

(** *** Store endpoints *)

(** [userRating?.rating || null]. *)
Definition userRating_json (userRating : option Rating.t) : json :=
  match userRating with
  | Some r => if Rating.rating r =? 0 then JNull else JNum (Rating.rating r)
  | None => JNull
  end.

Definition getStores (query : gmap string qs) : Handler :=
  requireAuth (fun session =>
    try_catch_all "Failed to fetch stores" session
      (let search := query !! "search" in
       let sortBy := query !! "sortBy" in
       let sortOrder := query !! "sortOrder" in
       do stores <- (if truthy search
                     then searchStores (from_option toString "" search)
                     else getAllStores);
       do stores <-
         (if negb (is_admin session)
          then mapM (fun store =>
                       do userRating <- getRatingByUserAndStore
                                          (session_userId session) (Store.id store);
                       ret (<[ "userRating" := userRating_json userRating ]>
                              (store_json store)))
                    stores
          else ret (map store_json stores));
       ret (json_ (JArr (map JObj stores)), session))).

Definition postStores (body : json) (env : Env) : Handler :=
  requireAdmin (fun session =>
    try_catch "Failed to create store" session
      (do storeData <- parse (insertStoreSchema body);
       do store <- createStore env storeData;
       ret (json_ (JObj (store_json store)), session))).

Definition getStoresOwner (ownerId : string) : Handler :=
  requireAuth (fun session =>
    try_catch_all "Failed to fetch stores" session
      (let ownerId := parseInt ownerId in
       do stores <- getStoresByOwner ownerId;
       ret (json_ (JArr (map (fun s => JObj (store_json s)) stores)), session))).

(** *** Rating endpoints *)

Definition postRatings (body : json) (env : Env) : Handler :=
  requireAuth (fun session =>
    try_catch "Failed to submit rating" session
      (do ratingData <-
         parse (insertRatingSchema
                  (JObj (<[ "userId" := JNum (session_userId session) ]> (spread body))));
       do existingRating <- getRatingByUserAndStore (session_userId session)
                                                    (InsertRating.storeId ratingData);
       do rating <-
         match existingRating with
         | Some _ => updateRating (session_userId session)
                                  (InsertRating.storeId ratingData) ratingData
         | None => do rating <- createRating env ratingData; ret (Some rating)
         end;
       ret (json_ (from_option (fun r => JObj (rating_json r)) JNull rating), session))).

Definition getRatingsStore (storeId : string) : Handler :=
  requireAuth (fun session =>
    try_catch_all "Failed to fetch ratings" session
      (let storeId := parseInt storeId in
       do ratings <- getRatingsByStore storeId;
       do ratingsWithUsers <-
         mapM (fun rating =>
                 do user <- getUser (Rating.userId rating);
                 ret (<[ "user" := match user with
                                   | Some u => JObj (list_to_map
                                                 [ ("name", JStr (User.name u));
                                                   ("email", JStr (User.email u)) ])
                                   | None => JNull
                                   end ]> (rating_json rating)))
              ratings;
       ret (json_ (JArr (map JObj ratingsWithUsers)), session))).

(** *** User management and statistics (admin only) *)

Definition getUsers : Handler :=
  requireAdmin (fun session =>
    try_catch_all "Failed to fetch users" session
      (do users <- getAllUsers;
       let usersWithoutPasswords := map userWithoutPassword users in
       ret (json_ (JArr (map JObj usersWithoutPasswords)), session))).

Definition postUsers (body : json) (env : Env) : Handler :=
  requireAdmin (fun session =>
    try_catch "Failed to create user" session
      (do userData <- parse (insertUserSchema body);
       do existingUser <- getUserByEmail (InsertUser.email userData);
       match existingUser with
       | Some _ => ret (message 400 "User already exists", session)
       | None =>
           do user <- createUser env userData;
           ret (json_ (JObj (userWithoutPassword user)), session)
       end)).

Definition getStatistics_ : Handler :=
  requireAdmin (fun session =>
    try_catch_all "Failed to fetch statistics" session
      (do stats <- getStatistics;
       ret (json_ (JObj (statistics_json stats)), session))).

(** *** The router *)

Definition handle (env : Env) (req : Request) : Handler :=
  match req with
  | PostAuthRegister body => register body env
  | PostAuthLogin body => login body
  | PostAuthLogout => logout (destroyed env)
  | GetAuthMe => me
  | PostAuthChangePassword body => changePassword body env
  | GetStores query => getStores query
  | PostStores body => postStores body env
  | GetStoresOwner ownerId => getStoresOwner ownerId
  | PostRatings body => postRatings body env
  | GetRatingsStore storeId => getRatingsStore storeId
  | GetUsers => getUsers
  | PostUsers body => postUsers body env
  | GetStatistics => getStatistics_
  end.

End Handlers.
End Routes.

(** ** The vocabulary of the statements *)

Module Properties.

Import Storage Routes.

(** The mean of the rating values as a JavaScript number, written with
    two decimals; ["0.00"] when there is none. *)
Definition mean (values : list Z) : Q :=
  Qmake (foldr Z.add 0 values) (Pos.of_nat (length values)).

Definition mean_2dp (values : list Z) : string :=
  match values with
  | [] => "0.00"
  | _ => toFixed2 (parseFloat (mean values))
  end.

(** The aggregate of a store row is the one its ratings give. *)
Definition materialized (db : Db) (s : Store.t) : Prop :=
  Store.averageRating s
    = Some (mean_2dp (map Rating.rating (ratings_of (Store.id s) db)))
  /\ Store.totalRatings s = Some (count (ratings_of (Store.id s) db)).

(** A request as the server meets it: with what comes from outside and
    with the session its cookie designates. *)
Record Event := mkEvent {
  env : Env;
  request : Request;
  cookie : SessionData
}.

Section Runs.
Context `{Externals}.

Definition serve (e : Event) (db : Db) : Outcome :=
  handle (env e) (request e) (cookie e) db.

(** The database after a sequence of requests. *)
Definition run (trace : list Event) (db : Db) : Db :=
  fold_left (fun db e => database (serve e db)) trace db.

(** The users that submitted a rating for a store in the course of a
    run: the session ids of the answered [POST /api/ratings] whose
    body names the store. *)
Definition submits (storeId : Z) (e : Event) (db : Db) : list Z :=
  match request e with
  | PostRatings body =>
      match spread body !! "storeId" with
      | Some (JNum q) =>
          if bool_decide (q = num storeId)
             && bool_decide (status (response (serve e db)) = 200)
          then [session_userId (cookie e)]
          else []
      | _ => []
      end
  | _ => []
  end.

Fixpoint submitters (storeId : Z) (trace : list Event) (db : Db) : list Z :=
  match trace with
  | [] => []
  | e :: trace' =>
      submits storeId e db ++ submitters storeId trace' (database (serve e db))
  end.
End Runs.

(** The rows of a user for a store. *)
Definition rows_of (userId storeId : Z) (db : Db) : list Rating.t :=
  filter (fun r => key r = (userId, storeId)) (ratings db).

(** The endpoints behind [requireAdmin]. *)
Definition admin_only (req : Request) : bool :=
  match req with
  | PostStores _ | GetUsers | PostUsers _ | GetStatistics => true
  | _ => false
  end.

(** No object inside a value has the key. *)
Inductive no_key (k : string) : json -> Prop :=
| no_key_null : no_key k JNull
| no_key_bool b : no_key k (JBool b)
| no_key_num q : no_key k (JNum q)
| no_key_str s : no_key k (JStr s)
| no_key_arr l : Forall (no_key k) l -> no_key k (JArr l)
| no_key_obj m :
    m !! k = None -> map_Forall (fun _ v => no_key k v) m -> no_key k (JObj m).

(** The name a store has in a response. *)
Definition name_of (v : json) : option string :=
  match field "name" v with
  | Some (JStr s) => Some s
  | _ => None
  end.

Definition ascending `{Externals} (names : list string) : Prop :=
  Sorted (fun a b => collate_leb a b = true) names.

(** Rating values within the range of the data model. *)
Definition in_range (r : Rating.t) : Prop := 1 <= Rating.rating r <= 5.

(** What [updateStoreRating] computes for a store before it writes. *)
Definition aggregate (storeId : Z) (db : Db) : exn + (string * Z) :=
  let rows := ratings_of storeId db in
  match avg (map Rating.rating rows) with
  | Some q =>
      match decimal_3_2 (parseFloat q) with
      | inl e => inl e
      | inr a => inr (a, or_ (count rows) 0)
      end
  | None => inr ("0.00", or_ (count rows) 0)
  end.

(** A submission that passed [requireAuth] and [insertRatingSchema]:
    the user of the session, the parsed data, the store and the value. *)
Record accepted (body : json) (session : SessionData)
    (uid : Z) (data : InsertRating.t) (sid v : Z) : Prop := {
  accepted_session : userId session = Some uid;
  accepted_parse :
    insertRatingSchema (JObj (<[ "userId" := JNum uid ]> (spread body))) = inr data;
  accepted_user : InsertRating.userId data = num uid;
  accepted_store : InsertRating.storeId data = num sid;
  accepted_value : InsertRating.rating data = num v;
  accepted_range : 1 <= v <= 5;
  accepted_body : spread body !! "storeId" = Some (JNum sid)
}.

(** The end of a rating write: the aggregate is recomputed and the row
    is answered, or the recompute throws after the row was written. *)
Inductive recomputed (sid : Z) (row : Rating.t) (session : SessionData) (db : Db)
  : Outcome -> Prop :=
| recomputed_fresh a t :
    aggregate sid db = inr (a, t) ->
    recomputed sid row session db
      (mkOutcome (json_ (JObj (rating_json row))) session (update_aggregate sid a t db))
| recomputed_stale e :
    aggregate sid db = inl e ->
    recomputed sid row session db
      (mkOutcome (message 500 "Failed to submit rating") session db).

(** What [POST /api/ratings] can leave behind. *)
Inductive rating_outcome (body : json) (env : Env) (session : SessionData) (db : Db)
  : Outcome -> Prop :=
| rating_refused res :
    status res <> 200 ->
    rating_outcome body env session db (mkOutcome res session db)
| rating_created uid data sid v o :
    accepted body session uid data sid v ->
    rows_of uid sid db = [] ->
    uid ∈ map User.id (users db) ->
    sid ∈ map Store.id (stores db) ->
    let row := Rating.mk (ratings_id_seq db) uid sid v (InsertRating.review data)
                         (Some (now env)) (Some (now env)) in
    recomputed sid row session
      (mkDb (users db) (stores db) (ratings db ++ [row])
            (users_id_seq db) (stores_id_seq db) (ratings_id_seq db + 1)) o ->
    rating_outcome body env session db o
| rating_updated uid data sid v r rest o :
    accepted body session uid data sid v ->
    rows_of uid sid db = r :: rest ->
    let set := set_rating uid sid uid sid v (InsertRating.review data) in
    recomputed sid (set r) session
      (mkDb (users db) (stores db) (map set (ratings db))
            (users_id_seq db) (stores_id_seq db) (ratings_id_seq db)) o ->
    rating_outcome body env session db o.

(** The invariant of the data model that the handlers maintain: rating
    values in range, one row per user and store, every rating on an
    existing store, store ids below the sequence, and every aggregate
    materialized. *)
Record consistent (db : Db) : Prop := {
  ratings_in_range : Forall in_range (ratings db);
  ratings_unique : NoDup (map key (ratings db));
  ratings_on_stores :
    Forall (fun r => Rating.storeId r ∈ map Store.id (stores db)) (ratings db);
  stores_below_seq : Forall (fun s => Store.id s < stores_id_seq db) (stores db);
  aggregates : Forall (materialized db) (stores db)
}.

(** Two databases with the same stores and ratings. *)
Definition same_catalog (db db' : Db) : Prop :=
  stores db' = stores db /\ ratings db' = ratings db
  /\ stores_id_seq db' = stores_id_seq db.

(** A computation that moves the database along a relation. *)
Definition keeps {A} (R : relation Db) (m : M A) : Prop :=
  forall db, R db (m db).2.

(** A computation whose results, when it returns, satisfy a predicate. *)
Definition yields {A} (Q : A -> Prop) (m : M A) : Prop :=
  forall db x db', m db = (inr x, db') -> Q x.

(** A response without a password field. *)
Definition clean (res : Response) : Prop := no_key "password" (body res).

End Properties.

(** ** Sample data *)

Module Samples.

Import Storage Routes Properties.

(** Stand-ins for the libraries: a hash that prefixes, an e-mail test that
    looks for the at sign, and the byte order of strings. *)
Definition ext : Externals := {|
  bcrypt_hash salt plain := "$2a$10$" +:+ salt +:+ plain;
  bcrypt_compare plain hash := bool_decide (hash = "$2a$10$salt" +:+ plain);
  isEmail s := bool_decide ("@"%char ∈ list_ascii_of_string s);
  collate_leb := String.leb;
  collate_total := String.leb_total
|}.

Definition env0 : Env := mkEnv 1000 "salt" true.

Definition obj (l : list (string * json)) : json := JObj (list_to_map l).

Definition as_ (id : Z) (role : string) : SessionData :=
  mkSession (Some id) (Some (SessionUser.mk id "name" "email" role)).

Definition registration (name email role : string) : json :=
  obj [ ("name", JStr name); ("email", JStr email);
        ("password", JStr "Secret!1x"); ("role", JStr role) ].

Definition rate (storeId : Z) (rating : Qc) (review : option string) : json :=
  obj ([ ("storeId", JNum storeId); ("rating", JNum rating) ]
       ++ match review with Some w => [("review", JStr w)] | None => [] end).

(** An administrator, a store owner and two customers, all registered
    through [POST /api/auth/register], and one store. *)
Definition setup : list Event :=
  [ mkEvent env0 (PostAuthRegister
      (registration "Administrator Of The Site" "admin@x.org" "admin")) anonymous;
    mkEvent env0 (PostAuthRegister
      (registration "Owner Of The First Store" "owner@x.org" "store_owner")) anonymous;
    mkEvent env0 (PostAuthRegister
      (registration "Alice The First Customer" "alice@x.org" "user")) anonymous;
    mkEvent env0 (PostAuthRegister
      (registration "Bob The Second Customer." "bob@x.org" "user")) anonymous;
    mkEvent env0 (PostStores
      (obj [ ("name", JStr "S"); ("email", JStr "s@x.org");
             ("address", JStr "1 Main St"); ("ownerId", JNum 2) ])) (as_ 1 "admin") ].

Definition db0 : Db := Eval vm_compute in run (H := ext) setup Pg.empty.

(** Alice rates 4, Bob rates 2 with a review. *)
Definition rated : list Event :=
  [ mkEvent env0 (PostRatings (rate 1 4 None)) (as_ 3 "user");
    mkEvent env0 (PostRatings (rate 1 2 (Some "ok"))) (as_ 4 "user") ].

Definition db1 : Db := Eval vm_compute in run (H := ext) rated db0.

Definition half : Qc := Q2Qc (5 # 2).

End Samples.

(** ** The vocabulary of the statements about sessions and tables *)

Module Conduct.

Import Storage Routes Properties.

(** The endpoints behind [requireAuth]. *)
Definition auth_only (req : Request) : bool :=
  match req with
  | GetAuthMe | PostAuthChangePassword _ | GetStores _ | GetStoresOwner _
  | PostRatings _ | GetRatingsStore _ => true
  | _ => false
  end.

(** A session that [requireAuth] lets through. *)
Definition authenticated (session : SessionData) : Prop :=
  exists uid, userId session = Some uid /\ uid <> 0.

(** The endpoints whose handler calls no writing method of the storage. *)
Definition read_only (req : Request) : bool :=
  match req with
  | PostAuthLogin _ | PostAuthLogout | GetAuthMe | GetStores _ | GetStoresOwner _
  | GetRatingsStore _ | GetUsers | GetStatistics => true
  | _ => false
  end.

(** The endpoints whose handler assigns to [req.session] or destroys it. *)
Definition writes_session (req : Request) : bool :=
  match req with
  | PostAuthLogin _ | PostAuthLogout => true
  | _ => false
  end.

(** The answer to a body that a schema refused with the issues [l]:
    400 with the message of the first issue, and nothing else happened. *)
Definition rejected (l : list string) (session : SessionData) (db : Db)
    (o : Outcome) : Prop :=
  exists m, head l = Some m /\ o = mkOutcome (message 400 m) session db.

(** What login leaves in the session for a user. *)
Definition snapshot (u : User.t) : SessionData :=
  mkSession (Some (User.id u))
            (Some (SessionUser.mk (User.id u) (User.name u) (User.email u) (User.role u))).

End Conduct.

(** ** The constraints that the tables declare *)

Module Constraints.

Import Storage Routes Properties.

(** The primary keys, the unique keys and the references of
    [shared/schema.ts], with the serial sequences ahead of the ids. *)
Record integrity (db : Db) : Prop := {
  users_pk : NoDup (map User.id (users db));
  users_email_unique : NoDup (map User.email (users db));
  users_serial : Forall (fun u => User.id u < users_id_seq db) (users db);
  stores_pk : NoDup (map Store.id (stores db));
  stores_email_unique : NoDup (map Store.email (stores db));
  stores_serial : Forall (fun s => Store.id s < stores_id_seq db) (stores db);
  stores_owner_fk :
    Forall (fun s => Store.ownerId s ∈ map User.id (users db)) (stores db);
  ratings_pk : NoDup (map Rating.id (ratings db));
  ratings_serial : Forall (fun r => Rating.id r < ratings_id_seq db) (ratings db);
  ratings_user_store_unique : NoDup (map key (ratings db));
  ratings_user_fk :
    Forall (fun r => Rating.userId r ∈ map User.id (users db)) (ratings db);
  ratings_store_fk :
    Forall (fun r => Rating.storeId r ∈ map Store.id (stores db)) (ratings db)
}.

(** A relation between the database before and after that holds when
    a property is carried over. *)
Definition preserves (P : Db -> Prop) : relation Db := fun db db' => P db -> P db'.

(** The columns of a row that no handler assigns after the insert. *)
Definition user_identity (u : User.t) : Z * string * string * string :=
  (User.id u, User.name u, User.email u, User.role u).

Definition store_identity (s : Store.t) : Z * string * string * string * Z :=
  (Store.id s, Store.name s, Store.email s, Store.address s, Store.ownerId s).

Definition rating_identity (r : Rating.t) : Z * Z * Z :=
  (Rating.id r, Rating.userId r, Rating.storeId r).

(** Every table of [db'] has the rows of [db], with their identities. *)
Definition grows (db db' : Db) : Prop :=
  map user_identity (users db) ⊆+ map user_identity (users db')
  /\ map store_identity (stores db) ⊆+ map store_identity (stores db')
  /\ map rating_identity (ratings db) ⊆+ map rating_identity (ratings db').

(** Two databases with the same rows in every table. *)
Definition same_tables (db db' : Db) : Prop :=
  users db' = users db /\ stores db' = stores db /\ ratings db' = ratings db.

(** The sum of the [totalRatings] columns. *)
Definition sum_totals (l : list Store.t) : Z :=
  foldr Z.add 0 (map (fun s => default 0 (Store.totalRatings s)) l).

End Constraints.

(** ** The vocabulary of the statements about searching *)

Module Searching.

(** The characters that [LIKE] does not take literally. *)
Definition wildcards : list ascii := ["%"; "_"; "\"]%char.

(** A query without wildcard. *)
Definition literal (q : string) : Prop :=
  Forall (fun c => c ∉ wildcards) (list_ascii_of_string q).

(** [q] occurs in [s]. *)
Definition occurs (q s : string) : Prop := exists a b, s = a +:+ q +:+ b.

End Searching.

(** ** The vocabulary of the statements about listings *)

Module Listing.

Import Storage Routes Properties.

(** The [user] that [GET /api/ratings/store/:storeId] attaches to a rating. *)
Definition rater (db : Db) (r : Rating.t) : json :=
  match head (filter (fun u => User.id u = Rating.userId r) (users db)) with
  | Some u => JObj (list_to_map [ ("name", JStr (User.name u));
                                  ("email", JStr (User.email u)) ])
  | None => JNull
  end.

(** Ratings from the latest to the earliest. *)
Definition latest_first (l : list Rating.t) : Prop :=
  Sorted (fun a b => by_createdAt_desc a b = true) l.

(** The [userRating] that [GET /api/stores] attaches to a store for the
    user of the session. *)
Definition own_rating (uid : Z) (db : Db) (s : Store.t) : json :=
  userRating_json (head (rows_of uid (Store.id s) db)).

End Listing.

(** ** The client: client/src/lib/validation.ts and
    client/src/components/star-rating.tsx *)

Module Client.

(** [registerSchema], the schema of the registration form. *)
Definition registerSchema `{Externals} (v : json) : parsed InsertUser.t :=
  match not_object v with
  | Some m => inl [m]
  | None =>
      let name := zString [ minLen 20 "Name must be at least 20 characters";
                            maxLen 60 "Name must not exceed 60 characters" ]
                          (field "name" v) in
      let email := zString [ email_ "Invalid email format" ] (field "email" v) in
      let password := passwordString (field "password" v) in
      let address := zOptional (zString [ maxLen 400 "Address must not exceed 400 characters" ])
                               (field "address" v) in
      let role := zDefault (zEnum ["user"; "store_owner"]) "user" (field "role" v) in
      match name, email, password, address, role with
      | inr n, inr e, inr p, inr a, inr r => inr (InsertUser.mk n e p a r)
      | _, _, _, _, _ =>
          inl (issues name ++ issues email ++ issues password ++ issues address ++ issues role)
      end
  end.

(** [star <= rating] on JavaScript numbers: false against NaN. *)
Definition le_number (star : Z) (rating : number) : bool :=
  match rating with
  | Num q => bool_decide (num star <= q)%Qc
  | NaN => false
  end.

(** [StarRating]: for each of the stars 1 to 5, whether it is drawn
    filled. *)
Definition StarRating (rating : number) : list bool :=
  map (fun star => le_number star rating) [1; 2; 3; 4; 5].

End Client.

(** ** More sample data *)

Module Cases.

Import Storage Routes Samples.

(** The third user of [db0]. *)
Definition alice : User.t :=
  User.mk 3 "Alice The First Customer" "alice@x.org" "$2a$10$saltSecret!1x"
          None "user" (Some 1000) (Some 1000).

Definition credentials (email password : string) : json :=
  obj [ ("email", JStr email); ("password", JStr password) ].

Definition passwords (current new : string) : json :=
  obj [ ("currentPassword", JStr current); ("newPassword", JStr new) ].

Definition store (email : string) (ownerId : Z) : json :=
  obj [ ("name", JStr "T"); ("email", JStr email);
        ("address", JStr "2 Main St"); ("ownerId", JNum ownerId) ].

(** An e-mail of 256 characters. *)
Definition long_email : string :=
  "a@" +:+ string_of_list_ascii (replicate 254 "x"%char).

End Cases.

(** * Proofs *)

Import Storage Routes Properties.

(** ** Numbers *)

Lemma num_this (z : Z) : this (num z) = inject_Z z.
Proof.
  unfold num, Q2Qc, inject_Z; simpl.
  apply Qred_identity. simpl. apply Z.gcd_1_r.
Qed.

Lemma isInteger_num (z : Z) : isInteger (num z) = true.
Proof. unfold isInteger. rewrite num_this. reflexivity. Qed.

Lemma Qnum_num (z : Z) : Qnum (num z) = z.
Proof. rewrite num_this. reflexivity. Qed.

Lemma integer_is_num (q : Qc) : isInteger q = true -> q = num (Qnum q).
Proof.
  unfold isInteger. intros E. apply Pos.eqb_eq in E.
  apply Qc_is_canon. rewrite num_this.
  destruct q as [[n d] c]; simpl in *. subst d. reflexivity.
Qed.

Lemma int4_inr (n : number) (z : Z) :
  int4 n = inr z -> n = Num (num z) /\ -2147483648 <= z <= 2147483647.
Proof.
  unfold int4. destruct n as [q|]; [|discriminate].
  destruct (isInteger q) eqn:E; [|discriminate].
  destruct (_ && _) eqn:R; [|discriminate].
  intros [= <-]. split; [f_equal; by apply integer_is_num | lia].
Qed.

Lemma int4_num (z : Z) :
  -2147483648 <= z <= 2147483647 -> int4 (Num (num z)) = inr z.
Proof.
  intros R. unfold int4. rewrite isInteger_num, Qnum_num.
  destruct (_ && _) eqn:E; [reflexivity | lia].
Qed.

Lemma num_le (a b : Z) : (num a <= num b)%Qc <-> a <= b.
Proof.
  unfold Qcle. rewrite !num_this. unfold Qle, inject_Z; simpl. lia.
Qed.

Lemma num_inj (a b : Z) : num a = num b -> a = b.
Proof. intros E. apply (f_equal (fun q => Qnum (this q))) in E. by rewrite !Qnum_num in E. Qed.

(** ** What a schema that accepts tells *)

Lemma refine_inr {A} (cs : list (check A)) (x y : A) :
  refine cs x = inr y -> y = x /\ failed cs x = [].
Proof. unfold refine. destruct (failed cs x); [intros [= <-]; done | discriminate]. Qed.

Lemma failed_cons {A} (c : check A) cs (x : A) :
  failed (c :: cs) x = [] -> c.1 x = true /\ failed cs x = [].
Proof.
  unfold failed; simpl. destruct (c.1 x); simpl; [done | discriminate].
Qed.

Lemma zNumber_inr cs v q : zNumber cs v = inr q -> v = Some (JNum q) /\ failed cs q = [].
Proof.
  unfold zNumber. destruct v as [[]|]; try discriminate.
  intros E. apply refine_inr in E as [-> E]. done.
Qed.

Lemma zString_inr cs v s : zString cs v = inr s -> v = Some (JStr s) /\ failed cs s = [].
Proof.
  unfold zString. destruct v as [[]|]; try discriminate.
  intros E. apply refine_inr in E as [-> E]. done.
Qed.

Lemma integerColumn_inr v q :
  integerColumn v = inr q ->
  exists z, v = Some (JNum (num z)) /\ q = num z /\ int4 (Num q) = inr z.
Proof.
  unfold integerColumn. intros E. apply zNumber_inr in E as [-> E].
  apply failed_cons in E as [Hmin E]. apply failed_cons in E as [Hmax E].
  apply failed_cons in E as [Hint _].
  unfold minNum, maxNum, int_ in *; cbn [fst] in *.
  apply bool_decide_eq_true in Hmin, Hmax.
  pose proof (integer_is_num q Hint) as Eq.
  remember (Qnum q) as z eqn:Hz. clear Hz Hint. subst q.
  exists z. split; [done|]. split; [done|].
  apply int4_num. split; by apply num_le.
Qed.

Lemma insertRatingSchema_inr (v : json) (data : InsertRating.t) :
  insertRatingSchema v = inr data ->
  integerColumn (field "userId" v) = inr (InsertRating.userId data) /\
  integerColumn (field "storeId" v) = inr (InsertRating.storeId data) /\
  zNumber [ minNum 1 "Rating must be at least 1"; maxNum 5 "Rating must not exceed 5" ]
          (field "rating" v) = inr (InsertRating.rating data) /\
  zOptional (zString [ maxLen 1000 "Review must not exceed 1000 characters" ])
            (field "review" v) = inr (InsertRating.review data).
Proof.
  unfold insertRatingSchema. destruct (not_object v); [discriminate|].
  destruct (integerColumn (field "userId" v)), (integerColumn (field "storeId" v)),
    (zNumber _ (field "rating" v)), (zOptional _ (field "review" v)); try discriminate.
  intros [= <-]. done.
Qed.

Lemma rating_value_range (q : Qc) (v : Z) :
  failed [ minNum 1 "Rating must be at least 1"; maxNum 5 "Rating must not exceed 5" ] q = [] ->
  int4 (Num q) = inr v -> q = num v /\ 1 <= v <= 5.
Proof.
  intros E Hv. apply int4_inr in Hv as [[= ->] _].
  apply failed_cons in E as [Hmin E]. apply failed_cons in E as [Hmax _].
  unfold minNum, maxNum in *; cbn [fst] in *.
  apply bool_decide_eq_true in Hmin, Hmax.
  split; [done|]. split; by apply num_le.
Qed.

Ltac mrun :=
  cbv beta iota zeta delta
    [bind lift query statement ret throw parse try_catch try_catch_all].

(** ** The statements of storage.ts and the rating handler *)

Section RatingHandler.
Context `{Externals}.

Lemma updateStoreRating_unfold (storeId : number) (db : Db) :
updateStoreRating storeId db =
match int4 storeId with
| inl e => (inl e, db)
| inr sid =>
    match aggregate sid db with
    | inl e => (inl e, db)
    | inr (a, t) => (inr tt, update_aggregate sid a t db)
    end
end.
Proof.
unfold updateStoreRating, aggregate. mrun.
destruct (int4 storeId) as [e|sid]; [reflexivity|].
destruct (avg _) as [q|]; [|reflexivity].
destruct (decimal_3_2 _); reflexivity.
Qed.

Lemma insert_rating_inr env uid sid v review db row db1 :
insert_rating env uid sid v review db = inr (row, db1) ->
uid ∈ map User.id (users db) /\ sid ∈ map Store.id (stores db) /\
((uid, sid) ∉ map key (ratings db)) /\
row = Rating.mk (ratings_id_seq db) uid sid v review (Some (now env)) (Some (now env)) /\
db1 = mkDb (users db) (stores db) (ratings db ++ [row])
           (users_id_seq db) (stores_id_seq db) (ratings_id_seq db + 1).
Proof.
unfold insert_rating.
case_bool_decide as Hk; [discriminate|].
case_bool_decide as Hu; [|discriminate].
case_bool_decide as Hs; [|discriminate].
cbn. intros [= <- <-]. done.
Qed.

Lemma update_rating_same uid sid v review db r rest :
rows_of uid sid db = r :: rest ->
update_rating uid sid uid sid v review db =
inr (Some (set_rating uid sid uid sid v review r),
     mkDb (users db) (stores db)
          (map (set_rating uid sid uid sid v review) (ratings db))
          (users_id_seq db) (stores_id_seq db) (ratings_id_seq db)).
Proof.
unfold rows_of, update_rating. intros E. rewrite E.
rewrite bool_decide_eq_false_2 by discriminate.
rewrite !(bool_decide_eq_true_2 (_ = _)) by reflexivity.
reflexivity.
Qed.

Lemma aggregate_inl sid db e :
aggregate sid db = inl e -> e = DbError "numeric field overflow".
Proof.
unfold aggregate. destruct (avg _) as [q|]; [|discriminate].
unfold decimal_3_2. destruct (1000 <=? hundredths _); [|discriminate].
by intros [= <-].
Qed.

Ltac refuse :=
try match goal with
    | |- context [match ?e with ZodError _ => _ | DbError _ => _ end] =>
        destruct e as [[|? ?]|?]
    end;
apply rating_refused; done.

Lemma postRatings_cases body env session db :
rating_outcome body env session db (postRatings body env session db).
Proof.
unfold postRatings, requireAuth.
destruct (userId session) as [uid|] eqn:Hs; [|refuse].
destruct (uid =? 0) eqn:Hz; [refuse|].
unfold session_userId. rewrite Hs. cbn [default from_option id]. mrun.
destruct (insertRatingSchema _) as [errors|data] eqn:Hp.
{ destruct errors; refuse. }
pose proof (insertRatingSchema_inr _ _ Hp) as (Hu & Hst & Hr & Hw).
cbn [field] in Hu, Hst, Hr, Hw.
rewrite lookup_insert_eq in Hu. rewrite lookup_insert_ne in Hst, Hr by done.
apply integerColumn_inr in Hu as (u' & Eu & Hud & Hu4).
assert (u' = uid) as -> by (apply num_inj; congruence). clear Eu.
apply integerColumn_inr in Hst as (sid & Hb & Hsd & Hs4).
apply zNumber_inr in Hr as [Hrb Hrc].
unfold getRatingByUserAndStore. mrun.
rewrite Hud in Hu4. rewrite Hu4, Hs4.
fold (rows_of uid sid db).
destruct (rows_of uid sid db) as [|r rest] eqn:Hrows; cbn [head].
- unfold createRating. mrun. rewrite Hud, Hu4, Hs4.
  destruct (int4 (Num (InsertRating.rating data))) as [e|v] eqn:Hv;
    [refuse|].
  destruct (rating_value_range _ _ Hrc Hv) as [Hvd Hvr].
  destruct (insert_rating env uid sid v (InsertRating.review data) db)
    as [e|[row db1]] eqn:Hi; [refuse|].
  apply insert_rating_inr in Hi as (Huin & Hsin & _ & -> & ->).
  eapply rating_created; [constructor; done| done..|].
  rewrite updateStoreRating_unfold, Hs4.
  destruct (aggregate sid _) as [e|[a t]] eqn:Ha.
  + rewrite (aggregate_inl _ _ _ Ha) in *. by eapply recomputed_stale.
  + by apply recomputed_fresh.
- unfold updateRating. mrun. rewrite Hud, Hu4, Hs4.
  destruct (int4 (Num (InsertRating.rating data))) as [e|v] eqn:Hv;
    [refuse|].
  destruct (rating_value_range _ _ Hrc Hv) as [Hvd Hvr].
  rewrite (update_rating_same _ _ _ _ _ _ _ Hrows).
  eapply rating_updated; [constructor; done| done |].
  rewrite updateStoreRating_unfold, Hs4.
  destruct (aggregate sid _) as [e|[a t]] eqn:Ha.
  + rewrite (aggregate_inl _ _ _ Ha) in *. by eapply recomputed_stale.
  + by apply recomputed_fresh.
Qed.
End RatingHandler.

(** ** The aggregate of ratings between 1 and 5 *)

Lemma or_zero (x : Z) : or_ x 0 = x.
Proof. unfold or_. destruct (Z.eqb_spec x 0); congruence. Qed.

Lemma sum_in_range (rows : list Rating.t) :
  Forall in_range rows ->
  let values := map Rating.rating rows in
  Z.of_nat (length values) <= foldr Z.add 0 values <= 5 * Z.of_nat (length values).
Proof.
  induction 1 as [|r rows Hr _ IH]; cbn [fmap list_fmap foldr length] in *; [lia|].
  unfold in_range in Hr. lia.
Qed.

Lemma round_half_even_bounds (a b n d : Z) :
  0 < d -> a * d <= n <= b * d -> a <= round_half_even n d <= b.
Proof.
  intros Hd [Ha Hb]. unfold round_half_even.
  pose proof (Z.div_mod n d ltac:(lia)) as Hn.
  pose proof (Z.mod_pos_bound n d Hd) as Hr.
  assert (a <= n / d) by (apply Z.div_le_lower_bound; lia).
  assert (n / d <= b) by (apply Z.div_le_upper_bound; lia).
  assert (n / d = b -> n mod d = 0) by nia.
  destruct (Z.ltb_spec (2 * (n mod d)) d); [lia|].
  assert (n / d < b) by lia.
  destruct (Z.ltb_spec d (2 * (n mod d))); [lia|].
  destruct (Z.even (n / d)); lia.
Qed.

(** A number between 1 and 5 stays there when it is rounded to binary64. *)
Lemma parseFloat_in_range (q : Q) :
  Zpos (Qden q) <= Qnum q <= 5 * Zpos (Qden q) ->
  Zpos (Qden (parseFloat q)) <= Qnum (parseFloat q) <= 5 * Zpos (Qden (parseFloat q)).
Proof.
  destruct q as [n d]. cbn [Qnum Qden]. intros Hq. unfold parseFloat. cbn [Qnum Qden].
  assert (0 < n) as Hn by lia. rewrite Z.abs_eq by lia.
  destruct (Z.eqb_spec n 0); [lia|].
  set (e0 := Z.log2 n - Z.log2 (Zpos d)).
  assert (0 <= e0 <= 3) as He0.
  { unfold e0. split.
    - pose proof (Z.log2_le_mono (Zpos d) n). lia.
    - pose proof (Z.log2_le_mono n (Zpos d * 2 ^ 3) ltac:(lia)) as Hle.
      rewrite Z.log2_mul_pow2 in Hle by lia. lia. }
  set (e := if _ <? _ then e0 - 1 else e0).
  assert (-1 <= e <= 3) as He by (unfold e; destruct (_ <? _); lia).
  set (s := 52 - e). assert (0 < s) as Hs by (unfold s; lia).
  rewrite (Z.max_r 0 s), (Z.max_l 0 (- s)) by lia.
  rewrite Z.sgn_pos by lia. cbn [Qnum Qden]. rewrite Z.pow_0_r, !Z.mul_1_r, Z.mul_1_l.
  assert (0 < 2 ^ s) as Hp by (apply Z.pow_pos_nonneg; lia).
  rewrite Z2Pos.id by done.
  pose proof (round_half_even_bounds (2 ^ s) (5 * 2 ^ s) (n * 2 ^ s) (Zpos d)
                ltac:(lia) ltac:(nia)).
  lia.
Qed.

Lemma decimal_3_2_in_range (q : Q) :
  Zpos (Qden q) <= Qnum q <= 5 * Zpos (Qden q) ->
  decimal_3_2 q = inr (toFixed2 q).
Proof.
  destruct q as [n d]. cbn [Qnum Qden]. intros Hq.
  unfold decimal_3_2, hundredths. cbn [Qnum Qden].
  rewrite Z.abs_eq by lia.
  assert (100 <= (2 * 100 * n + Zpos d) / (2 * Zpos d) < 1000) as [Hlo Hhi].
  { split.
    - apply Z.div_le_lower_bound; lia.
    - apply Z.div_lt_upper_bound; lia. }
  destruct (Z.leb_spec 1000 ((2 * 100 * n + Zpos d) / (2 * Zpos d))); [lia|].
  destruct (Z.eqb_spec ((2 * 100 * n + Zpos d) / (2 * Zpos d)) 0); [lia|]. reflexivity.
Qed.

Lemma aggregate_in_range (sid : Z) (db : Db) :
  Forall in_range (ratings db) ->
  aggregate sid db
  = inr (mean_2dp (map Rating.rating (ratings_of sid db)), count (ratings_of sid db)).
Proof.
  intros Hr. unfold aggregate. rewrite or_zero.
  assert (Forall in_range (ratings_of sid db)) as Hrows.
  { rewrite Forall_forall in Hr |- *. intros x [_ Hx]%list_elem_of_filter. auto. }
  pose proof (sum_in_range _ Hrows) as Hsum. cbn zeta in Hsum.
  destruct (ratings_of sid db) as [|r rows] eqn:E; [reflexivity|].
  unfold avg, mean_2dp, mean.
  remember (map Rating.rating (r :: rows)) as values eqn:Hv.
  destruct values as [|v values]; [discriminate|].
  rewrite decimal_3_2_in_range; [reflexivity|].
  apply parseFloat_in_range. cbn [Qnum Qden].
  assert (Zpos (Pos.of_nat (length (v :: values))) = Z.of_nat (length (v :: values)))
    as -> by (cbn [length]; lia).
  done.
Qed.

(** ** Computations and the relation they move the database along *)

Section Keeps.
Context {R : relation Db} `{!Reflexive R, !Transitive R}.

Lemma keeps_ret {A} (x : A) : keeps R (ret x).
Proof. intros db. reflexivity. Qed.

Lemma keeps_throw {A} (e : exn) : keeps R (throw (A := A) e).
Proof. intros db. reflexivity. Qed.

Lemma keeps_lift {A} (r : exn + A) : keeps R (lift r).
Proof. intros db. reflexivity. Qed.

Lemma keeps_query {A} (f : Db -> A) : keeps R (query f).
Proof. intros db. reflexivity. Qed.

Lemma keeps_parse {A} (r : parsed A) : keeps R (parse r).
Proof. destruct r; [apply keeps_throw | apply keeps_ret]. Qed.

Lemma keeps_bind {A B} (m : M A) (k : A -> M B) :
  keeps R m -> (forall x, keeps R (k x)) -> keeps R (bind m k).
Proof.
  intros Hm Hk db. unfold bind. specialize (Hm db).
  destruct (m db) as [[e|x] db1]; [exact Hm|].
  etransitivity; [exact Hm | apply Hk].
Qed.

Lemma keeps_statement {A} (f : Db -> exn + (A * Db)) :
  (forall db x db', f db = inr (x, db') -> R db db') -> keeps R (statement f).
Proof.
  intros Hf db. unfold statement.
  destruct (f db) as [e|[x db']] eqn:E; [reflexivity | by eapply Hf].
Qed.

Lemma keeps_mapM {A B} (f : A -> M B) (l : list A) :
  (forall x, keeps R (f x)) -> keeps R (mapM f l).
Proof.
  intros Hf. induction l as [|x l IH]; cbn [mapM]; [apply keeps_ret|].
  apply keeps_bind; [apply Hf|]. intros y.
  apply keeps_bind; [apply IH|]. intros ys. apply keeps_ret.
Qed.

Lemma try_catch_keeps failure session body db :
  keeps R body -> R db (database (try_catch failure session body db)).
Proof.
  intros Hb. specialize (Hb db). unfold try_catch.
  destruct (body db) as [[e|[res s]] db']; [|exact Hb].
  destruct e as [[|? ?]|?]; exact Hb.
Qed.

Lemma try_catch_all_keeps failure session body db :
  keeps R body -> R db (database (try_catch_all failure session body db)).
Proof.
  intros Hb. specialize (Hb db). unfold try_catch_all.
  destruct (body db) as [[e|[res s]] db']; exact Hb.
Qed.

Lemma requireAuth_keeps next session db :
  (forall s d, R d (database (next s d))) ->
  R db (database (requireAuth next session db)).
Proof.
  intros Hn. unfold requireAuth.
  destruct (userId session) as [id|]; [|reflexivity].
  destruct (id =? 0); [reflexivity | apply Hn].
Qed.

Lemma requireAdmin_keeps next session db :
  (forall s d, R d (database (next s d))) ->
  R db (database (requireAdmin next session db)).
Proof.
  intros Hn. unfold requireAdmin.
  destruct (is_admin session); [apply Hn | reflexivity].
Qed.
End Keeps.

Ltac keeps_step :=
  first
    [ apply keeps_ret | apply keeps_throw | apply keeps_lift | apply keeps_query
    | apply keeps_parse
    | apply keeps_mapM; intros
    | apply keeps_bind; [|intros]
    | match goal with
      | |- keeps _ (match ?x with _ => _ end) => destruct x
      | |- keeps _ (if ?b then _ else _) => destruct b
      end ].

Lemma same_catalog_refl : Reflexive same_catalog.
Proof. by intros db. Qed.

Lemma same_catalog_trans : Transitive same_catalog.
Proof. intros a b c (?&?&?) (?&?&?). unfold same_catalog. split_and!; congruence. Qed.

#[local] Existing Instance same_catalog_refl.
#[local] Existing Instance same_catalog_trans.

Section StorageKeeps.
Context `{Externals}.
Context {R : relation Db} `{!Reflexive R, !Transitive R}.

Lemma getUser_keeps id : keeps R (getUser id).
Proof. unfold getUser. repeat keeps_step. Qed.

Lemma getUserByEmail_keeps email : keeps R (getUserByEmail email).
Proof. unfold getUserByEmail. repeat keeps_step. Qed.

Lemma getAllUsers_keeps : keeps R getAllUsers.
Proof. unfold getAllUsers. repeat keeps_step. Qed.

Lemma getAllStores_keeps : keeps R getAllStores.
Proof. unfold getAllStores. repeat keeps_step. Qed.

Lemma searchStores_keeps q : keeps R (searchStores q).
Proof. unfold searchStores. repeat keeps_step. Qed.

Lemma getStoresByOwner_keeps id : keeps R (getStoresByOwner id).
Proof. unfold getStoresByOwner. repeat keeps_step. Qed.

Lemma getRatingByUserAndStore_keeps u s : keeps R (getRatingByUserAndStore u s).
Proof. unfold getRatingByUserAndStore. repeat keeps_step. Qed.

Lemma getRatingsByStore_keeps s : keeps R (getRatingsByStore s).
Proof. unfold getRatingsByStore. repeat keeps_step. Qed.

Lemma getStatistics_keeps : keeps R getStatistics.
Proof. unfold getStatistics. repeat keeps_step. Qed.
End StorageKeeps.

Section UserKeeps.
Context `{Externals}.

Lemma createUser_keeps env data : keeps same_catalog (createUser env data).
Proof.
  unfold createUser. repeat keeps_step.
  apply keeps_statement. intros db u db'. unfold insert_user.
  case_bool_decide; [discriminate|]. by intros [= <- <-].
Qed.

Lemma updateUserPassword_keeps id hash : keeps same_catalog (updateUserPassword id hash).
Proof.
  unfold updateUserPassword. repeat keeps_step.
  apply keeps_statement. intros db u db'. by intros [= <- <-].
Qed.
End UserKeeps.

(** ** The invariant of the data model *)

Lemma consistent_empty : consistent Pg.empty.
Proof. split; cbn; constructor. Qed.

Lemma materialized_ratings (db db' : Db) (s : Store.t) :
  ratings_of (Store.id s) db' = ratings_of (Store.id s) db ->
  materialized db s -> materialized db' s.
Proof. unfold materialized. by intros ->. Qed.

Lemma consistent_catalog (db db' : Db) :
  same_catalog db db' -> consistent db -> consistent db'.
Proof.
  intros (Hs & Hr & Hq) [H1 H2 H3 H4 H5].
  split; rewrite ?Hs, ?Hr, ?Hq; try done.
  eapply Forall_impl; [exact H5|]. intros s. apply materialized_ratings.
  unfold ratings_of. by rewrite Hr.
Qed.

Lemma set_aggregate_id sid a t s : Store.id (set_aggregate sid a t s) = Store.id s.
Proof. unfold set_aggregate. by case_bool_decide. Qed.

Lemma set_aggregate_ids sid a t (l : list Store.t) :
  Store.id <$> (set_aggregate sid a t <$> l) = Store.id <$> l.
Proof.
  rewrite <- list_fmap_compose. apply list_fmap_ext. intros _ s _. apply set_aggregate_id.
Qed.

(** Recomputing the aggregate of the one store whose ratings changed
    restores the invariant. *)
Lemma recompute_restores (sid : Z) (a : string) (t : Z) (db : Db) :
  Forall in_range (ratings db) ->
  NoDup (key <$> ratings db) ->
  Forall (fun r => Rating.storeId r ∈ Store.id <$> stores db) (ratings db) ->
  Forall (fun s => Store.id s < stores_id_seq db) (stores db) ->
  Forall (fun s => Store.id s <> sid -> materialized db s) (stores db) ->
  aggregate sid db = inr (a, t) ->
  consistent (update_aggregate sid a t db).
Proof.
  intros H1 H2 H3 H4 H5 Ha.
  rewrite (aggregate_in_range _ _ H1) in Ha. injection Ha as <- <-.
  split; cbn [update_aggregate users stores ratings stores_id_seq]; try done.
  - by rewrite set_aggregate_ids.
  - rewrite Forall_fmap. eapply Forall_impl; [exact H4|].
    intros s. cbn. by rewrite set_aggregate_id.
  - rewrite Forall_fmap. eapply Forall_impl; [exact H5|].
    intros s Hs. cbn. unfold set_aggregate.
    case_bool_decide as E; [|by apply Hs]. subst sid. by split.
Qed.

Lemma set_rating_key uid sid v w r : key (set_rating uid sid uid sid v w r) = key r.
Proof. unfold set_rating. by case_bool_decide. Qed.

Lemma set_rating_keys uid sid v w (l : list Rating.t) :
  key <$> (set_rating uid sid uid sid v w <$> l) = key <$> l.
Proof.
  rewrite <- list_fmap_compose. apply list_fmap_ext. intros _ r _. apply set_rating_key.
Qed.

Lemma set_rating_storeId uid sid v w r :
  Rating.storeId (set_rating uid sid uid sid v w r) = Rating.storeId r.
Proof. pose proof (set_rating_key uid sid v w r) as E. unfold key in E. congruence. Qed.

Lemma set_rating_other uid sid v w r :
  Rating.storeId r <> sid -> set_rating uid sid uid sid v w r = r.
Proof.
  intros Hs. unfold set_rating. case_bool_decide as E; [|done].
  unfold key in E. congruence.
Qed.

Lemma filter_set_rating_other uid sid v w t (l : list Rating.t) :
  t <> sid ->
  filter (fun r => Rating.storeId r = t) (set_rating uid sid uid sid v w <$> l)
  = filter (fun r => Rating.storeId r = t) l.
Proof.
  intros Ht. induction l as [|r l IH]; [done|]. cbn [fmap list_fmap].
  rewrite !filter_cons, set_rating_storeId, IH.
  case_decide as E; [|done]. rewrite set_rating_other; [done | congruence].
Qed.

Lemma rows_of_nil_key uid sid db :
  rows_of uid sid db = [] -> (uid, sid) ∉ key <$> ratings db.
Proof.
  unfold rows_of. intros E (r & Hk & Hr)%list_elem_of_fmap.
  eapply filter_nil_not_elem_of; [exact E | symmetry; exact Hk | exact Hr].
Qed.

Section Preservation.
Context `{Externals}.

Lemma recomputed_consistent sid row session db o :
  Forall in_range (ratings db) ->
  NoDup (key <$> ratings db) ->
  Forall (fun r => Rating.storeId r ∈ Store.id <$> stores db) (ratings db) ->
  Forall (fun s => Store.id s < stores_id_seq db) (stores db) ->
  Forall (fun s => Store.id s <> sid -> materialized db s) (stores db) ->
  recomputed sid row session db o ->
  consistent (database o) /\ status (response o) = 200.
Proof.
  intros H1 H2 H3 H4 H5 [a t Ha|e Ha]; cbn [database response status json_].
  - split; [by apply recompute_restores | done].
  - by rewrite (aggregate_in_range _ _ H1) in Ha.
Qed.

Lemma postRatings_consistent body env session db :
  consistent db -> consistent (database (postRatings body env session db)).
Proof.
  intros Hc. pose proof Hc as [H1 H2 H3 H4 H5].
  destruct (postRatings_cases body env session db)
    as [res _|uid data sid v o Hacc Hrows Hu Hs row Hrec
       |uid data sid v r rest o Hacc Hrows set Hrec]; [done|..].
  - eapply recomputed_consistent in Hrec as [Hrec _]; [exact Hrec|..];
      cbn [users stores ratings stores_id_seq]; try done.
    + apply Forall_app. split; [done|]. constructor; [|done].
      destruct Hacc. by unfold in_range.
    + rewrite fmap_app. apply NoDup_app. split_and!; [done| |apply NoDup_singleton].
      intros k Hk ->%list_elem_of_singleton. by apply rows_of_nil_key in Hrows.
    + apply Forall_app. split; [done|]. by constructor.
    + eapply Forall_impl; [exact H5|]. intros s Hm Hne.
      eapply materialized_ratings; [|exact Hm].
      unfold ratings_of. cbn [ratings]. rewrite filter_app, filter_cons_False, filter_nil.
      * by rewrite app_nil_r.
      * cbn. congruence.
  - eapply recomputed_consistent in Hrec as [Hrec _]; [exact Hrec|..];
      cbn [users stores ratings stores_id_seq]; try done.
    + rewrite Forall_fmap. eapply Forall_impl; [exact H1|].
      intros x Hx. cbn. unfold set, set_rating. case_bool_decide; [|done].
      destruct Hacc. by unfold in_range.
    + unfold set. by rewrite set_rating_keys.
    + rewrite Forall_fmap. eapply Forall_impl; [exact H3|].
      intros x Hx. cbn. unfold set. by rewrite set_rating_storeId.
    + eapply Forall_impl; [exact H5|]. intros s Hm Hne.
      eapply materialized_ratings; [|exact Hm].
      unfold ratings_of. cbn [ratings]. unfold set. by apply filter_set_rating_other.
Qed.
End Preservation.

Ltac storage_keeps :=
  first
    [ apply getUser_keeps | apply getUserByEmail_keeps | apply getAllUsers_keeps
    | apply getAllStores_keeps | apply searchStores_keeps | apply getStoresByOwner_keeps
    | apply getRatingByUserAndStore_keeps | apply getRatingsByStore_keeps
    | apply getStatistics_keeps | apply createUser_keeps | apply updateUserPassword_keeps ].

Ltac handler_keeps :=
  repeat first
    [ apply requireAuth_keeps; intros
    | apply requireAdmin_keeps; intros
    | apply try_catch_keeps
    | apply try_catch_all_keeps
    | storage_keeps
    | keeps_step ].

Section Steps.
Context `{Externals}.

Lemma register_catalog body env session db :
  same_catalog db (database (register body env session db)).
Proof. unfold register. handler_keeps. Qed.

Lemma login_catalog body session db :
  same_catalog db (database (login body session db)).
Proof. unfold login. handler_keeps. Qed.

Lemma logout_catalog destroyed session db :
  same_catalog db (database (logout destroyed session db)).
Proof. unfold logout. by destruct destroyed. Qed.

Lemma me_catalog session db : same_catalog db (database (me session db)).
Proof. unfold me. handler_keeps. Qed.

Lemma changePassword_catalog body env session db :
  same_catalog db (database (changePassword body env session db)).
Proof. unfold changePassword. handler_keeps. Qed.

Lemma getStores_catalog query session db :
  same_catalog db (database (getStores query session db)).
Proof. unfold getStores. handler_keeps. Qed.

Lemma getStoresOwner_catalog ownerId session db :
  same_catalog db (database (getStoresOwner ownerId session db)).
Proof. unfold getStoresOwner. handler_keeps. Qed.

Lemma getRatingsStore_catalog storeId session db :
  same_catalog db (database (getRatingsStore storeId session db)).
Proof. unfold getRatingsStore. handler_keeps. Qed.

Lemma getUsers_catalog session db : same_catalog db (database (getUsers session db)).
Proof. unfold getUsers. handler_keeps. Qed.

Lemma postUsers_catalog body env session db :
  same_catalog db (database (postUsers body env session db)).
Proof. unfold postUsers. handler_keeps. Qed.

Lemma getStatistics_catalog session db :
  same_catalog db (database (getStatistics_ session db)).
Proof. unfold getStatistics_. handler_keeps. Qed.

(** [POST /api/stores] leaves the database alone or appends one store
    with the default aggregate and the next id. *)
Lemma postStores_database body env session db :
  database (postStores body env session db) = db \/
  exists name email address ownerId,
    database (postStores body env session db)
    = mkDb (users db)
           (stores db ++ [Store.mk (stores_id_seq db) name email address ownerId
                                   (Some "0.00") (Some 0)
                                   (Some (now env)) (Some (now env))])
           (ratings db)
           (users_id_seq db) (stores_id_seq db + 1) (ratings_id_seq db).
Proof.
  unfold postStores, requireAdmin.
  destruct (is_admin session); [|by left].
  unfold createStore. mrun.
  destruct (insertStoreSchema body) as [[|? ?]|data]; [by left..|].
  destruct (varchar 255 (InsertStore.name data)) as [[[|? ?]|?]|name]; [by left..|].
  destruct (varchar 255 (InsertStore.email data)) as [[[|? ?]|?]|email]; [by left..|].
  destruct (int4 (Num (InsertStore.ownerId data))) as [[[|? ?]|?]|ownerId]; [by left..|].
  unfold insert_store.
  case_bool_decide; [by left|]. case_bool_decide; [|by left].
  right. by eexists _, _, _, _.
Qed.

Lemma postStores_consistent body env session db :
  consistent db -> consistent (database (postStores body env session db)).
Proof.
  intros Hc.
  destruct (postStores_database body env session db)
    as [->|(name & email & address & ownerId & ->)]; [done|].
  destruct Hc as [H1 H2 H3 H4 H5].
  assert (ratings_of (stores_id_seq db) db = []) as Hnone.
  { unfold ratings_of. destruct (filter _ _) as [|r l] eqn:E; [done|].
    assert (r ∈ filter (fun r => Rating.storeId r = stores_id_seq db) (ratings db))
      as [Hr Hin]%list_elem_of_filter by (rewrite E; left).
    rewrite Forall_forall in H3. apply H3 in Hin as (s & Hs & Hin)%list_elem_of_fmap.
    rewrite Forall_forall in H4. apply H4 in Hin. cbn in Hr. lia. }
  split; cbn [users stores ratings stores_id_seq]; try done.
  - eapply Forall_impl; [exact H3|]. intros r Hr. cbn.
    rewrite fmap_app. apply elem_of_app. by left.
  - apply Forall_app. split.
    + eapply Forall_impl; [exact H4|]. intros s Hs. cbn in *. lia.
    + constructor; [cbn; lia | done].
  - apply Forall_app. split; [done|]. constructor; [|done].
    unfold materialized. cbn [Store.id Store.averageRating Store.totalRatings].
    unfold ratings_of in *. cbn [ratings]. by rewrite Hnone.
Qed.

(** Every request keeps the invariant. *)
Lemma serve_consistent (e : Event) (db : Db) :
  consistent db -> consistent (database (serve e db)).
Proof.
  intros Hc. unfold serve, handle.
  destruct (request e);
    first [ by apply postRatings_consistent
          | by apply postStores_consistent
          | eapply consistent_catalog; [|exact Hc] ].
  - apply register_catalog.
  - apply login_catalog.
  - apply logout_catalog.
  - apply me_catalog.
  - apply changePassword_catalog.
  - apply getStores_catalog.
  - apply getStoresOwner_catalog.
  - apply getRatingsStore_catalog.
  - apply getUsers_catalog.
  - apply postUsers_catalog.
  - apply getStatistics_catalog.
Qed.

Lemma run_consistent (trace : list Event) (db : Db) :
  consistent db -> consistent (run trace db).
Proof.
  revert db. induction trace as [|e trace IH]; intros db Hc; [done|].
  cbn [run fold_left]. apply IH. by apply serve_consistent.
Qed.
End Steps.

(** ** One row per user and store *)

Lemma filter_key_unique (k : Z * Z) (l : list Rating.t) :
  NoDup (key <$> l) -> (length (filter (fun r => key r = k) l) <= 1)%nat.
Proof.
  induction l as [|r l IH]; [cbn; lia|]. cbn [fmap list_fmap].
  intros [Hr Hl]%NoDup_cons. rewrite filter_cons. case_decide as E; [|auto].
  destruct (filter (fun r => key r = k) l) as [|r' l'] eqn:F; [cbn; lia|].
  exfalso. apply Hr.
  assert (r' ∈ filter (fun r => key r = k) l) as [Hk Hin]%list_elem_of_filter
    by (rewrite F; left).
  apply list_elem_of_fmap. exists r'. split; [congruence | done].
Qed.

Lemma rows_of_unique uid sid db r rest :
  NoDup (key <$> ratings db) -> rows_of uid sid db = r :: rest -> rest = [].
Proof.
  intros Hn E. pose proof (filter_key_unique (uid, sid) _ Hn) as Hl.
  unfold rows_of in E. rewrite E in Hl. destruct rest; [done | cbn in Hl; lia].
Qed.

Lemma raters_unique (sid : Z) (l : list Rating.t) :
  NoDup (key <$> l) ->
  NoDup (Rating.userId <$> filter (fun r => Rating.storeId r = sid) l).
Proof.
  induction l as [|r l IH]; [constructor|]. cbn [fmap list_fmap].
  intros [Hr Hl]%NoDup_cons. rewrite filter_cons. case_decide as E; [|auto].
  cbn [fmap list_fmap]. apply NoDup_cons. split; [|auto].
  intros (r' & Hu & [Hs Hin]%list_elem_of_filter)%list_elem_of_fmap.
  apply Hr. apply list_elem_of_fmap. exists r'. split; [|done].
  unfold key. congruence.
Qed.

Lemma filter_set_rating_hit uid sid v w (l : list Rating.t) :
  filter (fun r => key r = (uid, sid)) (set_rating uid sid uid sid v w <$> l)
  = set_rating uid sid uid sid v w <$> filter (fun r => key r = (uid, sid)) l.
Proof.
  induction l as [|r l IH]; [done|]. cbn [fmap list_fmap].
  rewrite !filter_cons, set_rating_key, IH. by case_decide.
Qed.

Lemma set_rating_hit uid sid v w r :
  key r = (uid, sid) ->
  set_rating uid sid uid sid v w r
  = Rating.mk (Rating.id r) uid sid v
              (match w with Some x => Some x | None => Rating.review r end)
              (Rating.createdAt r) (Rating.updatedAt r).
Proof. intros E. unfold set_rating. by rewrite bool_decide_eq_true_2. Qed.

Lemma rows_of_head uid sid db r rest :
  rows_of uid sid db = r :: rest -> key r = (uid, sid) /\ r ∈ ratings db.
Proof.
  intros E.
  assert (r ∈ rows_of uid sid db) as Hin by (rewrite E; left).
  by apply list_elem_of_filter in Hin.
Qed.

Section Submitters.
Context `{Externals}.

(** A row of [ratings] comes from an answered submission of its user for
    its store. *)
Lemma serve_submitters (e : Event) (db : Db) (S : Z -> list Z) :
  consistent db ->
  (forall r, r ∈ ratings db -> Rating.userId r ∈ S (Rating.storeId r)) ->
  forall r, r ∈ ratings (database (serve e db)) ->
            Rating.userId r ∈ S (Rating.storeId r) ++ submits (Rating.storeId r) e db.
Proof.
  intros Hc HS r.
  assert (forall db', same_catalog db db' -> r ∈ ratings db' ->
                      Rating.userId r ∈ S (Rating.storeId r)
                                      ++ submits (Rating.storeId r) e db) as Hsame.
  { intros db' (_ & -> & _) Hr. apply elem_of_app. left. by apply HS. }
  unfold submits, serve, handle.
  destruct e as [env [body|body| | |body|query|body|ownerId|body|storeId| |body| ] session];
    cbn [Properties.env request cookie].
  - apply Hsame, register_catalog.
  - apply Hsame, login_catalog.
  - apply Hsame, logout_catalog.
  - apply Hsame, me_catalog.
  - apply Hsame, changePassword_catalog.
  - apply Hsame, getStores_catalog.
  - destruct (postStores_database body env session db)
      as [->|(name & email & address & ownerId & ->)];
      cbn [ratings]; intros Hr; apply elem_of_app; left; by apply HS.
  - apply Hsame, getStoresOwner_catalog.
  - pose proof (postRatings_cases body env session db) as Hcases.
    destruct Hc as [H1 H2 H3 H4 H5].
    destruct Hcases
      as [res _|uid data sid v o Hacc Hrows Hu Hs row Hrec
         |uid data sid v r0 rest o Hacc Hrows set Hrec];
      cbn [database].
    + intros Hr. apply elem_of_app. left. by apply HS.
    + destruct Hrec as [a t Ha|e Ha]; cbn [database response status json_ update_aggregate ratings].
      * intros [Hr| ->%list_elem_of_singleton]%elem_of_app.
        { apply elem_of_app. left. by apply HS. }
        apply elem_of_app. right. subst row. cbn [Rating.userId Rating.storeId].
        destruct Hacc as [Hsess _ _ _ _ _ Hbody]. rewrite Hbody.
        rewrite !bool_decide_eq_true_2 by done. cbn [andb].
        unfold session_userId. rewrite Hsess. left.
      * rewrite aggregate_in_range in Ha; [done|]. cbn [ratings].
        apply Forall_app. split; [done|]. constructor; [|done].
        destruct Hacc. by unfold in_range.
    + assert (forall x, x ∈ ratings db ->
                Rating.userId (set x) ∈ S (Rating.storeId (set x))) as Hset.
      { intros x Hx. unfold set. rewrite set_rating_storeId.
        pose proof (set_rating_key uid sid v (InsertRating.review data) x) as E.
        unfold key in E. injection E as -> _. by apply HS. }
      destruct Hrec as [a t Ha|e Ha]; cbn [database update_aggregate ratings];
        intros (x & -> & Hx)%list_elem_of_fmap; apply elem_of_app; left; by apply Hset.
  - apply Hsame, getRatingsStore_catalog.
  - apply Hsame, getUsers_catalog.
  - apply Hsame, postUsers_catalog.
  - apply Hsame, getStatistics_catalog.
Qed.

Lemma run_submitters (trace : list Event) :
  forall (db : Db) (S : Z -> list Z),
    consistent db ->
    (forall r, r ∈ ratings db -> Rating.userId r ∈ S (Rating.storeId r)) ->
    forall r, r ∈ ratings (run trace db) ->
              Rating.userId r ∈ S (Rating.storeId r)
                              ++ submitters (Rating.storeId r) trace db.
Proof.
  induction trace as [|e trace IH]; intros db S Hc HS r Hr.
  - cbn. rewrite app_nil_r. by apply HS.
  - cbn [run fold_left] in Hr. cbn [submitters]. rewrite app_assoc.
    apply (IH (database (serve e db)) (fun s => S s ++ submits s e db)); [| |done].
    + by apply serve_consistent.
    + intros x Hx. by apply serve_submitters.
Qed.
End Submitters.

Lemma set_aggregate_idem sid a t s :
  set_aggregate sid a t (set_aggregate sid a t s) = set_aggregate sid a t s.
Proof.
  unfold set_aggregate.
  destruct (bool_decide (Store.id s = sid)) eqn:E; cbn [Store.id]; by rewrite E.
Qed.

Lemma update_aggregate_idem sid a t db :
  update_aggregate sid a t (update_aggregate sid a t db) = update_aggregate sid a t db.
Proof.
  unfold update_aggregate. cbn [users stores ratings users_id_seq stores_id_seq ratings_id_seq].
  f_equal. rewrite <- list_fmap_compose. apply list_fmap_ext. intros _ s _.
  apply set_aggregate_idem.
Qed.

(** ** [toFixed(2)] writes exactly two decimals *)

Lemma digit_is_digit (z : Z) : 0 <= z <= 9 -> is_digit (digit z) = true.
Proof.
  intros Hz.
  assert (z = 0 \/ z = 1 \/ z = 2 \/ z = 3 \/ z = 4 \/ z = 5 \/ z = 6 \/ z = 7
          \/ z = 8 \/ z = 9) as Hcases by lia.
  repeat (destruct Hcases as [->|Hcases]; [reflexivity|]). by subst.
Qed.

Lemma toFixed2_two_decimals (q : Q) :
  exists (whole : string) (d1 d0 : ascii),
    toFixed2 q = whole +:+ "." +:+ String d1 (String d0 EmptyString)
    /\ is_digit d1 = true /\ is_digit d0 = true.
Proof.
  unfold toFixed2.
  exists ((if Qnum q <? 0 then "-" else "") +:+ pretty (hundredths q / 100)),
         (digit (hundredths q / 10 mod 10)), (digit (hundredths q mod 10)).
  split_and!.
  - by destruct (Qnum q <? 0).
  - apply digit_is_digit. pose proof (Z.mod_pos_bound (hundredths q / 10) 10). lia.
  - apply digit_is_digit. pose proof (Z.mod_pos_bound (hundredths q) 10). lia.
Qed.

Lemma mean_2dp_two_decimals (values : list Z) :
  exists (whole : string) (d1 d0 : ascii),
    mean_2dp values = whole +:+ "." +:+ String d1 (String d0 EmptyString)
    /\ is_digit d1 = true /\ is_digit d0 = true.
Proof.
  unfold mean_2dp. destruct values; [|apply toFixed2_two_decimals].
  by exists "0", "0"%char, "0"%char.
Qed.

(** ** The aggregate is a materialized view *)

(** A recompute that returns left the rows of its store materialized. *)
Lemma recompute_materializes (storeId : number) (sid : Z) (db db' : Db) :
  updateStoreRating storeId db = (inr tt, db') ->
  int4 storeId = inr sid ->
  Forall in_range (ratings db') ->
  Forall (fun s => Store.id s = sid -> materialized db' s) (stores db').
Proof.
  rewrite updateStoreRating_unfold. intros Hu Hs Hr. rewrite Hs in Hu.
  destruct (aggregate sid db) as [e|[a t]] eqn:Ha; [done|].
  injection Hu as <-. cbn [update_aggregate ratings] in Hr.
  rewrite (aggregate_in_range _ _ Hr) in Ha. injection Ha as <- <-.
  cbn [update_aggregate stores]. rewrite Forall_fmap. apply Forall_forall.
  intros s _. cbn. rewrite set_aggregate_id. intros Hid.
  unfold set_aggregate. rewrite bool_decide_eq_true_2 by done. subst sid. by split.
Qed.

Lemma createRating_inr env data db r db' :
  createRating env data db = (inr r, db') ->
  exists (uid sid v : Z) (db1 : Db),
    insert_rating env uid sid v (InsertRating.review data) db = inr (r, db1)
    /\ updateStoreRating (InsertRating.storeId data) db1 = (inr tt, db')
       /\ int4 (InsertRating.storeId data) = inr sid.
Proof.
  unfold createRating. mrun.
  destruct (int4 (Num (InsertRating.userId data))) as [?|uid]; [done|].
  destruct (int4 (Num (InsertRating.storeId data))) as [?|sid] eqn:Hs; [done|].
  destruct (int4 (Num (InsertRating.rating data))) as [?|v]; [done|].
  destruct (insert_rating _ _ _ _ _ _) as [?|[row db1]] eqn:Hi; [done|].
  destruct (updateStoreRating _ db1) as [[?|[]] db2] eqn:Hu; [done|].
  intros [= <- <-]. by exists uid, sid, v, db1.
Qed.

Lemma updateRating_inr userId storeId data db r db' :
  updateRating userId storeId data db = (inr r, db') ->
  exists (sid : Z) (db1 : Db),
    int4 storeId = inr sid /\ updateStoreRating storeId db1 = (inr tt, db').
Proof.
  unfold updateRating. mrun.
  destruct (int4 userId) as [?|uid]; [done|].
  destruct (int4 storeId) as [?|sid] eqn:Hs; [done|].
  destruct (int4 (Num (InsertRating.userId data))) as [?|uid']; [done|].
  destruct (int4 (Num (InsertRating.storeId data))) as [?|sid']; [done|].
  destruct (int4 (Num (InsertRating.rating data))) as [?|v]; [done|].
  destruct (update_rating _ _ _ _ _ _ _) as [?|[row db1]]; [done|].
  destruct (updateStoreRating _ db1) as [[?|[]] db2] eqn:Hu; [done|].
  intros [= <- <-]. by exists sid, db1.
Qed.

Section Aggregate.
Context `{Externals}.

(** C1. The aggregate columns of every store row are a materialized view of
    its ratings: after any sequence of requests from the empty database,
    and after any answered rating write on a consistent database, the
    [averageRating] of a store is the mean of its rating values written
    with two decimals and [totalRatings] is their count; recomputing a
    store without ratings writes "0.00" and 0; [createRating] and
    [updateRating], when they return, leave the rows of their store
    materialized as long as the stored ratings are between 1 and 5; and
    the text of an average ends in a point and exactly two digits. *)
Theorem aggregate_materialized :
  (forall trace : list Event,
     Forall (materialized (run trace Pg.empty)) (stores (run trace Pg.empty)))
  /\ (forall body env session db,
        consistent db ->
        let o := postRatings body env session db in
        status (response o) = 200 ->
        exists (sid : Z) (s : Store.t),
          spread body !! "storeId" = Some (JNum sid)
          /\ s ∈ stores (database o) /\ Store.id s = sid
          /\ ratings_of sid (database o) <> []
          /\ Forall (materialized (database o)) (stores (database o)))
  /\ (forall (storeId : number) (sid : Z) (db : Db),
        int4 storeId = inr sid ->
        ratings_of sid db = [] ->
        updateStoreRating storeId db = (inr tt, update_aggregate sid "0.00" 0 db))
  /\ (forall env data db r db',
        createRating env data db = (inr r, db') ->
        Forall in_range (ratings db') ->
        Forall (fun s => Store.id s = Rating.storeId r -> materialized db' s) (stores db'))
  /\ (forall (userId storeId : number) data db r db' (sid : Z),
        updateRating userId storeId data db = (inr r, db') ->
        int4 storeId = inr sid ->
        Forall in_range (ratings db') ->
        Forall (fun s => Store.id s = sid -> materialized db' s) (stores db'))
  /\ (forall values : list Z,
        exists (whole : string) (d1 d0 : ascii),
          mean_2dp values = whole +:+ "." +:+ String d1 (String d0 EmptyString)
          /\ is_digit d1 = true /\ is_digit d0 = true).
Proof.
  split_and!; [| | | | |apply mean_2dp_two_decimals].
  - intros trace. apply aggregates, run_consistent, consistent_empty.
  - intros body env session db Hc o Hok.
    pose proof (postRatings_consistent body env session db Hc) as Hc'.
    fold o in Hc'. destruct Hc' as [_ _ H3 _ H5].
    pose proof (postRatings_cases body env session db) as Hcases. fold o in Hcases.
    assert (exists sid r, spread body !! "storeId" = Some (JNum (num sid))
                          /\ r ∈ ratings (database o) /\ Rating.storeId r = sid)
      as (sid & r & Hb & Hr & Hs).
    { destruct Hcases
        as [res Hne|uid data sid v o' Hacc Hrows Hu Hs row Hrec
           |uid data sid v r0 rest o' Hacc Hrows set Hrec]; [done|..].
      - exists sid, row. split; [by destruct Hacc|].
        destruct Hrec; [|done]. cbn. split; [|done].
        apply elem_of_app. right. left.
      - exists sid, (set r0). split; [by destruct Hacc|].
        destruct Hrec; [|done]. cbn. split.
        + apply list_elem_of_fmap. exists r0. split; [done|].
          by apply rows_of_head in Hrows as [_ ?].
        + unfold set. rewrite set_rating_storeId.
          apply rows_of_head in Hrows as [Hk _]. unfold key in Hk. congruence. }
    rewrite Forall_forall in H3. pose proof (H3 r Hr) as Hin.
    apply list_elem_of_fmap in Hin as (s & Hid & Hin).
    exists sid, s. split_and!; [done|done|congruence| |done].
    intros E. assert (r ∈ ratings_of sid (database o)) as Hr'
      by (by apply list_elem_of_filter).
    rewrite E in Hr'. by apply not_elem_of_nil in Hr'.
  - intros storeId sid db Hn Hnone. rewrite updateStoreRating_unfold, Hn.
    unfold aggregate. by rewrite Hnone.
  - intros env data db r db' Hc Hr.
    apply createRating_inr in Hc as (uid & sid & v & db1 & Hi & Hu & Hs).
    apply insert_rating_inr in Hi as (_ & _ & _ & -> & _). cbn [Rating.storeId].
    eapply recompute_materializes; [exact Hu | exact Hs | exact Hr].
  - intros userId storeId data db r db' sid Hc Hs Hr.
    apply updateRating_inr in Hc as (sid' & db1 & Hs' & Hu).
    eapply recompute_materializes; [exact Hu | exact Hs | exact Hr].
Qed.

(** C8. The recompute is idempotent: a second run changes neither what
    it returns nor the database that the first run left. *)
Theorem recompute_idempotent (storeId : number) (db : Db) :
  let first := updateStoreRating storeId db in
  updateStoreRating storeId first.2 = first.
Proof.
  cbn zeta. rewrite !updateStoreRating_unfold.
  destruct (int4 storeId) as [e|sid]; [done|].
  destruct (aggregate sid db) as [e|[a t]] eqn:Ha; cbn [snd].
  - by rewrite Ha.
  - change (aggregate sid (update_aggregate sid a t db)) with (aggregate sid db).
    by rewrite Ha, update_aggregate_idem.
Qed.
End Aggregate.

(** ** Create or update *)

Section OneRating.
Context `{Externals}.

(** C2 (amended). One rating per user and store: along any sequence of
    requests the pairs (userId, storeId) of the rating rows are distinct;
    an answered submission of a user for a store leaves exactly one row
    for the pair, appended when there was none and otherwise the row that
    was there, with its id, the submitted rating and the submitted review
    when the submission has one, else the review it had; and the
    [totalRatings] of a store never exceeds the number of distinct users
    with an answered submission for it. *)
Theorem one_rating_per_user_and_store :
  (forall trace : list Event, NoDup (key <$> ratings (run trace Pg.empty)))
  /\ (forall body env session db,
        consistent db ->
        let o := postRatings body env session db in
        status (response o) = 200 ->
        exists uid sid data v row,
          accepted body session uid data sid v
          /\ rows_of uid sid (database o) = [row]
          /\ Rating.rating row = v
          /\ match rows_of uid sid db with
             | [] =>
                 ratings (database o) = ratings db ++ [row]
                 /\ Rating.review row = InsertRating.review data
             | old :: _ =>
                 length (ratings (database o)) = length (ratings db)
                 /\ Rating.id row = Rating.id old
                 /\ Rating.review row
                    = match InsertRating.review data with
                      | Some w => Some w
                      | None => Rating.review old
                      end
             end)
  /\ (forall trace : list Event,
        Forall (fun s =>
                  exists t, Store.totalRatings s = Some t
                            /\ t <= Z.of_nat (length (remove_dups
                                   (submitters (Store.id s) trace Pg.empty))))
               (stores (run trace Pg.empty))).
Proof.
  split; [|split].
  - intros trace. apply ratings_unique, run_consistent, consistent_empty.
  - intros body env session db Hc o Hok.
    pose proof (postRatings_cases body env session db) as Hcases. fold o in Hcases.
    destruct Hcases
      as [res Hne|uid data sid v o' Hacc Hrows Hu Hs row Hrec
         |uid data sid v old rest o' Hacc Hrows set Hrec]; [done|..];
      (destruct Hrec as [a t Ha|e Ha]; [|done]).
    + exists uid, sid, data, v, row. rewrite Hrows.
      assert (rows_of uid sid (update_aggregate sid a t
                (mkDb (users db) (stores db) (ratings db ++ [row])
                      (users_id_seq db) (stores_id_seq db) (ratings_id_seq db + 1)))
              = [row]) as Hrow.
      { unfold rows_of in *. cbn [update_aggregate ratings].
        rewrite filter_app, Hrows. by rewrite filter_cons_True. }
      cbn [database]. by rewrite Hrow.
    + exists uid, sid, data, v, (set old). rewrite Hrows.
      pose proof (rows_of_unique _ _ _ _ _ (ratings_unique _ Hc) Hrows) as ->.
      apply rows_of_head in Hrows as Hold. destruct Hold as [Hk _].
      assert (rows_of uid sid (update_aggregate sid a t
                (mkDb (users db) (stores db) (set <$> ratings db)
                      (users_id_seq db) (stores_id_seq db) (ratings_id_seq db)))
              = [set old]) as Hrow.
      { unfold rows_of in *. cbn [update_aggregate ratings].
        unfold set. by rewrite filter_set_rating_hit, Hrows. }
      cbn [database]. rewrite Hrow. unfold set.
      rewrite (set_rating_hit _ _ _ _ _ Hk). cbn.
      split_and!; try done. by rewrite length_fmap.
  - intros trace.
    pose proof (run_consistent trace _ consistent_empty) as Hc.
    apply Forall_forall. intros s Hs.
    pose proof (aggregates _ Hc) as Hm. rewrite Forall_forall in Hm.
    destruct (Hm s Hs) as [_ Ht]. eexists. split; [exact Ht|].
    unfold count. apply inj_le.
    rewrite <- (length_fmap Rating.userId). apply submseteq_length.
    apply NoDup_submseteq; [apply raters_unique, ratings_unique, Hc|].
    intros u (r & -> & [Hsid Hr]%list_elem_of_filter)%list_elem_of_fmap.
    apply elem_of_remove_dups. rewrite <- Hsid.
    pose proof (run_submitters trace Pg.empty (fun _ => []) consistent_empty) as Hsub.
    cbn beta in Hsub. apply Hsub; [|done].
    intros x Hx. cbn in Hx. by apply elem_of_nil in Hx.
Qed.
End OneRating.

Lemma insertUserSchema_inr `{Externals} (v : json) (data : InsertUser.t) :
  insertUserSchema v = inr data ->
  zDefault (zEnum roles) "user" (field "role" v) = inr (InsertUser.role data).
Proof.
  unfold insertUserSchema. destruct (not_object v); [discriminate|].
  destruct (zString _ (field "name" v)), (zString _ (field "email" v)),
    (passwordString (field "password" v)), (zOptional _ (field "address" v)),
    (zDefault _ _ (field "role" v)); try discriminate.
  by intros [= <-].
Qed.

Lemma status_message code text : status (message code text) = code.
Proof. done. Qed.

(** ** Registration, login and the admin guard *)

(** A schema that refuses a value collects at least one issue. *)
Lemma refine_inl {A} (cs : list (check A)) (x : A) l : refine cs x = inl l -> l <> [].
Proof. unfold refine. destruct (failed cs x) eqn:E; [discriminate|]. by intros [= <-]. Qed.

Lemma zString_inl cs v l : zString cs v = inl l -> l <> [].
Proof.
  unfold zString. destruct v as [[]|]; try (by intros [= <-]).
  apply refine_inl.
Qed.

Section AuthAndRoles.
Context `{Externals}.

Lemma loginSchema_inl v l : loginSchema v = inl l -> l <> [].
Proof.
  unfold loginSchema.
  cbv zeta. destruct (not_object v); [by intros [= <-]|].
  destruct (zString _ (field "email" v)) as [[|? ?]|?] eqn:Ee;
    [by apply zString_inl in Ee | by intros [= <-] |].
  destruct (zString _ (field "password" v)) as [[|? ?]|?] eqn:Ep;
    [by apply zString_inl in Ep | by intros [= <-] | discriminate].
Qed.

(** C3 (amended). A registration that is answered 200 appends one user,
    whose role is "user" when the body has no role field and is the
    role of the body when that is "user" or "store_owner". *)
Theorem registration_role (body : json) (env : Env) (session : SessionData) (db : Db) :
  let o := register body env session db in
  status (response o) = 200 ->
  field "role" body = None
  \/ field "role" body = Some (JStr "user")
  \/ field "role" body = Some (JStr "store_owner") ->
  exists u : User.t,
    users (database o) = users db ++ [u]
    /\ User.role u = match field "role" body with
                     | Some (JStr r) => r
                     | _ => "user"
                     end
    /\ response o = json_ (JObj {[ "user" := JObj (userWithoutPassword u) ]}).
Proof.
  cbn zeta. unfold register, getUserByEmail, createUser. mrun.
  destruct (insertUserSchema body) as [[|? ?]|data] eqn:Hp; [done..|].
  apply insertUserSchema_inr in Hp.
  destruct (head _) as [existing|]; [done|].
  destruct (varchar 60 _) as [[[|? ?]|?]|name]; [done..|].
  destruct (varchar 255 (InsertUser.email data)) as [[[|? ?]|?]|email]; [done..|].
  destruct (varchar 255 _) as [[[|? ?]|?]|password]; [done..|].
  destruct (varchar 20 _) as [[[|? ?]|?]|role] eqn:Hrole; [done..|].
  unfold insert_user. case_bool_decide; [done|].
  intros _ Hbody. eexists. split; [reflexivity|]. split; [|reflexivity].
  cbn [User.role].
  destruct Hbody as [Hb|[Hb|Hb]]; rewrite Hb in Hp |- *;
    cbn in Hp; injection Hp as Hp; rewrite <- Hp in Hrole;
    cbn in Hrole; by injection Hrole as <-.
Qed.

(** C6 (amended). A login whose body passes [loginSchema] (an e-mail of
    valid syntax, a password that is not empty), whose e-mail is that of
    a user and whose password does not verify is answered 401 with the
    session and the database as they were; a body that [loginSchema]
    refuses is answered 400 with the message of the first issue, the
    session and the database as they were; and whatever the body, a
    login that is not answered 200 leaves the session as it was. *)
Theorem wrong_password_is_401 :
  (forall body session db credentials user,
     loginSchema body = inr credentials ->
     head (filter (fun u => User.email u = LoginCredentials.email credentials) (users db))
     = Some user ->
     bcrypt_compare (LoginCredentials.password credentials) (User.password user) = false ->
     login body session db = mkOutcome (message 401 "Invalid credentials") session db)
  /\ (forall body session db l,
        loginSchema body = inl l ->
        Conduct.rejected l session db (login body session db))
  /\ (forall body session db,
        status (response (login body session db)) <> 200 ->
        Routes.session (login body session db) = session).
Proof.
  split_and!.
  - intros body session db credentials user Hp Hu Hc.
    unfold login, getUserByEmail. mrun. by rewrite Hp, Hu, Hc.
  - intros body session db l Hp.
    pose proof (loginSchema_inl _ _ Hp) as Hl.
    destruct l as [|m l]; [done|].
    exists m. split; [done|].
    unfold login. mrun. by rewrite Hp.
  - intros body session db. unfold login, getUserByEmail. mrun.
    destruct (loginSchema body) as [[|? ?]|credentials]; [done..|].
    destruct (head _) as [user|]; [|done].
    by destruct (bcrypt_compare _ _).
Qed.

(** C7. An endpoint behind [requireAdmin], asked from a session whose
    snapshot role is not "admin" (or that has no snapshot), answers 403
    and leaves the database and the session as they were. *)
Theorem admin_only_is_403 (env : Env) (req : Request) (session : SessionData) (db : Db) :
  admin_only req = true ->
  SessionUser.role <$> user session <> Some "admin" ->
  handle env req session db = mkOutcome (message 403 "Forbidden") session db.
Proof.
  intros Hreq Hrole.
  assert (is_admin session = false) as Hadm.
  { unfold is_admin. destruct (user session) as [u|]; [|done].
    apply bool_decide_eq_false. cbn in Hrole. congruence. }
  destruct req; try discriminate; cbn [handle];
    unfold postStores, getUsers, postUsers, getStatistics_, requireAdmin;
    by rewrite Hadm.
Qed.
End AuthAndRoles.

(** ** [ORDER BY] sorts *)

Section OrderBySorted.
Context {A : Type} (le : A -> A -> bool).
Hypothesis le_total : forall a b, le a b = true \/ le b a = true.

Lemma insert_sorted_HdRel (a x : A) (l : list A) :
  le a x = true -> HdRel (fun a b => le a b = true) a l ->
  HdRel (fun a b => le a b = true) a (insert_sorted le x l).
Proof.
  intros Hax Hl. destruct l as [|y l]; cbn; [by constructor|].
  destruct (le x y); constructor; [done|]. by inversion Hl.
Qed.

Lemma insert_sorted_Sorted (x : A) (l : list A) :
  Sorted (fun a b => le a b = true) l ->
  Sorted (fun a b => le a b = true) (insert_sorted le x l).
Proof.
  induction 1 as [|y l Hl IH Hy]; cbn; [by repeat constructor|].
  destruct (le x y) eqn:E.
  - constructor; [by constructor | by constructor].
  - constructor; [done|]. apply insert_sorted_HdRel; [|done].
    destruct (le_total x y); congruence.
Qed.

Lemma orderBy_Sorted (l : list A) : Sorted (fun a b => le a b = true) (orderBy le l).
Proof.
  induction l as [|x l IH]; cbn; [constructor|]. by apply insert_sorted_Sorted.
Qed.
End OrderBySorted.

Lemma mapM_inr {A B} (f : A -> M B) (P : A -> B -> Prop) :
  (forall x db y db', f x db = (inr y, db') -> P x y) ->
  forall l db ys db', mapM f l db = (inr ys, db') -> Forall2 P l ys.
Proof.
  intros Hf. induction l as [|x l IH]; intros db ys db'; cbn [mapM]; mrun.
  - intros [= <- _]. constructor.
  - destruct (f x db) as [[e|y] db1] eqn:Ef; [done|].
    destruct (mapM f l db1) as [[e|ys'] db2] eqn:El; [done|].
    intros [= <- _]. constructor; eauto.
Qed.

Lemma name_of_store (s : Store.t) (extra : json) :
  name_of (JObj (store_json s)) = Some (Store.name s)
  /\ name_of (JObj (<[ "userRating" := extra ]> (store_json s))) = Some (Store.name s).
Proof. split; reflexivity. Qed.

(** ** The session binds the submitter; the listing ignores sort parameters *)

Section SubmitterAndListing.
Context `{Externals}.

(** C5. The submitter of a rating is the user of the session: two bodies
    that differ only in their [userId] field are answered alike and leave
    the same database, and the row that an answered submission returns
    is in the table with the session's user as its [userId]. *)
Theorem submitter_is_session_user (b1 b2 : json) (env : Env)
    (session : SessionData) (db : Db) :
  delete "userId" (spread b1) = delete "userId" (spread b2) ->
  postRatings b1 env session db = postRatings b2 env session db
  /\ (status (response (postRatings b1 env session db)) = 200 ->
      exists r : Rating.t,
        body (response (postRatings b1 env session db)) = JObj (rating_json r)
        /\ r ∈ ratings (database (postRatings b1 env session db))
        /\ userId session = Some (Rating.userId r)).
Proof.
  intros Hb. split.
  - unfold postRatings, requireAuth.
    destruct (userId session) as [uid|]; [|done]. destruct (uid =? 0); [done|].
    cbv beta.
    rewrite <- (insert_delete_eq (spread b1)), <- (insert_delete_eq (spread b2)).
    by rewrite Hb.
  - intros Hok.
    destruct (postRatings_cases b1 env session db)
      as [res Hne|uid data sid v o Hacc Hrows Hu Hs row Hrec
         |uid data sid v old rest o Hacc Hrows set Hrec]; [done|..];
      (destruct Hrec as [a t Ha|e Ha]; [|done]); cbn.
    + exists row. split_and!; [done| |by destruct Hacc].
      apply elem_of_app. right. left.
    + apply rows_of_head in Hrows as [Hk Hin].
      exists (set old). split_and!; [done| |].
      * apply list_elem_of_fmap. by exists old.
      * unfold set. rewrite (set_rating_hit _ _ _ _ _ Hk). by destruct Hacc.
Qed.

(** C10. [GET /api/stores] reads [search] only: two queries that differ
    in [sortBy] or [sortOrder] alone get the same answer, and the stores
    of an answer are in ascending order of name. *)
Theorem stores_sorted_by_name (q1 q2 : gmap string qs) (session : SessionData) (db : Db) :
  (forall k, k <> "sortBy" -> k <> "sortOrder" -> q1 !! k = q2 !! k) ->
  getStores q1 session db = getStores q2 session db
  /\ (status (response (getStores q1 session db)) = 200 ->
      exists (rows : list json) (names : list string),
        body (response (getStores q1 session db)) = JArr rows
        /\ Forall2 (fun row name => name_of row = Some name) rows names
        /\ ascending names).
Proof.
  intros Hq. split.
  - unfold getStores. by rewrite (Hq "search").
  - unfold getStores, requireAuth.
    destruct (userId session) as [uid|]; [|done]. destruct (uid =? 0); [done|].
    unfold try_catch_all. mrun.
    set (listing := if truthy (q1 !! "search")
                    then searchStores (from_option toString "" (q1 !! "search"))
                    else getAllStores).
    assert (forall l db', listing db = (inr l, db') ->
              ascending (Store.name <$> l)) as Hsorted.
    { intros l db'. unfold listing, searchStores, getAllStores, query, ascending.
      destruct (truthy _); intros [= <- _];
        (eapply Sorted_fmap; [|apply (orderBy_Sorted by_name)]);
        [done | intros a b; apply collate_total | done | intros a b; apply collate_total]. }
    destruct (listing db) as [[e|l] db1] eqn:El; [done|].
    specialize (Hsorted l db1 eq_refl).
    destruct (negb (is_admin session)).
    + destruct (mapM _ l db1) as [[e|rows] db2] eqn:Em; [done|]. intros _. cbn.
      exists (JObj <$> rows), (Store.name <$> l). split_and!; [done| |done].
      apply Forall2_fmap.
      eapply (mapM_inr _ (fun s row => exists extra,
                            row = <[ "userRating" := extra ]> (store_json s))) in Em.
      * apply Forall2_flip. eapply Forall2_impl; [exact Em|].
        intros s row [extra ->]. apply name_of_store.
      * intros s d row d'. unfold getRatingByUserAndStore. mrun.
        destruct (int4 _) as [?|?]; [done|]. destruct (int4 _) as [?|?]; [done|].
        intros [= <- _]. by eexists.
    + intros _. cbn. exists (JObj <$> (store_json <$> l)), (Store.name <$> l).
      split_and!; [done| |done].
      rewrite <- list_fmap_compose. apply Forall2_fmap, Forall_Forall2_diag.
      apply Forall_forall. intros s _. apply (name_of_store s JNull).
Qed.
End SubmitterAndListing.

(** ** Responses without a password *)

Lemma no_key_optstr k s : no_key k (optstr s).
Proof. destruct s; constructor. Qed.

Lemma no_key_optnum k z : no_key k (optnum z).
Proof. destruct z; constructor. Qed.

Lemma list_to_map_values (k : string) (l : list (string * json)) :
  Forall (fun kv => no_key k kv.2) l ->
  map_Forall (fun _ v => no_key k v) (list_to_map l : gmap string json).
Proof.
  induction 1 as [|[i v] l Hv _ IH]; cbn [list_to_map foldr]; [apply map_Forall_empty|].
  by apply map_Forall_insert_2.
Qed.

Lemma list_to_map_absent (k : string) (l : list (string * json)) :
  Forall (fun kv => kv.1 <> k) l -> (list_to_map l : gmap string json) !! k = None.
Proof.
  induction 1 as [|[i v] l Hi _ IH]; cbn [list_to_map foldr]; [apply lookup_empty|].
  by rewrite lookup_insert_ne.
Qed.

Lemma user_values (u : User.t) : map_Forall (fun _ v => no_key "password" v) (user_json u).
Proof. apply list_to_map_values. cbn [snd]. repeat constructor; cbn [snd]; first [apply no_key_optstr | apply no_key_optnum | constructor]. Qed.

Lemma no_password_user (u : User.t) : no_key "password" (JObj (userWithoutPassword u)).
Proof.
  constructor; [apply lookup_delete_eq|]. apply map_Forall_delete, user_values.
Qed.

Lemma no_password_store (s : Store.t) : no_key "password" (JObj (store_json s)).
Proof.
  constructor.
  - apply list_to_map_absent. repeat constructor; done.
  - apply list_to_map_values. repeat constructor; cbn [snd];
      first [apply no_key_optstr | apply no_key_optnum | constructor].
Qed.

Lemma no_password_rating (r : Rating.t) : no_key "password" (JObj (rating_json r)).
Proof.
  constructor.
  - apply list_to_map_absent. repeat constructor; done.
  - apply list_to_map_values. repeat constructor; cbn [snd];
      first [apply no_key_optstr | apply no_key_optnum | constructor].
Qed.

Lemma no_password_statistics (s : Statistics) : no_key "password" (JObj (statistics_json s)).
Proof.
  constructor.
  - apply list_to_map_absent. repeat constructor; done.
  - apply list_to_map_values. repeat constructor; cbn [snd]; constructor.
Qed.

Lemma no_password_insert (i : string) (v : json) (m : gmap string json) :
  i <> "password" -> no_key "password" v -> no_key "password" (JObj m) ->
  no_key "password" (JObj (<[ i := v ]> m)).
Proof.
  intros Hi Hv Hm. inversion Hm as [| | | | |m' Hnone Hall]; subst.
  constructor; [by rewrite lookup_insert_ne | by apply map_Forall_insert_2].
Qed.

Lemma no_password_singleton (i : string) (v : json) :
  i <> "password" -> no_key "password" v -> no_key "password" (JObj {[ i := v ]}).
Proof.
  intros Hi Hv. constructor; [by apply lookup_singleton_ne | by apply map_Forall_singleton].
Qed.

Lemma no_password_message code text : no_key "password" (body (message code text)).
Proof. apply no_password_singleton; [done | constructor]. Qed.

Lemma no_password_objects (rows : list (gmap string json)) :
  Forall (fun m => no_key "password" (JObj m)) rows ->
  no_key "password" (JArr (JObj <$> rows)).
Proof. intros Hr. constructor. by rewrite Forall_fmap. Qed.

(** Results of computations. *)

Lemma yields_ret {A} (Q : A -> Prop) (x : A) : Q x -> yields Q (ret x).
Proof. by intros Hx db y db' [= <- _]. Qed.

Lemma yields_bind {A B} (P : A -> Prop) (Q : B -> Prop) (m : M A) (k : A -> M B) :
  yields P m -> (forall x, P x -> yields Q (k x)) -> yields Q (bind m k).
Proof.
  intros Hm Hk db y db'. unfold bind.
  destruct (m db) as [[e|x] db1] eqn:E; [done|]. apply Hk. by eapply Hm.
Qed.

Lemma yields_any {A} (m : M A) : yields (fun _ => True) m.
Proof. by intros db x db' _. Qed.

Lemma yields_mapM {A B} (Q : B -> Prop) (f : A -> M B) (l : list A) :
  (forall x, yields Q (f x)) -> yields (Forall Q) (mapM f l).
Proof.
  intros Hf. induction l as [|x l IH]; cbn [mapM]; [by apply yields_ret|].
  eapply yields_bind; [apply Hf|]. intros y Hy.
  eapply yields_bind; [apply IH|]. intros ys Hys.
  apply yields_ret. by constructor.
Qed.

Lemma try_catch_clean failure session body db :
  yields (fun x => clean x.1) body -> clean (response (try_catch failure session body db)).
Proof.
  intros Hb. unfold try_catch.
  destruct (body db) as [[e|[res s]] db'] eqn:E.
  - destruct e as [[|? ?]|?]; apply no_password_message.
  - apply (Hb _ _ _ E).
Qed.

Lemma try_catch_all_clean failure session body db :
  yields (fun x => clean x.1) body ->
  clean (response (try_catch_all failure session body db)).
Proof.
  intros Hb. unfold try_catch_all.
  destruct (body db) as [[e|[res s]] db'] eqn:E; [apply no_password_message|].
  apply (Hb _ _ _ E).
Qed.

Lemma requireAuth_clean next session db :
  (forall s d, clean (response (next s d))) -> clean (response (requireAuth next session db)).
Proof.
  intros Hn. unfold requireAuth.
  destruct (userId session) as [id|]; [|apply no_password_message].
  destruct (id =? 0); [apply no_password_message | apply Hn].
Qed.

Lemma requireAdmin_clean next session db :
  (forall s d, clean (response (next s d))) -> clean (response (requireAdmin next session db)).
Proof.
  intros Hn. unfold requireAdmin.
  destruct (is_admin session); [apply Hn | apply no_password_message].
Qed.

Ltac clean_value :=
  lazymatch goal with
  | |- no_key _ (body (message _ _)) => apply no_password_message
  | |- no_key _ (JObj (userWithoutPassword _)) => apply no_password_user
  | |- no_key _ (JObj (store_json _)) => apply no_password_store
  | |- no_key _ (JObj (rating_json _)) => apply no_password_rating
  | |- no_key _ (JObj (statistics_json _)) => apply no_password_statistics
  | |- no_key _ (JObj {[ _ := _ ]}) => apply no_password_singleton; [done|]
  | |- no_key _ (JObj (<[ _ := _ ]> _)) => apply no_password_insert; [done| |]
  | |- no_key _ (JArr (JObj <$> _)) => apply no_password_objects
  | |- no_key _ (from_option _ _ _) => cbn [from_option]
  | |- no_key _ JNull => apply no_key_null
  | |- no_key _ (JStr _) => apply no_key_str
  | |- no_key _ (JNum _) => apply no_key_num
  end.

Ltac clean_step :=
  first
    [ apply requireAuth_clean; intros
    | apply requireAdmin_clean; intros
    | apply try_catch_clean
    | apply try_catch_all_clean
    | apply yields_ret; unfold clean; cbn [fst body json_]
    | eapply yields_bind; [apply yields_any|]; intros ? _
    | match goal with
      | |- yields _ (match ?x with _ => _ end) => destruct x
      | |- yields _ (if ?b then _ else _) => destruct b
      end
    | clean_value ].

Section NoPassword.
Context `{Externals}.

Lemma register_clean body env session db : clean (response (register body env session db)).
Proof. unfold register. repeat clean_step. Qed.

Lemma login_clean body session db : clean (response (login body session db)).
Proof. unfold login. repeat clean_step. Qed.

Lemma logout_clean destroyed session db : clean (response (logout destroyed session db)).
Proof. unfold logout. destruct destroyed; unfold clean; cbn [response body json_]; repeat clean_value. Qed.

Lemma me_clean session db : clean (response (me session db)).
Proof. unfold me. repeat clean_step. Qed.

Lemma changePassword_clean body env session db :
  clean (response (changePassword body env session db)).
Proof. unfold changePassword. repeat clean_step. Qed.

Lemma getStores_clean query session db : clean (response (getStores query session db)).
Proof.
  unfold getStores. do 3 clean_step.
  eapply (yields_bind (fun rows => Forall (fun m => no_key "password" (JObj m)) rows)).
  - destruct (negb (is_admin _)).
    + apply yields_mapM. intros store. repeat clean_step.
      match goal with
      | |- no_key _ (userRating_json ?u) => destruct u as [r|]
      end; cbn [userRating_json]; [|constructor].
      destruct (Rating.rating r =? 0); constructor.
    + apply yields_ret. rewrite Forall_fmap. apply Forall_forall. intros st _.
      apply no_password_store.
  - intros rows Hrows. clean_step. by clean_step.
Qed.

Lemma postStores_clean body env session db :
  clean (response (postStores body env session db)).
Proof. unfold postStores. repeat clean_step. Qed.

Lemma getStoresOwner_clean ownerId session db :
  clean (response (getStoresOwner ownerId session db)).
Proof.
  unfold getStoresOwner. repeat clean_step.
  constructor. rewrite Forall_fmap. apply Forall_forall. intros st _. apply no_password_store.
Qed.

Lemma postRatings_clean body env session db :
  clean (response (postRatings body env session db)).
Proof.
  unfold postRatings. do 4 clean_step.
  eapply yields_bind; [apply yields_any|]. intros [r|] _; repeat clean_step.
Qed.

Lemma getRatingsStore_clean storeId session db :
  clean (response (getRatingsStore storeId session db)).
Proof.
  unfold getRatingsStore. do 3 clean_step.
  eapply (yields_bind (fun rows => Forall (fun m => no_key "password" (JObj m)) rows)).
  - apply yields_mapM. intros rating. repeat clean_step.
    match goal with
    | |- no_key _ (match ?u with _ => _ end) => destruct u as [u|]
    end; [|constructor].
    constructor; [done|]. apply list_to_map_values. repeat constructor.
  - intros rows Hrows. clean_step. by clean_step.
Qed.

Lemma getUsers_clean session db : clean (response (getUsers session db)).
Proof.
  unfold getUsers. repeat clean_step.
  rewrite Forall_fmap. apply Forall_forall. intros usr _. apply no_password_user.
Qed.

Lemma postUsers_clean body env session db :
  clean (response (postUsers body env session db)).
Proof. unfold postUsers. repeat clean_step. Qed.

Lemma getStatistics_clean session db : clean (response (getStatistics_ session db)).
Proof. unfold getStatistics_. repeat clean_step. Qed.

(** C9. No response has a password field: whatever the request, the
    session and the database, no object in the body of the answer has
    the key "password". *)
Theorem no_password_in_responses (env : Env) (req : Request)
    (session : SessionData) (db : Db) :
  no_key "password" (body (response (handle env req session db))).
Proof.
  destruct req; cbn [handle].
  - apply register_clean.
  - apply login_clean.
  - apply logout_clean.
  - apply me_clean.
  - apply changePassword_clean.
  - apply getStores_clean.
  - apply postStores_clean.
  - apply getStoresOwner_clean.
  - apply postRatings_clean.
  - apply getRatingsStore_clean.
  - apply getUsers_clean.
  - apply postUsers_clean.
  - apply getStatistics_clean.
Qed.
End NoPassword.

(** ** The range check of the rating

    What the range check of [insertRatingSchema] refuses is answered 400
    and changes nothing. *)
Lemma zNumber_inl cs v l : zNumber cs v = inl l -> l <> [].
Proof.
  unfold zNumber, refine. destruct v as [[]|]; try (by intros [= <-]).
  destruct (failed cs q); [done | by intros [= <-]].
Qed.

Lemma out_of_range_rating_is_400 body env session db uid l :
  userId session = Some uid -> uid <> 0 ->
  zNumber [ minNum 1 "Rating must be at least 1"; maxNum 5 "Rating must not exceed 5" ]
          (spread body !! "rating") = inl l ->
  exists text,
    postRatings body env session db = mkOutcome (message 400 text) session db.
Proof.
  intros Hs Hz Hr. unfold postRatings, requireAuth. rewrite Hs.
  destruct (Z.eqb_spec uid 0); [done|]. mrun.
  unfold insertRatingSchema. cbn [not_object field].
  rewrite (lookup_insert_ne _ "userId" "rating") by done. rewrite Hr.
  apply zNumber_inl in Hr.
  assert (forall a b c : list string, a ++ b ++ l ++ c <> []) as Hne.
  { intros a b c E. apply app_eq_nil in E as [_ E]. apply app_eq_nil in E as [_ E].
    by apply app_eq_nil in E as [E _]. }
  destruct (integerColumn _) as [lu|?], (integerColumn _) as [ls|?],
    (zOptional _ _) as [lw|?]; cbn [issues]; cbv beta iota;
    match goal with
    | |- context [match ?errors with [] => _ | _ :: _ => _ end] =>
        destruct errors as [|first rest] eqn:E; [by apply Hne in E | by eexists]
    end.
Qed.

(** * Further properties of the handlers and the storage *)

Import Storage Routes Properties Conduct.

(** ** The two middlewares and the session *)

Section Middleware.
Context `{Externals}.

(** X1. Every endpoint behind [requireAuth], asked from a session without
    a user id (or with the id 0, which is falsy), answers 401 with the
    message Unauthorized and touches neither the session nor the database. *)
Theorem unauthenticated_is_401 (env : Env) (req : Request)
    (session : SessionData) (db : Db) :
  auth_only req = true ->
  userId session = None \/ userId session = Some 0 ->
  handle env req session db = mkOutcome (message 401 "Unauthorized") session db.
Proof.
  intros Hreq Hs.
  destruct req; try discriminate Hreq; cbn [handle];
    unfold me, changePassword, getStores, getStoresOwner, postRatings,
      getRatingsStore, requireAuth;
    by destruct Hs as [-> | ->].
Qed.

(** X2. The handlers that only read (login, logout and every GET) hand the
    database back exactly as they found it, whatever they answer. *)
Theorem reads_leave_database (env : Env) (req : Request)
    (session : SessionData) (db : Db) :
  read_only req = true -> database (handle env req session db) = db.
Proof.
  intros Hreq. symmetry.
  destruct req; try discriminate Hreq; cbn [handle];
    unfold login, logout, me, getStores, getStoresOwner, getRatingsStore,
      getUsers, getStatistics_.
  all: try (handler_keeps; fail).
  by destruct (destroyed env).
Qed.

Lemma try_catch_session failure session body db :
  yields (fun x => x.2 = session) body ->
  Routes.session (try_catch failure session body db) = session.
Proof.
  intros Hb. unfold try_catch.
  destruct (body db) as [[e|[res s]] db'] eqn:E.
  - by destruct e as [[|? ?]|?].
  - apply (Hb _ _ _ E).
Qed.

Lemma try_catch_all_session failure session body db :
  yields (fun x => x.2 = session) body ->
  Routes.session (try_catch_all failure session body db) = session.
Proof.
  intros Hb. unfold try_catch_all.
  destruct (body db) as [[e|[res s]] db'] eqn:E; [done|].
  apply (Hb _ _ _ E).
Qed.

Lemma requireAuth_session next session db :
  (forall d, Routes.session (next session d) = session) ->
  Routes.session (requireAuth next session db) = session.
Proof.
  intros Hn. unfold requireAuth.
  destruct (userId session) as [id|]; [|done].
  destruct (id =? 0); [done | apply Hn].
Qed.

Lemma requireAdmin_session next session db :
  (forall d, Routes.session (next session d) = session) ->
  Routes.session (requireAdmin next session db) = session.
Proof.
  intros Hn. unfold requireAdmin.
  destruct (is_admin session); [apply Hn | done].
Qed.

End Middleware.

Ltac session_step :=
  first
    [ apply requireAuth_session; intros
    | apply requireAdmin_session; intros
    | apply try_catch_session
    | apply try_catch_all_session
    | apply yields_ret; reflexivity
    | eapply yields_bind; [apply yields_any|]; intros ? _
    | match goal with
      | |- yields _ (match ?x with _ => _ end) => destruct x
      | |- yields _ (if ?b then _ else _) => destruct b
      end ].

Section Session.
Context `{Externals}.

(** X3. Only login and logout write the session: after any other
    request the session is the one the cookie designated, on every path. *)
Theorem session_written_by_login_and_logout (env : Env) (req : Request)
    (session : SessionData) (db : Db) :
  writes_session req = false ->
  Routes.session (handle env req session db) = session.
Proof.
  intros Hreq.
  destruct req; try discriminate Hreq; cbn [handle];
    unfold register, me, changePassword, getStores, postStores, getStoresOwner,
      postRatings, getRatingsStore, getUsers, postUsers, getStatistics_;
    repeat session_step.
Qed.

(** X4. A login that answers 200 found a stored user with the e-mail of
    the body whose hash verifies the password of the body, and the session
    it leaves is the snapshot of that user. *)
Theorem login_needs_matching_hash (body : json) (session : SessionData) (db : Db) :
  status (response (login body session db)) = 200 ->
  exists credentials u,
    loginSchema body = inr credentials
    /\ u ∈ users db
    /\ User.email u = LoginCredentials.email credentials
    /\ bcrypt_compare (LoginCredentials.password credentials) (User.password u) = true
    /\ Routes.session (login body session db) = snapshot u.
Proof.
  unfold login, getUserByEmail. mrun.
  destruct (loginSchema body) as [[|? ?]|credentials] eqn:Hp; [done..|].
  destruct (head _) as [u|] eqn:Hu; [|done].
  destruct (bcrypt_compare _ _) eqn:Hc; cbn [negb]; [|done].
  intros _. exists credentials, u.
  apply head_Some_elem_of in Hu. apply list_elem_of_filter in Hu as [He Hin].
  done.
Qed.

End Session.

(** ** Bodies that a schema refuses *)

Lemma zOptional_inl {A} (p : option json -> parsed A) v l :
  (forall l, p v = inl l -> l <> []) -> zOptional p v = inl l -> l <> [].
Proof.
  intros Hp. unfold zOptional. destruct v; [|discriminate].
  destruct (p _) eqn:E; [|discriminate]. intros [= <-]. by eapply Hp.
Qed.

Lemma zEnum_inl values v l : zEnum values v = inl l -> l <> [].
Proof.
  unfold zEnum. destruct v as [[]|]; try (by intros [= <-]).
  case_bool_decide; [discriminate | by intros [= <-]].
Qed.

Lemma zDefault_inl {A} (p : option json -> parsed A) d v l :
  (forall l, p v = inl l -> l <> []) -> zDefault p d v = inl l -> l <> [].
Proof. intros Hp. unfold zDefault. destruct v; [apply Hp | discriminate]. Qed.

(** Splits the result of a field and, when it is a failure, shows an issue. *)
Ltac field_result k :=
  match goal with
  | |- context [?f (field k ?v)] =>
      let E := fresh "E" in
      destruct (f (field k v)) as [[|? ?]|?] eqn:E;
      [ exfalso;
        first [ by eapply zString_inl in E
              | by eapply zNumber_inl in E
              | by eapply zEnum_inl in E
              | by (eapply zOptional_inl in E; [|intros ?; apply zString_inl])
              | by (eapply zDefault_inl in E; [|intros ?; apply zEnum_inl]) ]
      | | ]
  end.

Section Refusals.
Context `{Externals}.

Lemma insertUserSchema_inl v l : insertUserSchema v = inl l -> l <> [].
Proof.
  unfold insertUserSchema, passwordString.
  cbv zeta. destruct (not_object v); [by intros [= <-]|].
  field_result "name"; [by intros [= <-]|].
  field_result "email"; [by intros [= <-]|].
  field_result "password"; [by intros [= <-]|].
  field_result "address"; [by intros [= <-]|].
  field_result "role"; [by intros [= <-]|].
  discriminate.
Qed.

Lemma insertStoreSchema_inl v l : insertStoreSchema v = inl l -> l <> [].
Proof.
  unfold insertStoreSchema, integerColumn.
  cbv zeta. destruct (not_object v); [by intros [= <-]|].
  field_result "name"; [by intros [= <-]|].
  field_result "email"; [by intros [= <-]|].
  field_result "address"; [by intros [= <-]|].
  field_result "ownerId"; [by intros [= <-]|].
  discriminate.
Qed.

Lemma insertRatingSchema_inl v l : insertRatingSchema v = inl l -> l <> [].
Proof.
  unfold insertRatingSchema, integerColumn.
  cbv zeta. destruct (not_object v); [by intros [= <-]|].
  field_result "userId"; [by intros [= <-]|].
  field_result "storeId"; [by intros [= <-]|].
  field_result "rating"; [by intros [= <-]|].
  field_result "review"; [by intros [= <-]|].
  discriminate.
Qed.

Lemma changePasswordSchema_inl v l : changePasswordSchema v = inl l -> l <> [].
Proof.
  unfold changePasswordSchema, passwordString.
  cbv zeta. destruct (not_object v); [by intros [= <-]|].
  field_result "currentPassword"; [by intros [= <-]|].
  field_result "newPassword"; [by intros [= <-]|].
  discriminate.
Qed.

Lemma requireAuth_passes next session db :
  authenticated session -> requireAuth next session db = next session db.
Proof.
  intros (uid & Hs & Hz). unfold requireAuth. rewrite Hs.
  by destruct (Z.eqb_spec uid 0).
Qed.

Lemma requireAdmin_passes next session db :
  is_admin session = true -> requireAdmin next session db = next session db.
Proof. intros Ha. unfold requireAdmin. by rewrite Ha. Qed.

Lemma try_catch_rejected {A} failure session (r : parsed A) k db l :
  r = inl l -> l <> [] ->
  rejected l session db (try_catch failure session (bind (parse r) k) db).
Proof.
  intros -> Hl. destruct l as [|m l]; [done|].
  exists m. split; [done|]. reflexivity.
Qed.

(** X5. A body that the schema of its endpoint refuses is answered 400
    with the message of the first issue zod collected, and the handler
    stops there: the session and the database are as before. This holds at
    the six endpoints that parse a body, once their middleware let the
    request through. *)
Theorem invalid_body_is_400 (body : json) (env : Env) (session : SessionData)
    (db : Db) (l : list string) :
  (insertUserSchema body = inl l ->
     rejected l session db (register body env session db))
  /\ (loginSchema body = inl l ->
        rejected l session db (login body session db))
  /\ (changePasswordSchema body = inl l -> authenticated session ->
        rejected l session db (changePassword body env session db))
  /\ (insertStoreSchema body = inl l -> is_admin session = true ->
        rejected l session db (postStores body env session db))
  /\ (insertRatingSchema
        (JObj (<[ "userId" := JNum (session_userId session) ]> (spread body))) = inl l ->
      authenticated session ->
        rejected l session db (postRatings body env session db))
  /\ (insertUserSchema body = inl l -> is_admin session = true ->
        rejected l session db (postUsers body env session db)).
Proof.
  split_and!.
  - intros E. apply try_catch_rejected; [done | by eapply insertUserSchema_inl].
  - intros E. apply try_catch_rejected; [done | by eapply loginSchema_inl].
  - intros E Hs. unfold changePassword. rewrite requireAuth_passes by done.
    apply try_catch_rejected; [done | by eapply changePasswordSchema_inl].
  - intros E Hs. unfold postStores. rewrite requireAdmin_passes by done.
    apply try_catch_rejected; [done | by eapply insertStoreSchema_inl].
  - intros E Hs. unfold postRatings. rewrite requireAuth_passes by done.
    apply try_catch_rejected; [done | by eapply insertRatingSchema_inl].
  - intros E Hs. unfold postUsers. rewrite requireAdmin_passes by done.
    apply try_catch_rejected; [done | by eapply insertUserSchema_inl].
Qed.

Lemma getUserByEmail_known (email : string) (db : Db) :
  email ∈ map User.email (users db) ->
  exists u, getUserByEmail email db = (inr (Some u), db).
Proof.
  intros (u & Hu & Hin)%list_elem_of_fmap. unfold getUserByEmail, query.
  destruct (filter _ _) as [|u' l] eqn:E.
  - exfalso. eapply (filter_nil_not_elem_of _ _ u); [exact E | done | exact Hin].
  - by exists u'.
Qed.

(** X6. Registering with an e-mail that a stored user already has is
    answered 400, User already exists, before anything is hashed or
    written; the same holds when an administrator creates the user. *)
Theorem duplicate_email_is_400 (body : json) (env : Env) (session : SessionData)
    (db : Db) (data : InsertUser.t) :
  insertUserSchema body = inr data ->
  InsertUser.email data ∈ map User.email (users db) ->
  register body env session db
    = mkOutcome (message 400 "User already exists") session db
  /\ (is_admin session = true ->
      postUsers body env session db
        = mkOutcome (message 400 "User already exists") session db).
Proof.
  intros Hp Hin. destruct (getUserByEmail_known _ _ Hin) as [u Hu]. split.
  - unfold register. mrun. rewrite Hp. by rewrite Hu.
  - intros Ha. unfold postUsers. rewrite requireAdmin_passes by done.
    mrun. rewrite Hp. by rewrite Hu.
Qed.

End Refusals.

(** ** What every request does to the tables

    A reflexive and transitive relation that the six writing statements of
    [storage.ts] respect is respected by every request. *)

Import Constraints.

Section Writes.
Context `{Externals}.
Context {R : relation Db} `{!Reflexive R, !Transitive R}.

Hypothesis user_added : forall env name email password address role db u db',
  insert_user env name email password address role db = inr (u, db') -> R db db'.
Hypothesis password_set : forall id password db,
  R db (mkDb (map (set_password id password) (users db)) (stores db) (ratings db)
             (users_id_seq db) (stores_id_seq db) (ratings_id_seq db)).
Hypothesis store_added : forall env name email address ownerId db s db',
  insert_store env name email address ownerId db = inr (s, db') -> R db db'.
Hypothesis aggregate_set : forall sid a t db, R db (update_aggregate sid a t db).
Hypothesis rating_added : forall env uid sid v w db row db',
  insert_rating env uid sid v w db = inr (row, db') -> R db db'.
Hypothesis rating_set : forall uid sid v w db,
  R db (mkDb (users db) (stores db) (map (set_rating uid sid uid sid v w) (ratings db))
             (users_id_seq db) (stores_id_seq db) (ratings_id_seq db)).

Lemma createUser_writes env data : keeps R (createUser env data).
Proof.
  unfold createUser. repeat keeps_step.
  apply keeps_statement. intros db u db'. apply user_added.
Qed.

Lemma updateUserPassword_writes id hash : keeps R (updateUserPassword id hash).
Proof.
  unfold updateUserPassword. repeat keeps_step.
  apply keeps_statement. intros db u db' [= _ <-]. apply password_set.
Qed.

Lemma createStore_writes env data : keeps R (createStore env data).
Proof.
  unfold createStore. repeat keeps_step.
  apply keeps_statement. intros db u db'. apply store_added.
Qed.

Lemma recomputed_writes sid row session db o :
  recomputed sid row session db o -> R db (database o).
Proof. intros [a t _|e _]; cbn [database]; [apply aggregate_set | reflexivity]. Qed.

Lemma postRatings_writes body env session db :
  R db (database (postRatings body env session db)).
Proof.
  destruct (postRatings_cases body env session db)
    as [res _|uid data sid v o Ha Hrows Hu Hs row Ho|uid data sid v r rest o Ha Hrows set Ho].
  - reflexivity.
  - etransitivity; [|eapply recomputed_writes; exact Ho].
    apply (rating_added env uid sid v (InsertRating.review data) db row).
    unfold insert_rating.
    rewrite bool_decide_eq_false_2 by (by apply rows_of_nil_key).
    by rewrite !bool_decide_eq_true_2.
  - etransitivity; [|eapply recomputed_writes; exact Ho]. apply rating_set.
Qed.

Lemma handle_writes env req session db :
  R db (database (handle env req session db)).
Proof.
  destruct req; cbn [handle];
    try apply postRatings_writes;
    unfold register, login, logout, me, changePassword, getStores, postStores,
      getStoresOwner, getRatingsStore, getUsers, postUsers, getStatistics_;
    try (destruct (destroyed env); reflexivity);
    repeat first
      [ apply requireAuth_keeps; intros
      | apply requireAdmin_keeps; intros
      | apply try_catch_keeps
      | apply try_catch_all_keeps
      | apply createUser_writes | apply updateUserPassword_writes
      | apply createStore_writes
      | apply getUser_keeps | apply getUserByEmail_keeps | apply getAllUsers_keeps
      | apply getAllStores_keeps | apply searchStores_keeps
      | apply getStoresByOwner_keeps | apply getRatingByUserAndStore_keeps
      | apply getRatingsByStore_keeps | apply getStatistics_keeps
      | keeps_step ].
Qed.

Lemma run_writes trace db : R db (run trace db).
Proof.
  revert db. induction trace as [|e trace IH]; intros db; [reflexivity|].
  cbn [run fold_left]. etransitivity; [|apply IH]. apply handle_writes.
Qed.

End Writes.

(** ** The declared constraints along a run *)

Lemma preserves_refl (P : Db -> Prop) : Reflexive (preserves P).
Proof. intros db. unfold preserves. tauto. Qed.

Lemma preserves_trans (P : Db -> Prop) : Transitive (preserves P).
Proof. intros a b c. unfold preserves. tauto. Qed.

Lemma grows_refl : Reflexive grows.
Proof. intros db. by unfold grows. Qed.

Lemma grows_trans : Transitive grows.
Proof. intros a b c (?&?&?) (?&?&?). unfold grows. split_and!; by etransitivity. Qed.

#[local] Existing Instance preserves_refl.
#[local] Existing Instance preserves_trans.
#[local] Existing Instance grows_refl.
#[local] Existing Instance grows_trans.

Lemma serial_fresh {A} (f : A -> Z) (n : Z) (l : list A) (x : A) :
  Forall (fun y => f y < n) l -> NoDup (map f l) -> f x = n ->
  NoDup (map f (l ++ [x])).
Proof.
  intros Hl Hn Hx. rewrite fmap_app. apply NoDup_app. split; [done|]. split.
  - intros z (y & -> & Hy)%list_elem_of_fmap [E|[]%elem_of_nil]%elem_of_cons.
    rewrite Forall_forall in Hl. apply Hl in Hy. cbn in E. lia.
  - cbn. apply NoDup_singleton.
Qed.

Lemma serial_next {A} (f : A -> Z) (n : Z) (l : list A) (x : A) :
  Forall (fun y => f y < n) l -> f x = n -> Forall (fun y => f y < n + 1) (l ++ [x]).
Proof.
  intros Hl Hx. apply Forall_app. split.
  - eapply Forall_impl; [exact Hl|]. intros y Hy. cbn in *. lia.
  - constructor; [cbn; lia | constructor].
Qed.

Lemma unique_fresh {A B} (f : A -> B) (l : list A) (x : A) :
  NoDup (map f l) -> f x ∉ map f l -> NoDup (map f (l ++ [x])).
Proof.
  intros Hn Hx. rewrite fmap_app. apply NoDup_app. split; [done|]. split.
  - intros z Hz [->|[]%elem_of_nil]%elem_of_cons. done.
  - cbn. apply NoDup_singleton.
Qed.

Lemma references_more {A B C} (f : A -> C) (g : B -> C) (l : list A) (k : list B) (y : B) :
  Forall (fun x => f x ∈ map g k) l -> Forall (fun x => f x ∈ map g (k ++ [y])) l.
Proof.
  intros Hl. eapply Forall_impl; [exact Hl|]. intros x Hx. cbn in *.
  rewrite fmap_app. apply elem_of_app. by left.
Qed.

Lemma references_snoc {A B C} (f : A -> C) (g : B -> C) (l : list A) (k : list B) (x : A) :
  Forall (fun x => f x ∈ map g k) l -> f x ∈ map g k ->
  Forall (fun x => f x ∈ map g k) (l ++ [x]).
Proof. intros Hl Hx. apply Forall_app. split; [done|]. by repeat constructor. Qed.

Lemma fmap_through {A B} (f : A -> B) (g : A -> A) (l : list A) :
  (forall x, f (g x) = f x) -> map f (map g l) = map f l.
Proof.
  intros E. rewrite <- list_fmap_compose. apply list_fmap_ext. intros _ x _. apply E.
Qed.

Lemma Forall_through {A} (P Q : A -> Prop) (g : A -> A) (l : list A) :
  (forall x, P x -> Q (g x)) -> Forall P l -> Forall Q (map g l).
Proof. intros E Hl. rewrite Forall_fmap. eapply Forall_impl; [exact Hl|]. exact E. Qed.

Lemma set_password_identity id p u : user_identity (set_password id p u) = user_identity u.
Proof. unfold set_password. by case_bool_decide. Qed.

Lemma set_aggregate_identity sid a t s :
  store_identity (set_aggregate sid a t s) = store_identity s.
Proof. unfold set_aggregate. by case_bool_decide. Qed.

Lemma set_rating_identity uid sid v w r :
  rating_identity (set_rating uid sid uid sid v w r) = rating_identity r.
Proof.
  unfold set_rating. case_bool_decide as E; [|done].
  unfold key in E. injection E as <- <-. done.
Qed.

Section ConstraintsKept.
Context `{Externals}.

Lemma insert_user_integrity env name email password address role db u db' :
  insert_user env name email password address role db = inr (u, db') ->
  preserves integrity db db'.
Proof.
  unfold insert_user. case_bool_decide as He; [discriminate|].
  intros [= <- <-] [].
  split; cbn [users stores ratings users_id_seq stores_id_seq ratings_id_seq]; try done.
  - by apply (serial_fresh _ (users_id_seq db)).
  - by apply unique_fresh.
  - by apply serial_next.
  - by apply references_more.
  - by apply references_more.
Qed.

Lemma set_password_integrity id password db :
  preserves integrity db
    (mkDb (map (set_password id password) (users db)) (stores db) (ratings db)
          (users_id_seq db) (stores_id_seq db) (ratings_id_seq db)).
Proof.
  assert (forall u, User.id (set_password id password u) = User.id u) as Hid.
  { intros u. unfold set_password. by case_bool_decide. }
  assert (forall u, User.email (set_password id password u) = User.email u) as Hemail.
  { intros u. unfold set_password. by case_bool_decide. }
  intros [? ? Hserial ? ? ? ? ? ? ? ? ?].
  split; cbn [users stores ratings users_id_seq stores_id_seq ratings_id_seq];
    rewrite ?fmap_through by done; try done.
  eapply Forall_through; [|exact Hserial]. intros u. cbn. by rewrite Hid.
Qed.

Lemma insert_store_integrity env name email address ownerId db s db' :
  insert_store env name email address ownerId db = inr (s, db') ->
  preserves integrity db db'.
Proof.
  unfold insert_store. case_bool_decide as He; [discriminate|].
  case_bool_decide as Ho; [|discriminate].
  intros [= <- <-] [].
  split; cbn [users stores ratings users_id_seq stores_id_seq ratings_id_seq]; try done.
  - by apply (serial_fresh _ (stores_id_seq db)).
  - by apply unique_fresh.
  - by apply serial_next.
  - by apply references_snoc.
  - by apply references_more.
Qed.

Lemma update_aggregate_integrity sid a t db :
  preserves integrity db (update_aggregate sid a t db).
Proof.
  assert (forall s, Store.email (set_aggregate sid a t s) = Store.email s) as Hemail.
  { intros s. unfold set_aggregate. by case_bool_decide. }
  assert (forall s, Store.ownerId (set_aggregate sid a t s) = Store.ownerId s) as Ho.
  { intros s. unfold set_aggregate. by case_bool_decide. }
  intros [? ? ? ? ? Hserial Howner ? ? ? ? ?].
  split; cbn [update_aggregate users stores ratings users_id_seq stores_id_seq ratings_id_seq];
    rewrite ?(fmap_through Store.id) by apply set_aggregate_id;
    rewrite ?fmap_through by done; try done.
  - eapply Forall_through; [|exact Hserial]. intros s. cbn. by rewrite set_aggregate_id.
  - eapply Forall_through; [|exact Howner]. intros s. cbn. by rewrite Ho.
Qed.

Lemma insert_rating_integrity env uid sid v w db row db' :
  insert_rating env uid sid v w db = inr (row, db') -> preserves integrity db db'.
Proof.
  intros (Hu & Hs & Hk & -> & ->)%insert_rating_inr [].
  split; cbn [users stores ratings users_id_seq stores_id_seq ratings_id_seq]; try done.
  - by apply (serial_fresh _ (ratings_id_seq db)).
  - by apply serial_next.
  - by apply unique_fresh.
  - by apply references_snoc.
  - by apply references_snoc.
Qed.

Lemma set_rating_integrity uid sid v w db :
  preserves integrity db
    (mkDb (users db) (stores db) (map (set_rating uid sid uid sid v w) (ratings db))
          (users_id_seq db) (stores_id_seq db) (ratings_id_seq db)).
Proof.
  assert (forall r, Rating.id (set_rating uid sid uid sid v w r) = Rating.id r) as Hid.
  { intros r. unfold set_rating. by case_bool_decide. }
  assert (forall r, Rating.userId (set_rating uid sid uid sid v w r) = Rating.userId r) as Hu.
  { intros r. pose proof (set_rating_key uid sid v w r) as E. unfold key in E. congruence. }
  intros [? ? ? ? ? ? ? ? Hserial ? Huser Hstore].
  split; cbn [users stores ratings users_id_seq stores_id_seq ratings_id_seq];
    rewrite ?(fmap_through key) by apply set_rating_key;
    rewrite ?fmap_through by done; try done.
  - eapply Forall_through; [|exact Hserial]. intros r. cbn. by rewrite Hid.
  - eapply Forall_through; [|exact Huser]. intros r. cbn. by rewrite Hu.
  - eapply Forall_through; [|exact Hstore]. intros r. cbn. by rewrite set_rating_storeId.
Qed.

Lemma integrity_empty : integrity Pg.empty.
Proof. split; cbn; constructor. Qed.

(** One request carries the declared constraints over. *)
Lemma serve_integrity (e : Event) (db : Db) :
  integrity db -> integrity (database (serve e db)).
Proof.
  apply (handle_writes (R := preserves integrity)).
  - apply insert_user_integrity.
  - apply set_password_integrity.
  - apply insert_store_integrity.
  - apply update_aggregate_integrity.
  - apply insert_rating_integrity.
  - apply set_rating_integrity.
Qed.

Lemma run_integrity (trace : list Event) (db : Db) :
  integrity db -> integrity (run trace db).
Proof.
  revert db. induction trace as [|e trace IH]; intros db Hi; [done|].
  cbn [run fold_left]. apply IH. by apply serve_integrity.
Qed.

(** X7. Every request carries the declared constraints over: ids and
    e-mails stay unique, one rating per user and store, every store has an
    owner among the users and every rating a user and a store, and the
    serial sequences stay ahead of the ids. So they hold after any
    sequence of requests that starts from tables where they hold. *)
Theorem constraints_hold (trace : list Event) (db : Db) :
  integrity db -> integrity (run trace db).
Proof.
  revert db. induction trace as [|e trace IH]; intros db Hi.
  - exact Hi.
  - change (integrity (run trace (database (serve e db)))).
    apply IH. by apply serve_integrity.
Qed.

(** X8. No request deletes a row or rewrites the identity of a row:
    after any sequence of requests every user is still there with the same
    id, name, e-mail and role, every store with the same id, name, e-mail,
    address and owner, and every rating with the same id, user and
    store. *)
Theorem rows_are_kept (trace : list Event) (db : Db) : grows db (run trace db).
Proof.
  apply (run_writes (R := grows)).
  - intros env name email password address role d u d'. unfold insert_user.
    case_bool_decide; [discriminate|]. intros [= <- <-].
    split_and!; cbn [users stores ratings]; [|done..].
    rewrite fmap_app. by apply submseteq_inserts_r.
  - intros id password d. split_and!; cbn [users stores ratings]; [|done..].
    by rewrite fmap_through by apply set_password_identity.
  - intros env name email address ownerId d s d'. unfold insert_store.
    case_bool_decide; [discriminate|]. case_bool_decide; [|discriminate].
    intros [= <- <-].
    split_and!; cbn [users stores ratings]; [done| |done].
    rewrite fmap_app. by apply submseteq_inserts_r.
  - intros sid a t d. split_and!; cbn [update_aggregate users stores ratings]; [done| |done].
    by rewrite fmap_through by apply set_aggregate_identity.
  - intros env uid sid v w d row d' (_ & _ & _ & -> & ->)%insert_rating_inr.
    split_and!; cbn [users stores ratings]; [done..|].
    rewrite fmap_app. by apply submseteq_inserts_r.
  - intros uid sid v w d. split_and!; cbn [users stores ratings]; [done..|].
    by rewrite fmap_through by apply set_rating_identity.
Qed.

End ConstraintsKept.

(** ** Registering, changing the password and logging in *)

Lemma varchar_fits (n : nat) (s : string) :
  (String.length s <= n)%nat -> varchar n s = inr s.
Proof. intros Hs. unfold varchar. by rewrite (proj2 (Nat.leb_le _ _) Hs). Qed.

Lemma head_filter_unique {A B} `{EqDecision B} (f : A -> B) (l : list A) (x : A) :
  NoDup (map f l) -> x ∈ l -> head (filter (fun y => f y = f x) l) = Some x.
Proof.
  induction l as [|y l IH]; intros Hn Hx; [by apply elem_of_nil in Hx|].
  cbn [fmap list_fmap] in Hn. apply NoDup_cons in Hn as [Hy Hn].
  rewrite filter_cons. apply elem_of_cons in Hx as [<-|Hx].
  - by rewrite decide_True.
  - rewrite decide_False; [by apply IH|].
    intros E. apply Hy. rewrite E. apply list_elem_of_fmap. by exists x.
Qed.

Lemma head_filter_fresh {A B} `{EqDecision B} (f : A -> B) (l : list A) (x : A) :
  f x ∉ map f l -> head (filter (fun y => f y = f x) (l ++ [x])) = Some x.
Proof.
  intros Hx. rewrite filter_app.
  assert (filter (fun y => f y = f x) l = []) as ->.
  { destruct (filter _ l) as [|y k] eqn:E; [done|]. exfalso. apply Hx.
    assert (y ∈ filter (fun y => f y = f x) l) as [Hy Hin]%list_elem_of_filter
      by (rewrite E; left).
    rewrite <- Hy. apply list_elem_of_fmap. by exists y. }
  rewrite filter_cons, decide_True by done. done.
Qed.

Lemma filter_fmap_through {A B} `{EqDecision B} (f : A -> B) (g : A -> A) (b : B)
    (l : list A) :
  (forall x, f (g x) = f x) ->
  filter (fun y => f y = b) (map g l) = map g (filter (fun y => f y = b) l).
Proof.
  intros E. induction l as [|x l IH]; [done|]. cbn [fmap list_fmap].
  rewrite !filter_cons, E, IH. by case_decide.
Qed.

Section Accounts.
Context `{Externals}.

Lemma insertUserSchema_fields (v : json) (data : InsertUser.t) :
  insertUserSchema v = inr data ->
  zString [ minLen 20 "Name must be at least 20 characters";
            maxLen 60 "Name must not exceed 60 characters" ]
          (field "name" v) = inr (InsertUser.name data)
  /\ zString [ email_ "Invalid email format" ] (field "email" v)
     = inr (InsertUser.email data)
  /\ passwordString (field "password" v) = inr (InsertUser.password data)
  /\ InsertUser.role data ∈ roles.
Proof.
  unfold insertUserSchema. destruct (not_object v); [discriminate|].
  destruct (zString _ (field "name" v)), (zString _ (field "email" v)),
    (passwordString (field "password" v)), (zOptional _ (field "address" v)),
    (zDefault _ _ (field "role" v)) as [|role] eqn:Hrole; try discriminate.
  intros [= <-]. cbn [InsertUser.name InsertUser.email InsertUser.password InsertUser.role].
  split_and!; try done.
  revert Hrole. unfold zDefault, zEnum, roles.
  destruct (field "role" v) as [[]|]; try discriminate.
  - case_bool_decide; [|discriminate]. by intros [= <-].
  - intros [= <-]. set_solver.
Qed.

Lemma accepted_user_fits (v : json) (data : InsertUser.t) :
  insertUserSchema v = inr data ->
  varchar 60 (InsertUser.name data) = inr (InsertUser.name data)
  /\ varchar 20 (InsertUser.role data) = inr (InsertUser.role data).
Proof.
  intros (Hn & _ & _ & Hr)%insertUserSchema_fields. split.
  - apply zString_inr in Hn as [_ Hn].
    apply failed_cons in Hn as [_ Hn]. apply failed_cons in Hn as [Hn _].
    apply varchar_fits. cbn in Hn. by apply Nat.leb_le.
  - unfold roles in Hr. repeat (apply elem_of_cons in Hr as [->|Hr]; [done|]).
    by apply elem_of_nil in Hr.
Qed.

(** A registration that validates, with an e-mail that is new and fits
    its column, appends the user with the hash of the password. *)
Lemma register_appends (body : json) (env : Env) (session : SessionData) (db : Db)
    (data : InsertUser.t) :
  insertUserSchema body = inr data ->
  InsertUser.email data ∉ map User.email (users db) ->
  (String.length (InsertUser.email data) <= 255)%nat ->
  (String.length (bcrypt_hash (salt env) (InsertUser.password data)) <= 255)%nat ->
  let u := User.mk (users_id_seq db) (InsertUser.name data) (InsertUser.email data)
                   (bcrypt_hash (salt env) (InsertUser.password data))
                   (InsertUser.address data) (InsertUser.role data)
                   (Some (now env)) (Some (now env)) in
  register body env session db
  = mkOutcome (json_ (JObj {[ "user" := JObj (userWithoutPassword u) ]})) session
              (mkDb (users db ++ [u]) (stores db) (ratings db)
                    (users_id_seq db + 1) (stores_id_seq db) (ratings_id_seq db)).
Proof.
  intros Hp Hnew He Hh u.
  destruct (accepted_user_fits _ _ Hp) as [Hn Hr].
  unfold register, getUserByEmail, createUser. mrun. rewrite Hp.
  destruct (head _) as [existing|] eqn:Hex.
  { exfalso. apply Hnew. apply head_Some_elem_of in Hex.
    apply list_elem_of_filter in Hex as [<- Hin]. apply list_elem_of_fmap. by exists existing. }
  rewrite Hn, Hr, !varchar_fits by done.
  unfold insert_user. by rewrite bool_decide_eq_false_2.
Qed.

Lemma login_accepts (body : json) (session : SessionData) (db : Db)
    (u : User.t) (password : string) :
  loginSchema body = inr (LoginCredentials.mk (User.email u) password) ->
  head (filter (fun y => User.email y = User.email u) (users db)) = Some u ->
  login body session db
  = if bcrypt_compare password (User.password u)
    then mkOutcome (json_ (JObj {[ "user" := JObj (userWithoutPassword u) ]}))
                   (snapshot u) db
    else mkOutcome (message 401 "Invalid credentials") session db.
Proof.
  intros Hp Hu. unfold login, getUserByEmail. mrun. rewrite Hp.
  cbn [LoginCredentials.email LoginCredentials.password]. rewrite Hu.
  by destruct (bcrypt_compare _ _).
Qed.

(** X9. Registration and login compose: a user who registered with an
    e-mail that was free (and that, like the hash, fits its column) is
    stored with the requested role, and the same e-mail and password then
    log in, the session taking the snapshot of the stored user. The
    assumption on bcrypt is that the hash it made verifies the password. *)
Theorem register_then_login (body body' : json) (env : Env)
    (session session' : SessionData) (db : Db) (data : InsertUser.t) :
  insertUserSchema body = inr data ->
  InsertUser.email data ∉ map User.email (users db) ->
  (String.length (InsertUser.email data) <= 255)%nat ->
  (String.length (bcrypt_hash (salt env) (InsertUser.password data)) <= 255)%nat ->
  bcrypt_compare (InsertUser.password data)
                 (bcrypt_hash (salt env) (InsertUser.password data)) = true ->
  loginSchema body'
    = inr (LoginCredentials.mk (InsertUser.email data) (InsertUser.password data)) ->
  let registered := register body env session db in
  let logged := login body' session' (database registered) in
  exists u,
    users (database registered) = users db ++ [u]
    /\ User.email u = InsertUser.email data
    /\ User.role u = InsertUser.role data
    /\ status (response registered) = 200
    /\ status (response logged) = 200
    /\ Routes.session logged = snapshot u.
Proof.
  intros Hp Hnew He Hh Hc Hl registered logged. subst registered logged.
  rewrite (register_appends _ _ _ _ _ Hp Hnew He Hh). cbn [database].
  set (u := User.mk (users_id_seq db) (InsertUser.name data) (InsertUser.email data)
                    (bcrypt_hash (salt env) (InsertUser.password data))
                    (InsertUser.address data) (InsertUser.role data)
                    (Some (now env)) (Some (now env))).
  exists u. split; [reflexivity|]. split; [reflexivity|]. split; [reflexivity|].
  split; [reflexivity|].
  rewrite (login_accepts body' session' _ u (InsertUser.password data)).
  - cbn [User.password u]. by rewrite Hc.
  - exact Hl.
  - cbn [users]. by apply (head_filter_fresh User.email).
Qed.

Lemma getUser_known (u : User.t) (db : Db) :
  NoDup (map User.id (users db)) -> u ∈ users db ->
  -2147483648 <= User.id u <= 2147483647 ->
  getUser (Num (num (User.id u))) db = (inr (Some u), db).
Proof.
  intros Hn Hu Hr. unfold getUser. mrun. rewrite int4_num by done.
  by rewrite (head_filter_unique User.id).
Qed.

Lemma set_password_hit id password u :
  User.id u = id ->
  set_password id password u
  = User.mk (User.id u) (User.name u) (User.email u) password
            (User.address u) (User.role u) (User.createdAt u) (User.updatedAt u).
Proof. intros E. unfold set_password. by rewrite bool_decide_eq_true_2. Qed.

(** A change of password that validates and gives the current password. *)
Lemma changePassword_sets (body : json) (env : Env) (session : SessionData) (db : Db)
    (data : ChangePasswordData.t) (u : User.t) :
  NoDup (map User.id (users db)) -> u ∈ users db ->
  -2147483648 <= User.id u <= 2147483647 ->
  userId session = Some (User.id u) -> User.id u <> 0 ->
  changePasswordSchema body = inr data ->
  let hash := bcrypt_hash (salt env) (ChangePasswordData.newPassword data) in
  (String.length hash <= 255)%nat ->
  changePassword body env session db
  = if bcrypt_compare (ChangePasswordData.currentPassword data) (User.password u)
    then mkOutcome (json_ (JObj {[ "message" := JStr "Password updated successfully" ]}))
                   session
                   (mkDb (map (set_password (User.id u) hash) (users db))
                         (stores db) (ratings db)
                         (users_id_seq db) (stores_id_seq db) (ratings_id_seq db))
    else mkOutcome (message 401 "Current password is incorrect") session db.
Proof.
  intros Hn Hu Hr Hs Hz Hp hash Hh. unfold changePassword.
  rewrite requireAuth_passes by (by exists (User.id u)).
  unfold session_userId. rewrite Hs. cbn [default from_option id].
  unfold try_catch, bind at 1, parse. rewrite Hp.
  unfold ret at 1, bind at 1. rewrite (getUser_known u db Hn Hu Hr).
  destruct (bcrypt_compare _ _); cbn [negb]; [|reflexivity].
  unfold updateUserPassword. mrun. rewrite int4_num by done.
  fold hash. by rewrite varchar_fits.
Qed.

(** X10. After a successful change of password the new password logs
    in and a password that the new hash does not verify is answered 401.
    The users are assumed to have distinct ids and e-mails, as the tables
    declare, and bcrypt to verify the password it hashed. *)
Theorem change_password_then_login (body body' : json) (env : Env)
    (session session' : SessionData) (db : Db)
    (data : ChangePasswordData.t) (u : User.t) :
  integrity db -> u ∈ users db ->
  -2147483648 <= User.id u <= 2147483647 ->
  userId session = Some (User.id u) -> User.id u <> 0 ->
  changePasswordSchema body = inr data ->
  bcrypt_compare (ChangePasswordData.currentPassword data) (User.password u) = true ->
  let hash := bcrypt_hash (salt env) (ChangePasswordData.newPassword data) in
  (String.length hash <= 255)%nat ->
  bcrypt_compare (ChangePasswordData.newPassword data) hash = true ->
  let changed := changePassword body env session db in
  status (response changed) = 200
  /\ (loginSchema body'
        = inr (LoginCredentials.mk (User.email u) (ChangePasswordData.newPassword data)) ->
      status (response (login body' session' (database changed))) = 200
      /\ Routes.session (login body' session' (database changed)) = snapshot u)
  /\ (forall password,
        loginSchema body' = inr (LoginCredentials.mk (User.email u) password) ->
        bcrypt_compare password hash = false ->
        login body' session' (database changed)
        = mkOutcome (message 401 "Invalid credentials") session' (database changed)).
Proof.
  intros Hi Hu Hr Hs Hz Hp Hc hash Hh Hnew changed. subst changed.
  rewrite (changePassword_sets _ _ _ _ _ _ (users_pk _ Hi) Hu Hr Hs Hz Hp Hh), Hc.
  fold hash. cbn [database response status json_].
  set (db' := mkDb (map (set_password (User.id u) hash) (users db)) (stores db)
                   (ratings db) (users_id_seq db) (stores_id_seq db) (ratings_id_seq db)).
  set (u' := set_password (User.id u) hash u).
  assert (User.email u' = User.email u) as He by (subst u'; by rewrite set_password_hit).
  assert (User.password u' = hash) as Hpw by (subst u'; by rewrite set_password_hit).
  assert (snapshot u' = snapshot u) as Hsn by (subst u'; by rewrite set_password_hit).
  assert (head (filter (fun y => User.email y = User.email u') (users db')) = Some u')
    as Hfind.
  { rewrite He. subst db'. cbn [users]. rewrite (filter_fmap_through User.email).
    - pose proof (head_filter_unique User.email (users db) u
                    (users_email_unique _ Hi) Hu) as E.
      destruct (filter _ (users db)) as [|y k]; [discriminate|].
      cbn in E |- *. by injection E as ->.
    - intros x. unfold set_password. by case_bool_decide. }
  split; [done|]. split.
  - intros Hl. rewrite <- He in Hl.
    rewrite (login_accepts body' session' db' u' _ Hl Hfind), Hpw, Hnew.
    cbn [response status json_ Routes.session]. by rewrite Hsn.
  - intros password Hl Hbad. rewrite <- He in Hl.
    by rewrite (login_accepts body' session' db' u' _ Hl Hfind), Hpw, Hbad.
Qed.

End Accounts.

Section PasswordChange.
Context `{Externals}.

(** X11. A change of password whose current password the stored hash
    does not verify is answered 401, Current password is incorrect, and
    nothing is written: the stored hash stays. *)
Theorem wrong_current_password_is_401 (body : json) (env : Env)
    (session : SessionData) (db : Db) (data : ChangePasswordData.t) (u : User.t) :
  NoDup (map User.id (users db)) -> u ∈ users db ->
  -2147483648 <= User.id u <= 2147483647 ->
  userId session = Some (User.id u) -> User.id u <> 0 ->
  changePasswordSchema body = inr data ->
  bcrypt_compare (ChangePasswordData.currentPassword data) (User.password u) = false ->
  changePassword body env session db
  = mkOutcome (message 401 "Current password is incorrect") session db.
Proof.
  intros Hn Hu Hr Hs Hz Hp Hc. unfold changePassword.
  rewrite requireAuth_passes by (by exists (User.id u)).
  unfold session_userId. rewrite Hs. cbn [default from_option id].
  unfold try_catch, bind at 1, parse. rewrite Hp.
  unfold ret at 1, bind at 1. rewrite (getUser_known u db Hn Hu Hr).
  by rewrite Hc.
Qed.

Lemma getUser_unknown (uid : Z) (db : Db) :
  -2147483648 <= uid <= 2147483647 -> uid ∉ map User.id (users db) ->
  getUser (Num (num uid)) db = (inr None, db).
Proof.
  intros Hr Hu. unfold getUser. mrun. rewrite int4_num by done.
  destruct (filter _ _) as [|u l] eqn:E; [done|]. exfalso. apply Hu.
  assert (u ∈ filter (fun u => User.id u = uid) (users db)) as [Hy Hin]%list_elem_of_filter
    by (rewrite E; left).
  apply list_elem_of_fmap. by exists u.
Qed.

(** X12. A session whose user id has no row in [users] is answered
    404, User not found, by [GET /api/auth/me] and, once the body
    validates, by the change of password; nothing is written. *)
Theorem unknown_session_user_is_404 (body : json) (env : Env)
    (session : SessionData) (db : Db) (uid : Z) :
  userId session = Some uid -> uid <> 0 ->
  -2147483648 <= uid <= 2147483647 ->
  uid ∉ map User.id (users db) ->
  me session db = mkOutcome (message 404 "User not found") session db
  /\ (forall data, changePasswordSchema body = inr data ->
      changePassword body env session db
      = mkOutcome (message 404 "User not found") session db).
Proof.
  intros Hs Hz Hr Hu. split.
  - unfold me. rewrite requireAuth_passes by (by exists uid).
    unfold session_userId. rewrite Hs. cbn [default from_option id].
    unfold try_catch_all, bind. by rewrite getUser_unknown.
  - intros data Hp. unfold changePassword.
    rewrite requireAuth_passes by (by exists uid).
    unfold session_userId. rewrite Hs. cbn [default from_option id].
    unfold try_catch, bind at 1, parse. rewrite Hp.
    unfold ret at 1, bind. by rewrite getUser_unknown.
Qed.

End PasswordChange.

(** ** Searching stores *)

Import Searching.

Lemma like_percent_cons p c s :
  like_chars ("%"%char :: p) (c :: s)
  = like_chars p (c :: s) || like_chars ("%"%char :: p) s.
Proof. reflexivity. Qed.

Lemma like_percent_nil p : like_chars ("%"%char :: p) [] = like_chars p [] || false.
Proof. reflexivity. Qed.

Lemma like_percent p s :
  like_chars ("%"%char :: p) s = true
  <-> exists a b, s = a ++ b /\ like_chars p b = true.
Proof.
  induction s as [|c s IH].
  - rewrite like_percent_nil, orb_false_r. split.
    + intros E. by exists [], [].
    + intros (a & b & E & Hb). symmetry in E. apply app_eq_nil in E as [_ ->]. done.
  - rewrite like_percent_cons, orb_true_iff, IH. split.
    + intros [E|(a & b & -> & Hb)]; [by exists [], (c :: s) | by exists (c :: a), b].
    + intros ([|c' a] & b & E & Hb).
      * left. cbn in E. by subst b.
      * right. injection E as -> ->. by exists a, b.
Qed.

Lemma like_literal c p s :
  c ∉ wildcards ->
  like_chars (c :: p) s
  = match s with
    | [] => false
    | c' :: s' => bool_decide (c = c') && like_chars p s'
    end.
Proof.
  intros Hc.
  destruct c as [[] [] [] [] [] [] [] []]; try reflexivity;
    exfalso; apply Hc; unfold wildcards; set_solver.
Qed.

Lemma like_literals q p s :
  Forall (fun c => c ∉ wildcards) q ->
  like_chars (q ++ p) s = true <-> exists b, s = q ++ b /\ like_chars p b = true.
Proof.
  intros Hq. revert s. induction Hq as [|c q Hc Hq IH]; intros s.
  - cbn. split; [by exists s | by intros (b & -> & Hb)].
  - cbn [app]. rewrite like_literal by done. destruct s as [|c' s].
    + split; [done | by intros (b & E & _)].
    + rewrite andb_true_iff, bool_decide_eq_true, IH. split.
      * intros (-> & b & -> & Hb). by exists b.
      * intros (b & E & Hb). injection E as -> ->. split; [done | by exists b].
Qed.

Lemma like_all s : like_chars ["%"%char] s = true.
Proof. apply like_percent. exists s, []. by rewrite app_nil_r. Qed.

Lemma chars_append (a b : string) :
  list_ascii_of_string (a +:+ b) = list_ascii_of_string a ++ list_ascii_of_string b.
Proof.
  induction a as [|c a IH]; [done|].
  change (c :: list_ascii_of_string (a +:+ b)
          = c :: (list_ascii_of_string a ++ list_ascii_of_string b)).
  by f_equal.
Qed.

(** On a query without wildcard the pattern that [searchStores] builds
    matches the strings in which the query occurs. *)
Lemma like_occurs (q column : string) :
  literal q -> like column ("%" +:+ q +:+ "%") = true <-> occurs q column.
Proof.
  intros Hq. unfold like, occurs. rewrite !chars_append.
  change (list_ascii_of_string "%") with ["%"%char]. cbn [app].
  rewrite like_percent. split.
  - intros (a & b & E & (c & -> & _)%like_literals); [|done].
    exists (string_of_list_ascii a), (string_of_list_ascii c).
    rewrite <- (string_of_list_ascii_of_string column), E.
    rewrite <- (string_of_list_ascii_of_string q) at 2.
    clear. induction a as [|x a IH]; cbn.
    + induction (list_ascii_of_string q) as [|y l IH]; cbn; [done | by rewrite IH].
    + by rewrite IH.
  - intros (a & b & ->). exists (list_ascii_of_string a), (list_ascii_of_string (q +:+ b)).
    split; [by rewrite !chars_append|].
    rewrite chars_append. apply like_literals; [done|].
    exists (list_ascii_of_string b). split; [done | apply like_all].
Qed.

Section OrderByPermutation.
Context {A : Type} (le : A -> A -> bool).

Lemma insert_sorted_Permutation (x : A) (l : list A) : insert_sorted le x l ≡ₚ x :: l.
Proof.
  induction l as [|y l IH]; cbn [insert_sorted]; [done|].
  destruct (le x y); [done|]. rewrite IH. apply Permutation_swap.
Qed.

Lemma orderBy_Permutation (l : list A) : orderBy le l ≡ₚ l.
Proof.
  induction l as [|x l IH]; cbn [orderBy]; [done|].
  by rewrite insert_sorted_Permutation, IH.
Qed.
End OrderByPermutation.

Section Search.
Context `{Externals}.

(** X13. For a query without [%], [_] or backslash, [searchStores]
    returns the stores in whose name or address the query occurs, and no
    other; it returns no row more often than the table has it. *)
Theorem search_finds_occurrences (q : string) (db : Db) :
  literal q ->
  exists found,
    searchStores q db = (inr found, db)
    /\ found ⊆+ stores db
    /\ forall s, s ∈ found <->
         s ∈ stores db /\ (occurs q (Store.name s) \/ occurs q (Store.address s)).
Proof.
  intros Hq. unfold searchStores, query. eexists. split; [reflexivity|]. split.
  - rewrite orderBy_Permutation. apply sublist_submseteq, sublist_filter.
  - intros s. rewrite orderBy_Permutation, list_elem_of_filter.
    rewrite Is_true_true, orb_true_iff, !like_occurs by done. tauto.
Qed.

Lemma like_percents p s :
  Forall (fun c => c = "%"%char) p -> like_chars ("%"%char :: p) s = true.
Proof.
  intros Hp. apply like_percent. exists s, []. split; [by rewrite app_nil_r|].
  induction Hp as [|c p -> _ IH]; [done|]. by rewrite like_percent_nil, IH.
Qed.

(** X14. The wildcards of [LIKE] are passed on as they come: a query
    made of percent signs only (and the empty query) matches every store,
    so that [searchStores] answers what [getAllStores] answers. *)
Theorem search_percent_lists_all (q : string) (db : Db) :
  Forall (fun c => c = "%"%char) (list_ascii_of_string q) ->
  searchStores q db = getAllStores db.
Proof.
  intros Hq. unfold searchStores, getAllStores, query. do 2 f_equal. f_equal.
  assert (forall column, like column ("%" +:+ q +:+ "%") = true) as Hall.
  { intros column. unfold like. rewrite !chars_append. cbn [app list_ascii_of_string].
    apply like_percents. apply Forall_app. split; [done | by repeat constructor]. }
  induction (stores db) as [|s l IH]; [done|].
  rewrite filter_cons, IH, decide_True; [done|]. by rewrite Hall.
Qed.

(** X15. [GET /api/users] lists every user exactly once, in ascending
    order of the name, each without the password: the body is the array of
    the stripped rows of a permutation of the table. *)
Theorem users_listing_is_complete (session : SessionData) (db : Db) :
  is_admin session = true ->
  exists listed,
    getUsers session db
    = mkOutcome (json_ (JArr (map (fun u => JObj (userWithoutPassword u)) listed)))
                session db
    /\ listed ≡ₚ users db
    /\ ascending (map User.name listed).
Proof.
  intros Ha. unfold getUsers. rewrite requireAdmin_passes by done.
  unfold try_catch_all, getAllUsers. mrun.
  eexists. split; [by rewrite <- list_fmap_compose|]. split.
  - apply orderBy_Permutation.
  - unfold ascending.
    eapply Sorted_fmap;
      [|apply (orderBy_Sorted (fun a b => collate_leb (User.name a) (User.name b)))];
      [done | intros a b; apply collate_total].
Qed.

End Search.

(** ** Constraints that the schemas do not check *)

Section Violations.
Context `{Externals}.

Lemma varchar_inl (n : nat) (s : string) (e : exn) :
  varchar n s = inl e -> e = DbError "value too long for type character varying".
Proof.
  unfold varchar. destruct (_ <=? _)%nat; [discriminate|].
  destruct (forallb _ _); [discriminate | by intros [= <-]].
Qed.

Lemma insertStoreSchema_inr (v : json) (data : InsertStore.t) :
  insertStoreSchema v = inr data ->
  varchar 255 (InsertStore.name data) = inr (InsertStore.name data)
  /\ exists ownerId, InsertStore.ownerId data = num ownerId
                     /\ int4 (Num (InsertStore.ownerId data)) = inr ownerId.
Proof.
  unfold insertStoreSchema. destruct (not_object v); [discriminate|].
  destruct (zString _ (field "name" v)) as [|name] eqn:Hn; [discriminate|].
  destruct (zString _ (field "email" v)) as [|email]; [discriminate|].
  destruct (zString _ (field "address" v)) as [|address]; [discriminate|].
  destruct (integerColumn (field "ownerId" v)) as [|ownerId] eqn:Ho; [discriminate|].
  intros [= <-]. cbn [InsertStore.name InsertStore.ownerId]. split.
  - apply zString_inr in Hn as [_ Hn].
    apply failed_cons in Hn as [_ Hn]. apply failed_cons in Hn as [Hn _].
    apply varchar_fits. cbn in Hn. by apply Nat.leb_le.
  - apply integerColumn_inr in Ho as (z & _ & -> & Hz). by exists z.
Qed.

(** X16. [insertStoreSchema] checks neither that the owner exists nor that
    the e-mail is new. An administrator who posts a valid store whose
    owner id is no user's id, or whose e-mail another store has, is
    answered 500, Failed to create store, and no table changes. *)
Theorem store_constraint_violation_is_500 (body : json) (env : Env)
    (session : SessionData) (db : Db) (data : InsertStore.t) (ownerId : Z) :
  is_admin session = true ->
  insertStoreSchema body = inr data ->
  InsertStore.ownerId data = num ownerId ->
  ownerId ∉ map User.id (users db)
  \/ ((String.length (InsertStore.email data) <= 255)%nat
      /\ InsertStore.email data ∈ map Store.email (stores db)) ->
  let o := postStores body env session db in
  response o = message 500 "Failed to create store"
  /\ Routes.session o = session
  /\ same_tables db (database o).
Proof.
  intros Ha Hp Ho Hbad o. subst o. unfold postStores.
  rewrite requireAdmin_passes by done.
  destruct (insertStoreSchema_inr _ _ Hp) as (Hn & z & Hz & H4).
  assert (z = ownerId) as -> by (apply num_inj; congruence).
  unfold createStore. mrun. rewrite Hp, Hn, H4.
  destruct (varchar 255 (InsertStore.email data)) as [e|email] eqn:He;
    [apply varchar_inl in He as ->; by repeat split|].
  unfold insert_store.
  case_bool_decide as Hdup; [by repeat split|].
  case_bool_decide as Hown; cbn [negb]; [|by repeat split].
  exfalso. destruct Hbad as [Hbad|[Hlen Hbad]]; [done|]. apply Hdup.
  rewrite varchar_fits in He by done. by injection He as <-.
Qed.

End Violations.

Section RatingEdges.
Context `{Externals}.

Lemma int4_inl (n : number) (e : exn) : int4 n = inl e -> exists detail, e = DbError detail.
Proof.
  unfold int4. destruct n as [q|]; [|by intros [= <-]; eexists].
  destruct (isInteger q); [|by intros [= <-]; eexists].
  destruct (_ && _); [discriminate | by intros [= <-]; eexists].
Qed.

(** What the schema tells about a submission that it accepts. *)
Lemma accepted_rating (body : json) (uid : Z) (data : InsertRating.t) :
  insertRatingSchema (JObj (<[ "userId" := JNum uid ]> (spread body))) = inr data ->
  InsertRating.userId data = num uid
  /\ int4 (Num (num uid)) = inr uid
  /\ exists sid, InsertRating.storeId data = num sid /\ int4 (Num (num sid)) = inr sid.
Proof.
  intros Hp. pose proof (insertRatingSchema_inr _ _ Hp) as (Hu & Hst & _ & _).
  cbn [field] in Hu, Hst.
  rewrite lookup_insert_eq in Hu. rewrite lookup_insert_ne in Hst by done.
  apply integerColumn_inr in Hu as (u' & Eu & Hud & Hu4).
  assert (u' = uid) as -> by (apply num_inj; congruence).
  apply integerColumn_inr in Hst as (sid & _ & Hsd & Hs4).
  rewrite Hud in Hu4. rewrite Hsd in Hs4. split; [done|]. split; [done|]. by exists sid.
Qed.

(** X17. [insertRatingSchema] does not check that the store exists. A
    valid submission for a store id that no store has is answered 500,
    Failed to submit rating, and no table changes. The ratings in the table
    are assumed to be on existing stores, as the foreign key declares. *)
Theorem rating_unknown_store_is_500 (body : json) (env : Env)
    (session : SessionData) (db : Db) (uid sid : Z) (data : InsertRating.t) :
  userId session = Some uid -> uid <> 0 ->
  insertRatingSchema (JObj (<[ "userId" := JNum uid ]> (spread body))) = inr data ->
  InsertRating.storeId data = num sid ->
  sid ∉ map Store.id (stores db) ->
  Forall (fun r => Rating.storeId r ∈ map Store.id (stores db)) (ratings db) ->
  let o := postRatings body env session db in
  response o = message 500 "Failed to submit rating"
  /\ Routes.session o = session
  /\ same_tables db (database o).
Proof.
  intros Hs Hz Hp Hsid Hno Hfk o. subst o. unfold postRatings.
  rewrite requireAuth_passes by (by exists uid).
  unfold session_userId. rewrite Hs. cbn [default from_option id].
  destruct (accepted_rating _ _ _ Hp) as (Hud & Hu4 & sid' & Hsd & Hs4).
  assert (sid' = sid) as -> by (apply num_inj; congruence).
  unfold try_catch, bind at 1, parse. rewrite Hp. unfold ret at 1.
  unfold getRatingByUserAndStore. mrun. rewrite Hsd, Hu4, Hs4. mrun.
  fold (rows_of uid sid db).
  assert (rows_of uid sid db = []) as ->.
  { destruct (rows_of uid sid db) as [|r l] eqn:E; [done|]. exfalso. apply Hno.
    assert (r ∈ rows_of uid sid db) as [Hk Hin]%list_elem_of_filter by (rewrite E; left).
    rewrite Forall_forall in Hfk. apply Hfk in Hin.
    unfold key in Hk. by injection Hk as _ <-. }
  cbn [head]. unfold createRating. mrun. rewrite Hud, Hsd, Hu4, Hs4.
  destruct (int4 (Num (InsertRating.rating data))) as [e|v] eqn:Hv.
  { apply int4_inl in Hv as [detail ->]. by repeat split. }
  unfold insert_rating.
  case_bool_decide; [by repeat split|].
  case_bool_decide; cbn [negb]; [|by repeat split].
  rewrite bool_decide_eq_false_2 by done. by repeat split.
Qed.

(** X18. [storage.updateRating] for a user and a store that have no
    row writes no rating and returns undefined instead of throwing; it
    still recomputes the aggregate of the store. *)
Theorem updateRating_without_row (userId storeId : number) (data : InsertRating.t)
    (db : Db) (uid sid newUser newStore value : Z) :
  int4 userId = inr uid -> int4 storeId = inr sid ->
  int4 (Num (InsertRating.userId data)) = inr newUser ->
  int4 (Num (InsertRating.storeId data)) = inr newStore ->
  int4 (Num (InsertRating.rating data)) = inr value ->
  rows_of uid sid db = [] ->
  Forall in_range (ratings db) ->
  exists a t,
    aggregate sid db = inr (a, t)
    /\ updateRating userId storeId data db = (inr None, update_aggregate sid a t db).
Proof.
  intros Hu Hs Hnu Hns Hv Hrows Hrange.
  rewrite (aggregate_in_range _ _ Hrange). eexists _, _. split; [reflexivity|].
  unfold updateRating. mrun. rewrite Hu, Hs, Hnu, Hns, Hv. mrun.
  unfold update_rating. cbv zeta. fold (rows_of uid sid db). rewrite Hrows.
  rewrite bool_decide_eq_true_2 by done.
  rewrite updateStoreRating_unfold, Hs.
  by rewrite (aggregate_in_range _ _ Hrange).
Qed.

End RatingEdges.

Lemma get_Some_length (n : nat) (s : string) (c : ascii) :
  String.get n s = Some c -> (n < String.length s)%nat.
Proof.
  revert n. induction s as [|x s IH]; intros n; [done|].
  destruct n as [|n]; cbn; [lia|]. intros E%IH. lia.
Qed.

Lemma varchar_too_long (n : nat) (s : string) (c : ascii) :
  String.get n s = Some c -> c <> " "%char ->
  varchar n s = inl (DbError "value too long for type character varying").
Proof.
  intros Hc Hsp. pose proof (get_Some_length _ _ _ Hc) as Hlen.
  unfold varchar. rewrite (proj2 (Nat.leb_gt _ _)) by done.
  pose proof (substring_correct1 s n (String.length s - n) 0 ltac:(lia)) as E.
  cbn [Nat.add] in E. rewrite Hc in E.
  destruct (substring n (String.length s - n) s) as [|x t]; [discriminate|].
  cbn in E. injection E as ->. cbn [list_ascii_of_string forallb].
  destruct (nat_of_ascii c =? 32)%nat eqn:E; [|done].
  exfalso. apply Hsp. apply Nat.eqb_eq in E.
  rewrite <- (ascii_nat_embedding c), E. reflexivity.
Qed.

Section MoreEdges.
Context `{Externals}.

(** X19. [insertUserSchema] puts no bound on the length of the e-mail,
    and the column holds 255 characters. A registration that validates,
    with a new e-mail whose 256th character exists and is not a space, is
    answered 500, Registration failed, and no table changes. *)
Theorem long_email_is_500 (body : json) (env : Env) (session : SessionData)
    (db : Db) (data : InsertUser.t) (c : ascii) :
  insertUserSchema body = inr data ->
  InsertUser.email data ∉ map User.email (users db) ->
  String.get 255 (InsertUser.email data) = Some c -> c <> " "%char ->
  let o := register body env session db in
  response o = message 500 "Registration failed"
  /\ Routes.session o = session
  /\ same_tables db (database o).
Proof.
  intros Hp Hnew Hc Hsp o. subst o.
  destruct (accepted_user_fits _ _ Hp) as [Hn _].
  unfold register, getUserByEmail, createUser. mrun. rewrite Hp.
  destruct (head _) as [existing|] eqn:Hex.
  { exfalso. apply Hnew. apply head_Some_elem_of in Hex.
    apply list_elem_of_filter in Hex as [<- Hin]. apply list_elem_of_fmap. by exists existing. }
  rewrite Hn, (varchar_too_long _ _ _ Hc Hsp). by repeat split.
Qed.

(** A valid first submission of a user for a store, when both exist. *)
Lemma postRatings_creates (body : json) (env : Env) (session : SessionData) (db : Db)
    (uid sid v : Z) (data : InsertRating.t) :
  userId session = Some uid -> uid <> 0 ->
  insertRatingSchema (JObj (<[ "userId" := JNum uid ]> (spread body))) = inr data ->
  InsertRating.storeId data = num sid ->
  InsertRating.rating data = num v ->
  uid ∈ map User.id (users db) -> sid ∈ map Store.id (stores db) ->
  rows_of uid sid db = [] ->
  Forall in_range (ratings db) ->
  let row := Rating.mk (ratings_id_seq db) uid sid v (InsertRating.review data)
                       (Some (now env)) (Some (now env)) in
  let db1 := mkDb (users db) (stores db) (ratings db ++ [row])
                  (users_id_seq db) (stores_id_seq db) (ratings_id_seq db + 1) in
  1 <= v <= 5
  /\ postRatings body env session db
     = mkOutcome (json_ (JObj (rating_json row))) session
         (update_aggregate sid
            (mean_2dp (map Rating.rating (ratings_of sid db1)))
            (count (ratings_of sid db1)) db1).
Proof.
  intros Hs Hz Hp Hsid Hv Hu Hst Hrows Hrange row db1.
  destruct (accepted_rating _ _ _ Hp) as (Hud & Hu4 & sid' & Hsd & Hs4).
  assert (sid' = sid) as -> by (apply num_inj; congruence).
  pose proof (insertRatingSchema_inr _ _ Hp) as (_ & _ & Hr & _).
  apply zNumber_inr in Hr as [_ Hr].
  assert (1 <= v <= 5) as Hv15.
  { apply failed_cons in Hr as [Hmin Hr]. apply failed_cons in Hr as [Hmax _].
    unfold minNum, maxNum in *; cbn [fst] in *.
    apply bool_decide_eq_true in Hmin, Hmax. rewrite Hv in Hmin, Hmax.
    split; by apply num_le. }
  assert (-2147483648 <= v <= 2147483647) as Hv4 by lia.
  split; [done|].
  unfold postRatings. rewrite requireAuth_passes by (by exists uid).
  unfold session_userId. rewrite Hs. cbn [default from_option id].
  unfold try_catch, bind at 1, parse. rewrite Hp. unfold ret at 1.
  unfold getRatingByUserAndStore. mrun. rewrite Hsd, Hu4, Hs4. mrun.
  fold (rows_of uid sid db). rewrite Hrows. cbn [head].
  unfold createRating. mrun. rewrite Hud, Hsd, Hv, Hu4, Hs4, (int4_num v) by done. mrun.
  unfold insert_rating.
  rewrite bool_decide_eq_false_2 by (by apply rows_of_nil_key).
  rewrite !bool_decide_eq_true_2 by done. cbn [negb].
  fold row. fold db1. rewrite updateStoreRating_unfold, Hs4.
  assert (Forall in_range (ratings db1)) as Hrange1.
  { subst db1. cbn [ratings]. apply Forall_app. split; [done|].
    constructor; [exact Hv15 | constructor]. }
  by rewrite (aggregate_in_range _ _ Hrange1).
Qed.

(** X20. The first rating of a store is its average: when a store
    has no rating and a user submits the value v, the answer is 200 and
    the store row shows v with two zero decimals and a count of one, the
    other stores being left as they were. *)
Theorem first_rating_is_the_average (body : json) (env : Env)
    (session : SessionData) (db : Db) (uid sid v : Z) (data : InsertRating.t) :
  userId session = Some uid -> uid <> 0 ->
  insertRatingSchema (JObj (<[ "userId" := JNum uid ]> (spread body))) = inr data ->
  InsertRating.storeId data = num sid ->
  InsertRating.rating data = num v ->
  uid ∈ map User.id (users db) -> sid ∈ map Store.id (stores db) ->
  ratings_of sid db = [] ->
  Forall in_range (ratings db) ->
  let o := postRatings body env session db in
  status (response o) = 200
  /\ stores (database o) = map (set_aggregate sid (pretty v +:+ ".00") 1) (stores db).
Proof.
  intros Hs Hz Hp Hsid Hv Hu Hst Hnone Hrange o. subst o.
  assert (rows_of uid sid db = []) as Hrows.
  { unfold rows_of. destruct (filter _ _) as [|r l] eqn:E; [done|].
    assert (r ∈ filter (fun r => key r = (uid, sid)) (ratings db))
      as [Hk Hin]%list_elem_of_filter by (rewrite E; left).
    assert (r ∈ ratings_of sid db) as Hr.
    { apply list_elem_of_filter. split; [|done]. unfold key in Hk. congruence. }
    rewrite Hnone in Hr. by apply elem_of_nil in Hr. }
  destruct (postRatings_creates _ env _ _ _ _ _ _ Hs Hz Hp Hsid Hv Hu Hst Hrows Hrange)
    as [Hv15 ->].
  split; [done|]. cbn [database update_aggregate stores].
  unfold ratings_of in *. cbn [ratings]. rewrite filter_app, Hnone.
  rewrite filter_cons, decide_True by done. cbn.
  assert (v = 1 \/ v = 2 \/ v = 3 \/ v = 4 \/ v = 5) as Hcases by lia.
  by destruct Hcases as [->|[->|[->|[->| ->]]]].
Qed.

(** X21. A rating that was answered 200 is read back: the row in the
    answer is the one that [getRatingByUserAndStore] finds afterwards for the
    user of the session and the store of the row. *)
Theorem rating_is_read_back (body : json) (env : Env) (session : SessionData) (db : Db) :
  let o := postRatings body env session db in
  status (response o) = 200 ->
  exists uid r,
    userId session = Some uid
    /\ Rating.userId r = uid
    /\ response o = json_ (JObj (rating_json r))
    /\ getRatingByUserAndStore (Num (num uid)) (Num (num (Rating.storeId r))) (database o)
       = (inr (Some r), database o).
Proof.
  intros o. subst o.
  destruct (postRatings_cases body env session db)
    as [res Hres|uid data sid v o Ha Hrows Hu Hs row Ho|uid data sid v r rest o Ha Hrows set Ho];
    [done|..]; intros H200.
  - destruct Ho as [a t _|e _]; [|done].
    destruct Ha as [Hsess Hparse _ Hstore _ _ _].
    destruct (accepted_rating _ _ _ Hparse) as (_ & Hu4 & sid' & Hsd & Hs4).
    assert (sid' = sid) as -> by (apply num_inj; congruence).
    exists uid, row. split_and!; try done.
    cbn [database Rating.storeId row]. unfold getRatingByUserAndStore. mrun.
    rewrite Hu4, Hs4. mrun. cbn [update_aggregate ratings].
    rewrite filter_app. fold (rows_of uid sid db). rewrite Hrows.
    by rewrite filter_cons, decide_True.
  - destruct Ho as [a t _|e _]; [|done].
    destruct Ha as [Hsess Hparse _ Hstore _ _ _].
    destruct (accepted_rating _ _ _ Hparse) as (_ & Hu4 & sid' & Hsd & Hs4).
    assert (sid' = sid) as -> by (apply num_inj; congruence).
    assert (key r = (uid, sid)) as Hk.
    { assert (r ∈ rows_of uid sid db) as [Hk _]%list_elem_of_filter
        by (rewrite Hrows; left). done. }
    assert (key (set r) = (uid, sid)) as Hk' by (subst set; by rewrite set_rating_key).
    exists uid, (set r). split_and!; try done.
    { unfold key in Hk'. congruence. }
    assert (Rating.storeId (set r) = sid) as -> by (unfold key in Hk'; congruence).
    cbn [database]. unfold getRatingByUserAndStore. mrun.
    rewrite Hu4, Hs4. mrun. cbn [update_aggregate ratings].
    rewrite (filter_fmap_through key) by (intros x; apply set_rating_key).
    fold (rows_of uid sid db). by rewrite Hrows.
Qed.

Lemma count_one (ids : list Z) (x : Z) :
  NoDup ids -> x ∈ ids ->
  foldr Z.add 0 (map (fun i => if decide (x = i) then 1 else 0) ids) = 1.
Proof.
  induction 1 as [|i ids Hi Hn IH]; intros Hx; [by apply elem_of_nil in Hx|].
  cbn [fmap list_fmap foldr]. apply elem_of_cons in Hx as [<-|Hx].
  - rewrite decide_True by done.
    assert (foldr Z.add 0 (map (fun i => if decide (x = i) then 1 else 0) ids) = 0) as ->; [|done].
    clear IH Hn. induction ids as [|j ids IH]; [done|].
    cbn [fmap list_fmap foldr]. rewrite decide_False by set_solver.
    rewrite IH; [done | set_solver].
  - rewrite decide_False by (intros ->; done). by rewrite IH.
Qed.

Lemma counts_partition (ids : list Z) (rows : list Rating.t) :
  NoDup ids -> Forall (fun r => Rating.storeId r ∈ ids) rows ->
  foldr Z.add 0
    (map (fun i => count (filter (fun r => Rating.storeId r = i) rows)) ids)
  = count rows.
Proof.
  intros Hn. induction 1 as [|r rows Hr Hrows IH].
  - induction ids as [|i ids IHi]; [done|]. cbn [fmap list_fmap foldr].
    apply NoDup_cons in Hn as [_ Hn]. by rewrite IHi.
  - assert (foldr Z.add 0
              (map (fun i => count (filter (fun r => Rating.storeId r = i) (r :: rows))) ids)
            = foldr Z.add 0
                (map (fun i => count (filter (fun r => Rating.storeId r = i) rows)) ids)
              + foldr Z.add 0
                  (map (fun i => if decide (Rating.storeId r = i) then 1 else 0) ids)) as ->.
    { clear. unfold count. induction ids as [|i ids IHi]; [done|].
      cbn [fmap list_fmap foldr]. rewrite IHi, filter_cons.
      case_decide; cbn [length]; lia. }
    rewrite IH, (count_one ids (Rating.storeId r) Hn Hr). unfold count. cbn [length]. lia.
Qed.

(** X22. The statistics agree with the counters of the stores: when
    the aggregates are materialized and the store ids are distinct, the
    [totalRatings] that an administrator reads from [GET /api/statistics]
    is the sum of the [totalRatings] columns of the stores, and the two
    other totals are the sizes of the tables. *)
Theorem statistics_agree_with_counters (session : SessionData) (db : Db) :
  is_admin session = true ->
  consistent db -> NoDup (map Store.id (stores db)) ->
  getStatistics_ session db
  = mkOutcome
      (json_ (JObj (statistics_json
                      (mkStatistics (count (users db)) (count (stores db))
                                    (sum_totals (stores db))))))
      session db.
Proof.
  intros Ha [_ _ Hfk _ Hagg] Hn.
  assert (count (ratings db) = sum_totals (stores db)) as Hsum.
  { rewrite <- (counts_partition (map Store.id (stores db)) (ratings db) Hn Hfk).
    unfold sum_totals. rewrite <- list_fmap_compose. apply (f_equal (foldr Z.add 0)).
    apply Forall_fmap_ext_1. eapply Forall_impl; [exact Hagg|].
    intros s [_ Ht]. cbn. by rewrite Ht. }
  unfold getStatistics_. rewrite requireAdmin_passes by done.
  unfold try_catch_all, getStatistics. mrun. by rewrite Hsum.
Qed.

End MoreEdges.

(** ** Route parameters *)

Import Listing.

Lemma pretty_N_char_digit (m : N) :
  (m < 10)%N ->
  is_digit (pretty_N_char m) = true
  /\ Z.of_nat (nat_of_ascii (pretty_N_char m)) - 48 = Z.of_N m.
Proof.
  intros Hm.
  assert (m = 0 \/ m = 1 \/ m = 2 \/ m = 3 \/ m = 4 \/ m = 5 \/ m = 6 \/ m = 7
          \/ m = 8 \/ m = 9)%N as Hcases by lia.
  by repeat (destruct Hcases as [->|Hcases]; [done|]); subst m.
Qed.

Lemma digits_value_app (d rest : list ascii) (acc : Z) :
  Forall (fun c => is_digit c = true) d ->
  digits_value acc (d ++ rest)
  = digits_value (digits_value acc d) rest.
Proof.
  intros Hd. revert acc. induction Hd as [|c d Hc Hd IH]; intros acc; [done|].
  cbn [app digits_value]. by rewrite Hc, IH.
Qed.

(** The text that [pretty_N_go] puts before [s]: digits, whose value is
    [x] when read after [acc]. *)
Lemma pretty_N_go_digits (x : N) (s : string) :
  exists d,
    list_ascii_of_string (pretty_N_go x s) = d ++ list_ascii_of_string s
    /\ Forall (fun c => is_digit c = true) d
    /\ (forall acc, digits_value acc d = acc * 10 ^ Z.of_nat (length d) + Z.of_N x)
    /\ ((0 < x)%N -> d <> []).
Proof.
  revert s. induction (N.lt_wf_0 x) as [x _ IH]. intros s.
  destruct (decide (x = 0)%N) as [->|Hx].
  { exists []. rewrite pretty_N_go_0. split_and!; [done | constructor | | done].
    intros acc. cbn. lia. }
  rewrite pretty_N_go_step by lia.
  destruct (IH (x `div` 10)%N ltac:(apply N.div_lt; lia)
               (String (pretty_N_char (x `mod` 10)) s))
    as (d & Hd & Hdig & Hval & _).
  destruct (pretty_N_char_digit (x `mod` 10)%N ltac:(apply N.mod_lt; lia)) as [Hc Hv].
  exists (d ++ [pretty_N_char (x `mod` 10)]). split_and!.
  - by rewrite Hd, <- app_assoc.
  - apply Forall_app. split; [done | by repeat constructor].
  - intros acc. rewrite digits_value_app by done. cbn [digits_value].
    rewrite Hc, Hv, Hval, length_app. cbn [length].
    rewrite Nat2Z.inj_add, Z.pow_add_r by lia.
    rewrite (N.div_mod x 10) at 3 by lia. rewrite N2Z.inj_add, N2Z.inj_mul.
    change (Z.of_N 10) with 10. change (10 ^ Z.of_nat 1) with 10. lia.
  - intros _. by destruct d.
Qed.

Lemma digit_is_no_sign (c : ascii) (l : list ascii) :
  is_digit c = true ->
  skip_spaces (c :: l) = c :: l
  /\ match c :: l with
     | "-"%char :: l' => unsigned_int (-1) l'
     | "+"%char :: l' => unsigned_int 1 l'
     | l0 => unsigned_int 1 l0
     end = unsigned_int 1 (c :: l).
Proof.
  destruct c as [[] [] [] [] [] [] [] []]; try discriminate; intros _; by split.
Qed.

Lemma digits_no_prefix (d : list ascii) :
  Forall (fun c => is_digit c = true) d -> hex_prefix d = None.
Proof.
  intros Hd. destruct d as [|z [|x d]]; [done..|].
  apply Forall_cons in Hd as [_ [Hx _]%Forall_cons].
  unfold hex_prefix. destruct (Ascii.eqb z "0"); [|done].
  by destruct x as [[] [] [] [] [] [] [] []].
Qed.

Lemma digits_unsigned (sign : Z) (d : list ascii) (x : N) :
  d <> [] -> Forall (fun c => is_digit c = true) d ->
  (forall acc, digits_value acc d = acc * 10 ^ Z.of_nat (length d) + Z.of_N x) ->
  unsigned_int sign d = Num (num (sign * Z.of_N x)).
Proof.
  intros Hne Hd Hv. unfold unsigned_int. rewrite (digits_no_prefix d Hd).
  unfold decimal_int. destruct d as [|c d]; [done|].
  apply Forall_cons in Hd as [Hc _]. rewrite Hc, Hv.
  by replace (0 * 10 ^ Z.of_nat (length (c :: d)) + Z.of_N x) with (Z.of_N x) by lia.
Qed.

Lemma parseInt_positive (p : positive) :
  parseInt (pretty (Zpos p)) = Num (num (Zpos p))
  /\ parseInt (pretty (Zneg p)) = Num (num (Zneg p)).
Proof.
  unfold pretty, pretty_Z, pretty, pretty_positive, pretty, pretty_N.
  rewrite decide_False by done.
  destruct (pretty_N_go_digits (Npos p) "") as (d & Hd & Hdig & Hval & Hne).
  cbn [list_ascii_of_string] in Hd. rewrite app_nil_r in Hd.
  specialize (Hne ltac:(lia)). unfold parseInt. split.
  - rewrite Hd. destruct d as [|c d]; [done|].
    pose proof (Forall_inv Hdig) as Hc.
    destruct (digit_is_no_sign c d Hc) as [-> ->].
    by rewrite (digits_unsigned 1 _ (Npos p)).
  - change (list_ascii_of_string ("-" +:+ pretty_N_go (N.pos p) ""))
      with ("-"%char :: list_ascii_of_string (pretty_N_go (N.pos p) "")).
    rewrite Hd.
    change (skip_spaces ("-"%char :: d)) with ("-"%char :: d). cbv iota beta.
    by rewrite (digits_unsigned (-1) _ (Npos p)).
Qed.

(** [parseInt] reads back the decimal text of an integer: the id that a
    client writes into the path of a request is the number the handler
    queries with. *)
Lemma parseInt_pretty (z : Z) : parseInt (pretty z) = Num (num z).
Proof.
  destruct z as [|p|p]; [reflexivity|..]; by destruct (parseInt_positive p).
Qed.

Lemma mapM_pure {A B} (f : A -> M B) (g : A -> B) (l : list A) (db : Db) :
  Forall (fun x => f x db = (inr (g x), db)) l ->
  mapM f l db = (inr (map g l), db).
Proof.
  induction 1 as [|x l Hx Hl IH]; [done|].
  cbn [mapM]. unfold bind at 1. rewrite Hx. unfold bind at 1. by rewrite IH.
Qed.

Lemma desc_time_total (a b : option Z) : desc_time a b = true \/ desc_time b a = true.
Proof. destruct a, b; cbn; try tauto. lia. Qed.

Section Listings.
Context `{Externals}.

(** X24. [GET /api/ratings/store/:storeId], asked with the decimal text
    of a store id, answers the ratings of that store and no other, each
    once, from the latest to the earliest, each with the name and the
    e-mail of its user (or null when the user has no row). *)
Theorem store_ratings_listing (sid : Z) (session : SessionData) (db : Db) :
  authenticated session ->
  -2147483648 <= sid <= 2147483647 ->
  Forall (fun r => -2147483648 <= Rating.userId r <= 2147483647) (ratings db) ->
  exists listed,
    getRatingsStore (pretty sid) session db
    = mkOutcome
        (json_ (JArr (map (fun r => JObj (<[ "user" := rater db r ]> (rating_json r)))
                          listed)))
        session db
    /\ listed ≡ₚ ratings_of sid db
    /\ latest_first listed.
Proof.
  intros Hs Hsid Hu. unfold getRatingsStore.
  rewrite requireAuth_passes by done. rewrite parseInt_pretty.
  unfold try_catch_all, getRatingsByStore. mrun. rewrite int4_num by done. mrun.
  set (listed := orderBy by_createdAt_desc (ratings_of sid db)).
  assert (listed ≡ₚ ratings_of sid db) as Hperm by apply orderBy_Permutation.
  exists listed. split_and!; [|done|].
  - rewrite (mapM_pure _ (fun r => <[ "user" := rater db r ]> (rating_json r))).
    + by rewrite <- list_fmap_compose.
    + apply Forall_forall. intros r Hr. rewrite Hperm in Hr.
      apply list_elem_of_filter in Hr as [_ Hr].
      rewrite Forall_forall in Hu. specialize (Hu r Hr).
      unfold getUser. mrun. by rewrite int4_num.
  - apply orderBy_Sorted. intros a b. apply desc_time_total.
Qed.

End Listings.

(** ** The client *)

Section ClientSide.
Context `{Externals}.

Lemma client_role (r : option json) (x : string) :
  zDefault (zEnum ["user"; "store_owner"]) "user" r = inr x
  <-> zDefault (zEnum roles) "user" r = inr x /\ x <> "admin".
Proof.
  unfold zDefault, zEnum, roles.
  destruct r as [[| | |s| |]|]; try (split; [done | by intros [? _]]).
  - destruct (decide (s = "user")) as [->|H1].
    { rewrite !bool_decide_eq_true_2 by (rewrite !elem_of_cons; tauto).
      split; [by intros [= <-] | by intros [[= <-] _]]. }
    destruct (decide (s = "store_owner")) as [->|H2].
    { rewrite !bool_decide_eq_true_2 by (rewrite !elem_of_cons; tauto).
      split; [by intros [= <-] | by intros [[= <-] _]]. }
    rewrite (bool_decide_eq_false_2 (s ∈ ["user"; "store_owner"]))
      by (rewrite !elem_of_cons, elem_of_nil; tauto).
    split; [done|]. intros [Hs Hx].
    case_bool_decide as Hin; [|done]. injection Hs as ->.
    rewrite !elem_of_cons, elem_of_nil in Hin. tauto.
  - split; [by intros [= <-] | by intros [? _]].
Qed.

(** X25. The registration form is stricter than the server in the role
    alone: [registerSchema] accepts a body exactly when [insertUserSchema]
    accepts it with a role other than admin, and both parse it to the same
    data. *)
Theorem client_registration_is_accepted (v : json) (data : InsertUser.t) :
  Client.registerSchema v = inr data
  <-> insertUserSchema v = inr data /\ InsertUser.role data <> "admin".
Proof.
  unfold Client.registerSchema, insertUserSchema.
  destruct (not_object v); [split; [done | by intros [? _]]|]. cbv zeta.
  destruct (zString _ (field "name" v)) as [|n];
    [split; [done | by intros [? _]]|].
  destruct (zString _ (field "email" v)) as [|e];
    [split; [done | by intros [? _]]|].
  destruct (passwordString (field "password" v)) as [|p];
    [split; [done | by intros [? _]]|].
  destruct (zOptional _ (field "address" v)) as [|a];
    [split; [done | by intros [? _]]|].
  pose proof (client_role (field "role" v)) as Hrole.
  destruct (zDefault (zEnum ["user"; "store_owner"]) _ _) as [|r] eqn:Ec;
    destruct (zDefault (zEnum roles) _ _) as [|r'] eqn:Es.
  - split; [done | by intros [? _]].
  - split; [done|]. intros [[= <-] Hr]. cbn in Hr.
    pose proof (proj2 (Hrole r') (conj eq_refl Hr)). discriminate.
  - destruct (proj1 (Hrole r) eq_refl) as [? _]. discriminate.
  - split.
    + intros [= <-]. destruct (proj1 (Hrole r) eq_refl) as [[= ->] Hr]. done.
    + intros [[= <-] Hr]. cbn in Hr.
      pose proof (proj2 (Hrole r') (conj eq_refl Hr)) as [= ->]. done.
Qed.

End ClientSide.

Lemma star_le (star : Z) (q : Qc) :
  (num star <= q)%Qc <-> star <= Qnum q / Zpos (Qden q).
Proof.
  unfold Qcle. rewrite num_this. unfold Qle, inject_Z. cbn [Qnum Qden].
  rewrite Z.mul_1_r. split.
  - intros Hle. apply Z.div_le_lower_bound; lia.
  - intros Hle. pose proof (Z.mul_div_le (Qnum q) (Zpos (Qden q)) ltac:(lia)). nia.
Qed.

(** X26. [StarRating] fills the first stars, as many as the whole part of
    the rating, none below 1 and all five from 5 on; against NaN it fills
    none. *)
Theorem stars_show_the_whole_part (q : Qc) :
  let n := Z.to_nat (Z.max 0 (Z.min 5 (Qnum q / Zpos (Qden q)))) in
  Client.StarRating (Num q) = replicate n true ++ replicate (5 - n) false
  /\ Client.StarRating NaN = replicate 5 false.
Proof.
  intros n. split; [|reflexivity]. subst n.
  unfold Client.StarRating, Client.le_number. cbn [fmap list_fmap].
  set (f := Qnum q / Zpos (Qden q)).
  assert (forall star, bool_decide (num star <= q)%Qc = bool_decide (star <= f)) as E.
  { intros star. apply bool_decide_ext, star_le. }
  rewrite !E.
  assert (f <= 0 \/ f = 1 \/ f = 2 \/ f = 3 \/ f = 4 \/ 5 <= f) as Hf by lia.
  destruct Hf as [Hf|[Hf|[Hf|[Hf|[Hf|Hf]]]]].
  - replace (Z.max 0 (Z.min 5 f)) with 0 by lia.
    by rewrite !bool_decide_eq_false_2 by lia.
  - rewrite Hf. reflexivity.
  - rewrite Hf. reflexivity.
  - rewrite Hf. reflexivity.
  - rewrite Hf. reflexivity.
  - replace (Z.max 0 (Z.min 5 f)) with 5 by lia.
    by rewrite !bool_decide_eq_true_2 by lia.
Qed.

Section MoreListings.
Context `{Externals}.


(** X27. An administrator who creates a user through [POST /api/users]
    leaves the database that [POST /api/auth/register] leaves for the same
    body, with the same status; on success the body of the registration
    wraps the body of the creation in the field [user]. *)
Theorem creation_equals_registration (body : json) (env : Env)
    (session session' : SessionData) (db : Db) :
  is_admin session = true ->
  let created := postUsers body env session db in
  let registered := register body env session' db in
  database created = database registered
  /\ status (response created) = status (response registered)
  /\ (status (response created) = 200 ->
      Routes.body (response registered)
      = JObj {[ "user" := Routes.body (response created) ]}).
Proof.
  intros Ha created registered. subst created registered.
  unfold postUsers. rewrite requireAdmin_passes by done.
  unfold register, getUserByEmail, createUser. mrun.
  destruct (insertUserSchema body) as [[|? ?]|data]; [done..|].
  destruct (head _) as [existing|]; [done|].
  destruct (varchar 60 _) as [e|name] eqn:E; [by apply varchar_inl in E as ->|].
  clear E. destruct (varchar 255 (InsertUser.email data)) as [e|email] eqn:E;
    [by apply varchar_inl in E as ->|].
  clear E. destruct (varchar 255 _) as [e|password] eqn:E;
    [by apply varchar_inl in E as ->|].
  clear E. destruct (varchar 20 _) as [e|role] eqn:E;
    [by apply varchar_inl in E as ->|].
  unfold insert_user. by case_bool_decide.
Qed.

End MoreListings.

Section OwnRatingAndLogout.
Context `{Externals}.

(** X28. [GET /api/stores] shows a user their own rating and no one
    else's: to a session that is not an administrator's every listed store
    carries [userRating], the value of the rating that the user of the
    session gave this store, or null; to an administrator the stores are
    listed as they are stored. The listed stores are those that
    [searchStores], or without a search [getAllStores], returns. *)
Theorem stores_listing_shows_own_rating (query : gmap string qs)
    (session : SessionData) (db : Db) (uid : Z) :
  userId session = Some uid -> uid <> 0 ->
  -2147483648 <= uid <= 2147483647 ->
  Forall (fun s => -2147483648 <= Store.id s <= 2147483647) (stores db) ->
  exists listed,
    (if truthy (query !! "search")
     then searchStores (from_option toString "" (query !! "search"))
     else getAllStores) db = (inr listed, db)
    /\ listed ⊆+ stores db
    /\ getStores query session db
       = mkOutcome
           (json_ (JArr (map (fun s =>
                               JObj (if is_admin session then store_json s
                                     else <[ "userRating" := own_rating uid db s ]>
                                            (store_json s)))
                             listed)))
           session db.
Proof.
  intros Hs Hz Hr Hids. unfold getStores.
  rewrite requireAuth_passes by (by exists uid).
  unfold session_userId. rewrite Hs. cbn [default from_option id].
  set (listing := if truthy (query !! "search")
                  then searchStores (from_option toString "" (query !! "search"))
                  else getAllStores).
  assert (exists listed, listing db = (inr listed, db) /\ listed ⊆+ stores db)
    as (listed & Hl & Hsub).
  { unfold listing, searchStores, getAllStores, Pg.query.
    destruct (truthy _); eexists; (split; [reflexivity|]);
      rewrite orderBy_Permutation; [|done].
    apply sublist_submseteq, sublist_filter. }
  exists listed. split; [done|]. split; [done|].
  unfold try_catch_all, bind at 1. rewrite Hl.
  destruct (is_admin session); cbn [negb].
  - unfold bind, ret. by rewrite <- list_fmap_compose.
  - unfold bind at 1.
    rewrite (mapM_pure _ (fun s => <[ "userRating" := own_rating uid db s ]> (store_json s))).
    + unfold ret. by rewrite <- list_fmap_compose.
    + apply Forall_forall. intros s Hin.
      assert (s ∈ stores db) as Hin' by (by eapply elem_of_submseteq).
      rewrite Forall_forall in Hids. specialize (Hids s Hin').
      unfold getRatingByUserAndStore. mrun. by rewrite !int4_num.
Qed.

(** X29. Logging out ends the session: when the session store destroys
    the session, the answer is 200 and the session that is left is let
    through by neither middleware, so that every endpoint behind
    [requireAuth] then answers 401 and every endpoint behind [requireAdmin]
    403; when the store fails, the answer is 500 and the session stays. *)
Theorem logout_ends_the_session (env : Env) (session : SessionData) (db : Db) :
  let o := handle env PostAuthLogout session db in
  (destroyed env = true ->
   status (response o) = 200
   /\ forall env' req db',
        (auth_only req = true ->
         handle env' req (Routes.session o) db'
         = mkOutcome (message 401 "Unauthorized") (Routes.session o) db')
        /\ (admin_only req = true ->
            handle env' req (Routes.session o) db'
            = mkOutcome (message 403 "Forbidden") (Routes.session o) db'))
  /\ (destroyed env = false ->
      o = mkOutcome (message 500 "Logout failed") session db).
Proof.
  intros o. subst o. cbn [handle]. unfold logout. split; intros ->; [|done].
  split; [done|]. intros env' req db'. cbn [Routes.session]. split; intros Hreq.
  - destruct req; try discriminate Hreq; reflexivity.
  - destruct req; try discriminate Hreq; reflexivity.
Qed.

End OwnRatingAndLogout.

(** ** A store and its row *)

(** X30. A store that [createStore] returns is read back: it has the
    aggregate of a store without ratings, ["0.00"] and 0, and
    [getStoreById] finds exactly that row under its id afterwards. The ids
    in the table are assumed to be below the serial sequence. *)
Theorem store_is_read_back (env : Env) (data : InsertStore.t) (db db' : Db)
    (s : Store.t) :
  Forall (fun s => Store.id s < stores_id_seq db) (stores db) ->
  createStore env data db = (inr s, db') ->
  -2147483648 <= Store.id s <= 2147483647 ->
  Store.averageRating s = Some "0.00"
  /\ Store.totalRatings s = Some 0
  /\ stores db' = stores db ++ [s]
  /\ getStoreById (Num (num (Store.id s))) db' = (inr (Some s), db').
Proof.
  intros Hserial Hc Hr. revert Hc. unfold createStore. mrun.
  destruct (varchar 255 (InsertStore.name data)) as [?|name]; [discriminate|].
  destruct (varchar 255 (InsertStore.email data)) as [?|email]; [discriminate|].
  destruct (int4 (Num (InsertStore.ownerId data))) as [?|ownerId]; [discriminate|].
  unfold insert_store.
  case_bool_decide; [discriminate|]. case_bool_decide; cbn [negb]; [|discriminate].
  intros [= <- <-]. split; [done|]. split; [done|]. split; [done|].
  cbn [Store.id] in Hr |- *.
  unfold getStoreById. mrun. rewrite int4_num by done. cbn [stores].
  match goal with
  | |- context [stores db ++ [?s0]] =>
      pose proof (head_filter_fresh Store.id (stores db) s0) as E
  end.
  cbn [Store.id] in E. rewrite E; [done|].
  intros (s' & Hs' & Hin)%list_elem_of_fmap.
  rewrite Forall_forall in Hserial. apply Hserial in Hin. lia.
Qed.

(** * The statements at sample inputs *)

Import Samples.

#[local] Existing Instance ext.

(** The sample database with two ratings is reached by requests. *)
Lemma consistent_db1 : consistent db1.
Proof.
  exact (run_consistent (H := ext) rated db0
           (run_consistent (H := ext) setup Pg.empty consistent_empty)).
Qed.

(** C1 at the sample data: Alice changes her rating of store 1 to 5; store 1
    is recomputed before it has any rating. *)
Lemma aggregate_materialized_witness :
  (exists (sid : Z) (s : Store.t),
     spread (rate 1 5 None) !! "storeId" = Some (JNum sid)
     /\ s ∈ stores (database (postRatings (rate 1 5 None) env0 (as_ 3 "user") db1))
     /\ Store.id s = sid
     /\ ratings_of sid (database (postRatings (rate 1 5 None) env0 (as_ 3 "user") db1)) <> []
     /\ Forall (materialized (database (postRatings (rate 1 5 None) env0 (as_ 3 "user") db1)))
               (stores (database (postRatings (rate 1 5 None) env0 (as_ 3 "user") db1))))
  /\ updateStoreRating 1 db0 = (inr tt, update_aggregate 1 "0.00" 0 db0).
Proof.
  destruct (aggregate_materialized (H := ext)) as (_ & Hwrite & Hzero & _). split.
  - apply (Hwrite (rate 1 5 None) env0 (as_ 3 "user") db1 consistent_db1). reflexivity.
  - apply (Hzero 1 1 db0); reflexivity.
Defined.

(** C2 (amended) at the sample data: Bob submits a 5 for store 1, which he
    has rated already. *)
Lemma one_rating_per_user_and_store_witness :
  exists (uid sid : Z) (data : InsertRating.t) (v : Z) (row : Rating.t),
    accepted (rate 1 5 None) (as_ 4 "user") uid data sid v
    /\ rows_of uid sid (database (postRatings (rate 1 5 None) env0 (as_ 4 "user") db1)) = [row]
    /\ Rating.rating row = v
    /\ match rows_of uid sid db1 with
       | [] =>
           ratings (database (postRatings (rate 1 5 None) env0 (as_ 4 "user") db1))
           = ratings db1 ++ [row]
           /\ Rating.review row = InsertRating.review data
       | old :: _ =>
           length (ratings (database (postRatings (rate 1 5 None) env0 (as_ 4 "user") db1)))
           = length (ratings db1)
           /\ Rating.id row = Rating.id old
           /\ Rating.review row
              = match InsertRating.review data with
                | Some w => Some w
                | None => Rating.review old
                end
       end.
Proof.
  destruct (one_rating_per_user_and_store (H := ext)) as (_ & Hstep & _).
  apply (Hstep (rate 1 5 None) env0 (as_ 4 "user") db1 consistent_db1). reflexivity.
Defined.

(** C2, as the specification words it, fails: Bob rated 2 with the review
    "ok"; his next submission, a 5 without a review, is answered 200 and
    the row keeps "ok", which is not the review of the submission. *)
Lemma resubmission_keeps_review :
  exists (data : InsertRating.t) (row : Rating.t),
    insertRatingSchema (JObj (<[ "userId" := JNum 4 ]> (spread (rate 1 5 None)))) = inr data
    /\ status (response (postRatings (rate 1 5 None) env0 (as_ 4 "user") db1)) = 200
    /\ rows_of 4 1 (database (postRatings (rate 1 5 None) env0 (as_ 4 "user") db1)) = [row]
    /\ Rating.rating row = 5
    /\ Rating.review row = Some "ok"
    /\ Rating.review row <> InsertRating.review data.
Proof.
  eexists _, _. split_and!; [vm_compute; reflexivity | reflexivity | vm_compute; reflexivity
                            | reflexivity | reflexivity | discriminate].
Qed.

(** C3 (amended) at the sample data: Carol registers as a store owner. *)
Lemma registration_role_witness :
  exists u : User.t,
    users (database (register (registration "Carol The Third Customer" "carol@x.org" "store_owner")
                              env0 anonymous db0))
    = users db0 ++ [u]
    /\ User.role u = "store_owner"
    /\ response (register (registration "Carol The Third Customer" "carol@x.org" "store_owner")
                          env0 anonymous db0)
       = json_ (JObj {[ "user" := JObj (userWithoutPassword u) ]}).
Proof.
  apply (registration_role (H := ext)
           (registration "Carol The Third Customer" "carol@x.org" "store_owner")
           env0 anonymous db0); [reflexivity|].
  right. right. reflexivity.
Defined.

(** C3, as the specification words it, fails: a registration that asks for
    the role "store_owner" is answered 200 and the user it creates has
    that role, not "user". *)
Lemma registration_keeps_requested_role :
  exists u : User.t,
    status (response (register (registration "Carol The Third Customer" "carol@x.org" "store_owner")
                               env0 anonymous db0)) = 200
    /\ users (database (register (registration "Carol The Third Customer" "carol@x.org" "store_owner")
                                 env0 anonymous db0))
       = users db0 ++ [u]
    /\ User.role u = "store_owner"
    /\ User.role u <> "user".
Proof.
  eexists. split_and!; [reflexivity | vm_compute; reflexivity | reflexivity | discriminate].
Qed.

(** C4 fails on the code: 2.5 passes [insertRatingSchema], whose rating
    check has no integer test, and the integer column then refuses it, so
    the answer is 500 and not the 400 of a validation error. No row is
    written. *)
Theorem fractional_rating_is_500 :
  (exists data : InsertRating.t,
     insertRatingSchema (JObj (<[ "userId" := JNum 3 ]> (spread (rate 1 half None)))) = inr data
     /\ InsertRating.rating data = half)
  /\ response (postRatings (rate 1 half None) env0 (as_ 3 "user") db0)
     = message 500 "Failed to submit rating"
  /\ database (postRatings (rate 1 half None) env0 (as_ 3 "user") db0) = db0.
Proof.
  split_and!; [eexists; split; [vm_compute; reflexivity | reflexivity] | reflexivity..].
Qed.

(** C5 at the sample data: Alice submits with the [userId] of Bob in the
    body, and without. *)
Lemma submitter_is_session_user_witness :
  postRatings (obj [ ("storeId", JNum 1); ("rating", JNum 4); ("userId", JNum 4) ])
              env0 (as_ 3 "user") db0
  = postRatings (rate 1 4 None) env0 (as_ 3 "user") db0
  /\ (status (response (postRatings
                (obj [ ("storeId", JNum 1); ("rating", JNum 4); ("userId", JNum 4) ])
                env0 (as_ 3 "user") db0)) = 200 ->
      exists r : Rating.t,
        body (response (postRatings
                (obj [ ("storeId", JNum 1); ("rating", JNum 4); ("userId", JNum 4) ])
                env0 (as_ 3 "user") db0)) = JObj (rating_json r)
        /\ r ∈ ratings (database (postRatings
                (obj [ ("storeId", JNum 1); ("rating", JNum 4); ("userId", JNum 4) ])
                env0 (as_ 3 "user") db0))
        /\ userId (as_ 3 "user") = Some (Rating.userId r)).
Proof.
  apply (submitter_is_session_user
           (obj [ ("storeId", JNum 1); ("rating", JNum 4); ("userId", JNum 4) ])
           (rate 1 4 None) env0 (as_ 3 "user") db0).
  vm_compute. reflexivity.
Defined.

(** C6 (amended) at the sample data: the e-mail of Alice with a password
    that is not hers is answered 401; with no password it is answered 400
    and the session of Bob, who asked, stays his. *)
Lemma wrong_password_is_401_witness :
  login (obj [ ("email", JStr "alice@x.org"); ("password", JStr "Wrong!pw1") ]) anonymous db0
  = mkOutcome (message 401 "Invalid credentials") anonymous db0
  /\ rejected [ "Password is required" ] (as_ 4 "user") db0
       (login (obj [ ("email", JStr "alice@x.org"); ("password", JStr "") ])
              (as_ 4 "user") db0)
  /\ Routes.session (login (obj [ ("email", JStr "alice@x.org"); ("password", JStr "") ])
                           (as_ 4 "user") db0)
     = as_ 4 "user".
Proof.
  destruct (wrong_password_is_401 (H := ext)) as (Hwrong & Hrefused & Hkept).
  split_and!.
  - eapply (Hwrong (obj [ ("email", JStr "alice@x.org"); ("password", JStr "Wrong!pw1") ])
                   anonymous db0); reflexivity.
  - apply (Hrefused (obj [ ("email", JStr "alice@x.org"); ("password", JStr "") ])
                    (as_ 4 "user") db0).
    reflexivity.
  - apply (Hkept (obj [ ("email", JStr "alice@x.org"); ("password", JStr "") ])
                 (as_ 4 "user") db0).
    discriminate.
Defined.

(** C6, as the specification words it, fails: with the e-mail of Alice and
    an empty password, which does not verify, the answer is the 400 of
    [loginSchema] and not 401. *)
Lemma empty_password_is_400 :
  exists user : User.t,
    head (filter (fun u => User.email u = "alice@x.org") (users db0)) = Some user
    /\ bcrypt_compare (Externals := ext) "" (User.password user) = false
    /\ status (response (login (H := ext)
                (obj [ ("email", JStr "alice@x.org"); ("password", JStr "") ])
                anonymous db0)) = 400.
Proof. eexists. split_and!; reflexivity. Qed.

(** C7 at the sample data: Alice, whose role is user, asks
    [POST /api/users] for an administrator account. *)
Lemma admin_only_is_403_witness :
  handle (H := ext) env0
         (PostUsers (registration "Mallory Becomes An Admin" "mallory@x.org" "admin"))
         (as_ 3 "user") db0
  = mkOutcome (message 403 "Forbidden") (as_ 3 "user") db0.
Proof.
  apply (admin_only_is_403 (H := ext)); [reflexivity | discriminate].
Defined.

(** C10 at the sample data: one query asks for [sortBy], the other for
    [sortOrder]. *)
Lemma stores_sorted_by_name_witness :
  getStores (H := ext) {[ "sortBy" := QStr "rating" ]} (as_ 3 "user") db0
  = getStores (H := ext) {[ "sortOrder" := QStr "desc" ]} (as_ 3 "user") db0
  /\ (status (response (getStores (H := ext) {[ "sortBy" := QStr "rating" ]}
                                  (as_ 3 "user") db0)) = 200 ->
      exists (rows : list json) (names : list string),
        body (response (getStores (H := ext) {[ "sortBy" := QStr "rating" ]}
                                  (as_ 3 "user") db0)) = JArr rows
        /\ Forall2 (fun row name => name_of row = Some name) rows names
        /\ ascending (H := ext) names).
Proof.
  apply (stores_sorted_by_name (H := ext)).
  intros k Hby Horder. rewrite !lookup_singleton_ne; done.
Defined.

(** The scenario of the specification: Alice rates 4, Bob rates 2 with a
    review, Alice changes her rating to 5. *)
Example scenario_aggregates :
  let aggregates db := (fun s => (Store.averageRating s, Store.totalRatings s)) <$> stores db in
  let a := database (postRatings (rate 1 4 None) env0 (as_ 3 "user") db0) in
  let b := database (postRatings (rate 1 2 (Some "ok")) env0 (as_ 4 "user") a) in
  let c := database (postRatings (rate 1 5 None) env0 (as_ 3 "user") b) in
  (aggregates a, aggregates b, aggregates c)
  = ([(Some "4.00", Some 1)], [(Some "3.00", Some 2)], [(Some "3.50", Some 2)]).
Proof. reflexivity. Qed.

(** A mean halfway between two hundredths goes the way its binary64 value
    lies: 41/40 is below 1.025 as a binary64 number, 25/8 is exact. *)
Example ties_follow_binary64 :
  (mean_2dp (replicate 39 1 ++ [2]), mean_2dp [3; 3; 3; 3; 3; 3; 3; 4]) = ("1.02", "3.13").
Proof. reflexivity. Qed.

(** * The further statements at sample inputs *)

Import Samples Cases.

#[local] Existing Instance ext.

Lemma integrity_db0 : integrity db0.
Proof. exact (run_integrity (H := ext) setup Pg.empty integrity_empty). Qed.

Lemma integrity_db1 : integrity db1.
Proof. exact (run_integrity (H := ext) rated db0 integrity_db0). Qed.

(** X1 at the sample data: a rating without a session. *)
Lemma unauthenticated_is_401_witness :
  handle (H := ext) env0 (PostRatings (rate 1 5 None)) anonymous db0
  = mkOutcome (message 401 "Unauthorized") anonymous db0.
Proof. apply (unauthenticated_is_401 (H := ext)); [reflexivity | by left]. Defined.

(** X2 at the sample data: Alice lists the stores. *)
Lemma reads_leave_database_witness :
  database (handle (H := ext) env0 (GetStores ∅) (as_ 3 "user") db1) = db1.
Proof. apply (reads_leave_database (H := ext)). reflexivity. Defined.

(** X3 at the sample data: Alice, logged in, registers another account. *)
Lemma session_written_by_login_and_logout_witness :
  Routes.session
    (handle (H := ext) env0
       (PostAuthRegister (registration "Carol The Third Customer" "carol@x.org" "user"))
       (as_ 3 "user") db0)
  = as_ 3 "user".
Proof. apply (session_written_by_login_and_logout (H := ext)). reflexivity. Defined.

(** X4 at the sample data: Alice logs in. *)
Lemma login_needs_matching_hash_witness :
  exists (c : LoginCredentials.t) (u : User.t),
    loginSchema (H := ext) (credentials "alice@x.org" "Secret!1x") = inr c
    /\ u ∈ users db0
    /\ User.email u = LoginCredentials.email c
    /\ bcrypt_compare (Externals := ext) (LoginCredentials.password c) (User.password u) = true
    /\ Routes.session (login (H := ext) (credentials "alice@x.org" "Secret!1x") anonymous db0)
       = snapshot u.
Proof. apply (login_needs_matching_hash (H := ext)). reflexivity. Defined.

(** X5 at the sample data: a login without a password. *)
Lemma invalid_body_is_400_witness :
  rejected ["Password is required"] anonymous db0
    (login (H := ext) (credentials "alice@x.org" "") anonymous db0).
Proof.
  destruct (invalid_body_is_400 (H := ext) (credentials "alice@x.org" "") env0 anonymous db0
              ["Password is required"]) as (_ & Hlogin & _).
  apply Hlogin. reflexivity.
Defined.

(** X6 at the sample data: the e-mail of Alice is registered again. *)
Lemma duplicate_email_is_400_witness :
  register (H := ext) (registration "Alice The Second Customer" "alice@x.org" "user")
           env0 anonymous db0
  = mkOutcome (message 400 "User already exists") anonymous db0.
Proof.
  eapply (duplicate_email_is_400 (H := ext)); [reflexivity|].
  apply (bool_decide_unpack _). reflexivity.
Defined.

(** X7 at the sample data: the requests that build the sample database. *)
Lemma constraints_hold_witness : integrity (run (H := ext) setup Pg.empty).
Proof. apply (constraints_hold (H := ext)). apply integrity_empty. Defined.

(** X9 at the sample data: Carol registers and logs in. *)
Lemma register_then_login_witness :
  exists u : User.t,
    users (database (register (H := ext)
             (registration "Carol The Third Customer" "carol@x.org" "user")
             env0 anonymous db1))
    = users db1 ++ [u]
    /\ User.email u = "carol@x.org"
    /\ User.role u = "user"
    /\ status (response (register (H := ext)
                 (registration "Carol The Third Customer" "carol@x.org" "user")
                 env0 anonymous db1)) = 200
    /\ status (response (login (H := ext) (credentials "carol@x.org" "Secret!1x") anonymous
                 (database (register (H := ext)
                    (registration "Carol The Third Customer" "carol@x.org" "user")
                    env0 anonymous db1)))) = 200
    /\ Routes.session (login (H := ext) (credentials "carol@x.org" "Secret!1x") anonymous
                 (database (register (H := ext)
                    (registration "Carol The Third Customer" "carol@x.org" "user")
                    env0 anonymous db1)))
       = snapshot u.
Proof.
  eapply (register_then_login (H := ext)
            (registration "Carol The Third Customer" "carol@x.org" "user")
            (credentials "carol@x.org" "Secret!1x") env0 anonymous anonymous db1
            (InsertUser.mk "Carol The Third Customer" "carol@x.org" "Secret!1x" None "user")).
  - reflexivity.
  - apply (bool_decide_eq_false_1 _). reflexivity.
  - apply Nat.leb_le. reflexivity.
  - apply Nat.leb_le. reflexivity.
  - reflexivity.
  - reflexivity.
Defined.

(** X10 at the sample data: Alice changes her password and logs in. *)
Lemma change_password_then_login_witness :
  status (response (changePassword (H := ext) (passwords "Secret!1x" "Better?2y")
                      env0 (as_ 3 "user") db0)) = 200
  /\ status (response (login (H := ext) (credentials "alice@x.org" "Better?2y") anonymous
               (database (changePassword (H := ext) (passwords "Secret!1x" "Better?2y")
                            env0 (as_ 3 "user") db0)))) = 200.
Proof.
  destruct (change_password_then_login (H := ext)
              (passwords "Secret!1x" "Better?2y") (credentials "alice@x.org" "Better?2y")
              env0 (as_ 3 "user") anonymous db0
              (ChangePasswordData.mk "Secret!1x" "Better?2y") alice)
    as (Hchanged & Hlogin & _).
  - apply integrity_db0.
  - apply (list_elem_of_lookup_2 _ 2%nat). reflexivity.
  - cbn. lia.
  - reflexivity.
  - discriminate.
  - reflexivity.
  - reflexivity.
  - apply Nat.leb_le. reflexivity.
  - reflexivity.
  - split; [exact Hchanged|]. apply Hlogin. reflexivity.
Defined.

(** X11 at the sample data: Alice gives a wrong current password. *)
Lemma wrong_current_password_is_401_witness :
  changePassword (H := ext) (passwords "Wrong!pw1" "Better?2y") env0 (as_ 3 "user") db0
  = mkOutcome (message 401 "Current password is incorrect") (as_ 3 "user") db0.
Proof.
  apply (wrong_current_password_is_401 (H := ext) _ _ _ _
           (ChangePasswordData.mk "Wrong!pw1" "Better?2y") alice).
  - apply (users_pk _ integrity_db0).
  - apply (list_elem_of_lookup_2 _ 2%nat). reflexivity.
  - cbn. lia.
  - reflexivity.
  - discriminate.
  - reflexivity.
  - reflexivity.
Defined.

(** X12 at the sample data: a session for the id 9, which no user has. *)
Lemma unknown_session_user_is_404_witness :
  me (as_ 9 "user") db0
  = mkOutcome (message 404 "User not found") (as_ 9 "user") db0.
Proof.
  apply (unknown_session_user_is_404 (H := ext) JNull env0 (as_ 9 "user") db0 9).
  - reflexivity.
  - discriminate.
  - lia.
  - apply (bool_decide_eq_false_1 _). reflexivity.
Defined.

(** X13 at the sample data: the stores with an S. *)
Lemma search_finds_occurrences_witness :
  exists found,
    searchStores (H := ext) "S" db0 = (inr found, db0)
    /\ found ⊆+ stores db0
    /\ forall s, s ∈ found <->
         s ∈ stores db0 /\ (occurs "S" (Store.name s) \/ occurs "S" (Store.address s)).
Proof.
  apply (search_finds_occurrences (H := ext)).
  repeat constructor. apply (bool_decide_eq_false_1 _). reflexivity.
Defined.

(** X14 at the sample data: the query of two percent signs. *)
Lemma search_percent_lists_all_witness :
  searchStores (H := ext) "%%" db0 = getAllStores (H := ext) db0.
Proof. apply (search_percent_lists_all (H := ext)). by repeat constructor. Defined.

(** X15 at the sample data: the administrator lists the users. *)
Lemma users_listing_is_complete_witness :
  exists listed,
    getUsers (H := ext) (as_ 1 "admin") db0
    = mkOutcome (json_ (JArr (map (fun u => JObj (userWithoutPassword u)) listed)))
                (as_ 1 "admin") db0
    /\ listed ≡ₚ users db0
    /\ ascending (H := ext) (map User.name listed).
Proof. apply (users_listing_is_complete (H := ext)). reflexivity. Defined.

(** X16 at the sample data: a store for the owner 9, whom no user is. *)
Lemma store_constraint_violation_is_500_witness :
  response (postStores (H := ext) (store "t@x.org" 9) env0 (as_ 1 "admin") db0)
  = message 500 "Failed to create store"
  /\ Routes.session (postStores (H := ext) (store "t@x.org" 9) env0 (as_ 1 "admin") db0)
     = as_ 1 "admin"
  /\ same_tables db0
       (database (postStores (H := ext) (store "t@x.org" 9) env0 (as_ 1 "admin") db0)).
Proof.
  eapply (store_constraint_violation_is_500 (H := ext) _ _ _ _ _ 9).
  - reflexivity.
  - reflexivity.
  - reflexivity.
  - left. apply (bool_decide_eq_false_1 _). reflexivity.
Defined.

(** X17 at the sample data: Alice rates the store 7, which does not exist. *)
Lemma rating_unknown_store_is_500_witness :
  response (postRatings (rate 7 5 None) env0 (as_ 3 "user") db1)
  = message 500 "Failed to submit rating"
  /\ Routes.session (postRatings (rate 7 5 None) env0 (as_ 3 "user") db1)
     = as_ 3 "user"
  /\ same_tables db1
       (database (postRatings (rate 7 5 None) env0 (as_ 3 "user") db1)).
Proof.
  eapply (rating_unknown_store_is_500 _ _ _ _ 3 7).
  - reflexivity.
  - discriminate.
  - reflexivity.
  - reflexivity.
  - apply (bool_decide_eq_false_1 _). reflexivity.
  - apply (ratings_on_stores _ consistent_db1).
Defined.

(** X18 at the sample data: the administrator has no rating for store 1. *)
Lemma updateRating_without_row_witness :
  exists a t,
    aggregate 1 db1 = inr (a, t)
    /\ updateRating 1 1 (InsertRating.mk 1 1 5 None) db1
       = (inr None, update_aggregate 1 a t db1).
Proof.
  eapply (updateRating_without_row _ _ _ _ 1 1 1 1 5).
  - reflexivity.
  - reflexivity.
  - reflexivity.
  - reflexivity.
  - reflexivity.
  - reflexivity.
  - apply (ratings_in_range _ consistent_db1).
Defined.

(** X19 at the sample data: a registration with an e-mail of 256
    characters. *)
Lemma long_email_is_500_witness :
  response (register (H := ext)
              (registration "Carol The Third Customer" long_email "user")
              env0 anonymous db0)
  = message 500 "Registration failed".
Proof.
  eapply (long_email_is_500 (H := ext) _ _ _ _ _ "x"%char).
  - reflexivity.
  - apply (bool_decide_eq_false_1 _). reflexivity.
  - reflexivity.
  - discriminate.
Defined.

(** X20 at the sample data: Alice is the first to rate store 1. *)
Lemma first_rating_is_the_average_witness :
  status (response (postRatings (rate 1 4 None) env0 (as_ 3 "user") db0)) = 200
  /\ stores (database (postRatings (rate 1 4 None) env0 (as_ 3 "user") db0))
     = map (set_aggregate 1 "4.00" 1) (stores db0).
Proof.
  eapply (first_rating_is_the_average _ _ _ _ 3 1 4).
  - reflexivity.
  - discriminate.
  - reflexivity.
  - reflexivity.
  - reflexivity.
  - apply (bool_decide_unpack _). reflexivity.
  - apply (bool_decide_unpack _). reflexivity.
  - reflexivity.
  - constructor.
Defined.

(** X21 at the sample data: Bob changes his rating of store 1 to 5. *)
Lemma rating_is_read_back_witness :
  exists uid r,
    userId (as_ 4 "user") = Some uid
    /\ Rating.userId r = uid
    /\ response (postRatings (rate 1 5 None) env0 (as_ 4 "user") db1)
       = json_ (JObj (rating_json r))
    /\ getRatingByUserAndStore (Num (num uid)) (Num (num (Rating.storeId r)))
         (database (postRatings (rate 1 5 None) env0 (as_ 4 "user") db1))
       = (inr (Some r),
          database (postRatings (rate 1 5 None) env0 (as_ 4 "user") db1)).
Proof. apply (rating_is_read_back). reflexivity. Defined.

(** X22 at the sample data: the statistics after the two ratings. *)
Lemma statistics_agree_with_counters_witness :
  getStatistics_ (as_ 1 "admin") db1
  = mkOutcome
      (json_ (JObj (statistics_json
                      (mkStatistics (count (users db1)) (count (stores db1))
                                    (sum_totals (stores db1))))))
      (as_ 1 "admin") db1.
Proof.
  apply (statistics_agree_with_counters).
  - reflexivity.
  - apply consistent_db1.
  - apply (stores_pk _ integrity_db1).
Defined.


(** X24 at the sample data: Alice asks for the ratings of store 1. *)
Lemma store_ratings_listing_witness :
  exists listed,
    getRatingsStore "1" (as_ 3 "user") db1
    = mkOutcome
        (json_ (JArr (map (fun r => JObj (<[ "user" := rater db1 r ]> (rating_json r)))
                          listed)))
        (as_ 3 "user") db1
    /\ listed ≡ₚ ratings_of 1 db1
    /\ latest_first listed.
Proof.
  apply (store_ratings_listing 1).
  - exists 3. split; [reflexivity | discriminate].
  - lia.
  - repeat constructor; cbn; lia.
Defined.

(** X27 at the sample data: the administrator creates Carol, or Carol
    registers. *)
Lemma creation_equals_registration_witness :
  database (postUsers (H := ext)
              (registration "Carol The Third Customer" "carol@x.org" "user")
              env0 (as_ 1 "admin") db0)
  = database (register (H := ext)
                (registration "Carol The Third Customer" "carol@x.org" "user")
                env0 anonymous db0).
Proof.
  apply (creation_equals_registration (H := ext) _ env0 (as_ 1 "admin") anonymous db0).
  reflexivity.
Defined.

(** X28 at the sample data: Alice lists the stores after the two ratings. *)
Lemma stores_listing_shows_own_rating_witness :
  exists listed,
    getAllStores (H := ext) db1 = (inr listed, db1)
    /\ listed ⊆+ stores db1
    /\ getStores (H := ext) ∅ (as_ 3 "user") db1
       = mkOutcome
           (json_ (JArr (map (fun s =>
                               JObj (<[ "userRating" := own_rating 3 db1 s ]> (store_json s)))
                             listed)))
           (as_ 3 "user") db1.
Proof.
  assert (Forall (fun s => -2147483648 <= Store.id s <= 2147483647) (stores db1)) as Hids
    by (repeat constructor; cbn; lia).
  exact (stores_listing_shows_own_rating (H := ext) ∅ (as_ 3 "user") db1 3
           eq_refl ltac:(discriminate) ltac:(lia) Hids).
Defined.

(** X29 at the sample data: Alice logs out. *)
Lemma logout_ends_the_session_witness :
  status (response (handle (H := ext) env0 PostAuthLogout (as_ 3 "user") db1)) = 200.
Proof.
  apply (logout_ends_the_session (H := ext) env0 (as_ 3 "user") db1). reflexivity.
Defined.

(** X30 at the sample data: a second store for the owner 2. *)
Lemma store_is_read_back_witness :
  exists (s : Store.t) (db' : Db),
    createStore env0 (InsertStore.mk "T" "t@x.org" "2 Main St" 2) db0 = (inr s, db')
    /\ Store.averageRating s = Some "0.00"
    /\ Store.totalRatings s = Some 0
    /\ stores db' = stores db0 ++ [s]
    /\ getStoreById (Num (num (Store.id s))) db' = (inr (Some s), db').
Proof.
  eexists _, _. split; [reflexivity|].
  eapply (store_is_read_back env0 (InsertStore.mk "T" "t@x.org" "2 Main St" 2) db0).
  - apply (stores_serial _ integrity_db0).
  - reflexivity.
  - cbn. lia.
Defined.
